(** * digikey.models: key-casing transforms, request schemas and response wrappers

    A shallow embedding of [digikey/models.py].  The module depends on two
    third-party packages whose code is not part of the repository:
    [inflection] (the two regular-expression based renamings [camelize] and
    [underscore]) and [schematics] (the declarative model runtime).  Both are
    embedded here as far as [models.py] uses them, restricted to ASCII text
    and to JSON-like values without floating point numbers. *)

From Stdlib Require Import String Ascii List Bool ZArith Arith Lia DecimalString.
From ExtLib Require Import Structures.Monad Structures.MonadExc Data.Monads.EitherMonad.
Import ListNotations.
Import MonadNotation.
Set Warnings "-register-all".
Local Open Scope string_scope.
Local Open Scope monad_scope.

(* ===================================================================== *)
(** ** Python values *)
(* ===================================================================== *)

(** The values a decoded JSON document is made of.  A [dict] is kept as the
    list of its items in insertion order; a well-formed dict has no two items
    with the same key ([dict_wf]). *)
Inductive pyval : Type :=
| PNone
| PBool (b : bool)
| PInt (z : Z)
| PStr (s : string)
| PList (l : list pyval)
| PDict (items : list (string * pyval)).

Module Dict.
Section Ops.
Context {V : Type}.

(** [d.get(k)] *)
Fixpoint get (d : list (string * V)) (k : string) : option V :=
  match d with
  | [] => None
  | (k', v) :: d' => if String.eqb k' k then Some v else get d' k
  end.

(** [d.get(k, default)] *)
Definition get_default (d : list (string * V)) (k : string) (default : V) : V :=
  match get d k with Some v => v | None => default end.

(** [d[k] = v]: an existing key keeps its position, a new key goes last. *)
Fixpoint set (d : list (string * V)) (k : string) (v : V) : list (string * V) :=
  match d with
  | [] => [(k, v)]
  | (k', v') :: d' =>
      if String.eqb k' k then (k', v) :: d' else (k', v') :: set d' k v
  end.

(** [d.pop(k)] for its effect on [d]. *)
Fixpoint remove (d : list (string * V)) (k : string) : list (string * V) :=
  match d with
  | [] => []
  | (k', v') :: d' =>
      if String.eqb k' k then remove d' k else (k', v') :: remove d' k
  end.

(** [{k: v for k, v in items}]: items are stored one after the other, so on
    a repeated key the last value wins. *)
Definition of_items (items : list (string * V)) : list (string * V) :=
  fold_left (fun acc kv => set acc (fst kv) (snd kv)) items [].

Definition keys (d : list (string * V)) : list string := map fst d.

Definition mem (k : string) (ks : list string) : bool :=
  existsb (String.eqb k) ks.

Fixpoint nodup_keys (ks : list string) : bool :=
  match ks with
  | [] => true
  | k :: ks' => negb (mem k ks') && nodup_keys ks'
  end.
End Ops.
End Dict.

(** Every dict inside a value has pairwise distinct keys. *)
Fixpoint dict_wf (v : pyval) : bool :=
  match v with
  | PList l => forallb dict_wf l
  | PDict items =>
      Dict.nodup_keys (Dict.keys items)
      && forallb (fun kv => dict_wf (snd kv)) items
  | _ => true
  end.

(** [p] holds of every key of every dict inside a value. *)
Fixpoint all_keys (p : string -> bool) (v : pyval) : bool :=
  match v with
  | PList l => forallb (all_keys p) l
  | PDict items => forallb (fun kv => p (fst kv) && all_keys p (snd kv)) items
  | _ => true
  end.

(* ===================================================================== *)
(** ** The [inflection] package: [camelize] and [underscore] *)
(* ===================================================================== *)

Module Inflection.

Definition is_upper (c : ascii) : bool :=
  Nat.leb 65 (nat_of_ascii c) && Nat.leb (nat_of_ascii c) 90.
Definition is_lower (c : ascii) : bool :=
  Nat.leb 97 (nat_of_ascii c) && Nat.leb (nat_of_ascii c) 122.
Definition is_digit (c : ascii) : bool :=
  Nat.leb 48 (nat_of_ascii c) && Nat.leb (nat_of_ascii c) 57.

(** [str.upper] and [str.lower] on one ASCII character. *)
Definition upper (c : ascii) : ascii :=
  if is_lower c then ascii_of_nat (nat_of_ascii c - 32) else c.
Definition lower (c : ascii) : ascii :=
  if is_upper c then ascii_of_nat (nat_of_ascii c + 32) else c.

Fixpoint map_string (f : ascii -> ascii) (s : string) : string :=
  match s with
  | EmptyString => EmptyString
  | String c s' => String (f c) (map_string f s')
  end.

Definition newline : ascii := ascii_of_nat 10.
Definition underscore_char : ascii := "_"%char.
Definition dash_char : ascii := "-"%char.

(** [re.sub(r"(?:^|_)(.)", lambda m: m.group(1).upper(), string)], the scan
    at a position after the first: an underscore followed by a character
    other than a line feed is replaced by that character in upper case. *)
Fixpoint camelize_from (s : string) : string :=
  match s with
  | EmptyString => EmptyString
  | String c s' =>
      if Ascii.eqb c underscore_char then
        match s' with
        | EmptyString => String c EmptyString
        | String d s'' =>
            if Ascii.eqb d newline
            then String c (String d (camelize_from s''))
            else String (upper d) (camelize_from s'')
        end
      else String c (camelize_from s')
  end.

(** [inflection.camelize(string)] with [uppercase_first_letter=True]: at
    position 0 the alternative [^] matches first, so the first character
    (unless a line feed) is upper-cased whatever it is. *)
Definition camelize (s : string) : string :=
  match s with
  | EmptyString => EmptyString
  | String c s' =>
      if Ascii.eqb c newline
      then String c (camelize_from s')
      else String (upper c) (camelize_from s')
  end.

(** One attempt of [([A-Z]+)([A-Z][a-z])] at the head of [s]: the greedy
    [[A-Z]+] first takes as much as it can and gives characters back one at
    a time.  Returns group 1, group 2 and the text after the match. *)
Fixpoint match_acronym (s : string) : option (string * string * string) :=
  match s with
  | EmptyString => None
  | String c s' =>
      if is_upper c then
        match match_acronym s' with
        | Some (g1, g2, rest) => Some (String c g1, g2, rest)
        | None =>
            match s' with
            | String u (String l rest) =>
                if is_upper u && is_lower l
                then Some (String c EmptyString,
                           String u (String l EmptyString), rest)
                else None
            | _ => None
            end
        end
      else None
  end.

(** [re.sub(r"([A-Z]+)([A-Z][a-z])", r'\1_\2', word)].  Every step consumes
    at least one character, so [length word] steps are enough. *)
Fixpoint sub_acronym (fuel : nat) (s : string) : string :=
  match fuel with
  | O => s
  | S fuel' =>
      match match_acronym s with
      | Some (g1, g2, rest) =>
          g1 ++ String underscore_char (g2 ++ sub_acronym fuel' rest)
      | None =>
          match s with
          | EmptyString => EmptyString
          | String c s' => String c (sub_acronym fuel' s')
          end
      end
  end.

(** [re.sub(r"([a-z\d])([A-Z])", r'\1_\2', word)] *)
Fixpoint sub_boundary (s : string) : string :=
  match s with
  | EmptyString => EmptyString
  | String a s' =>
      match s' with
      | String b s'' =>
          if (is_lower a || is_digit a) && is_upper b
          then String a (String underscore_char (String b (sub_boundary s'')))
          else String a (sub_boundary s')
      | EmptyString => String a EmptyString
      end
  end.

(** [word.replace("-", "_")] *)
Definition replace_dash (s : string) : string :=
  map_string (fun c => if Ascii.eqb c dash_char then underscore_char else c) s.

(** [inflection.underscore(word)] *)
Definition underscore (word : string) : string :=
  let word := sub_acronym (String.length word) word in
  let word := sub_boundary word in
  let word := replace_dash word in
  map_string lower word.

End Inflection.

(* ===================================================================== *)
(** ** BaseModel: the recursive key transforms *)
(* ===================================================================== *)

(** [BaseModel.recursive_camelize] *)
Fixpoint recursive_camelize (camelizee : pyval) : pyval :=
  match camelizee with
  | PDict items =>
      PDict (Dict.of_items
               (map (fun kv => (Inflection.camelize (fst kv),
                                recursive_camelize (snd kv))) items))
  | PList l => PList (map recursive_camelize l)
  | _ => camelizee
  end.

(** [BaseModel.recursive_underscore] *)
Fixpoint recursive_underscore (underscoree : pyval) : pyval :=
  match underscoree with
  | PDict items =>
      PDict (Dict.of_items
               (map (fun kv => (Inflection.underscore (fst kv),
                                recursive_underscore (snd kv))) items))
  | PList l => PList (map recursive_underscore l)
  | _ => underscoree
  end.

(** [BaseModel.camelize] and [BaseModel.underscore] *)
Definition camelize (dict_ : pyval) : pyval := recursive_camelize dict_.
Definition underscore (underscoree : pyval) : pyval := recursive_underscore underscoree.


(* ===================================================================== *)
(** ** Python built-ins used by the runtime *)
(* ===================================================================== *)

Module Builtins.

(** The messages schematics attaches to a field, by kind, and the texts
    [models.py] passes to [ValidationError] itself. *)
Inductive message : Type :=
| MsgRequired                       (* a required field is None or missing *)
| MsgIntCoerce                      (* IntType could not read the value *)
| MsgStrConvert                     (* StringType could not read the value *)
| MsgBoolConvert                    (* BooleanType could not read the value *)
| MsgListConvert                    (* ListType was not given a sequence *)
| MsgModelConvert                   (* ModelType was not given a mapping *)
| MsgMinValue (bound : Z)
| MsgMaxValue (bound : Z)
| MsgMinLength
| MsgMaxLength
| MsgChoices (allowed : list string)
| MsgRogue                          (* a key that is no field of the model *)
| MsgText (text : string).          (* a message given by models.py itself *)

(** The [errors]/[messages] payload of a schematics exception: a list of
    messages for one field, or errors keyed by field name (a nested model)
    or by position (a list field). *)
Inductive error_tree : Type :=
| Messages (msgs : list message)
| FieldErrors (items : list (string * error_tree))
| IndexErrors (items : list (nat * error_tree)).

Definition report : Type := list (string * error_tree).

(** Exceptions that cross function boundaries in [models.py]. *)
Inductive exn : Type :=
| KeyError (key : string)
| TypeError
| AttributeError (name : string)
| ConversionError (msgs : list message)
| ValidationError (msgs : list message)
| DataError (errors : report)
| IndexError.

(** A computation that returns or raises. *)
Definition py (A : Type) : Type := sum exn A.
#[global] Instance Monad_py : Monad py := Monad_either exn.
#[global] Instance Exception_py : MonadExc exn py := Exception_either exn.

Fixpoint mapM {A B : Type} (f : A -> py B) (l : list A) : py (list B) :=
  match l with
  | [] => ret []
  | x :: l' => y <- f x ;; ys <- mapM f l' ;; ret (y :: ys)
  end.

(** [value[key]] *)
Definition getitem (value : pyval) (key : string) : py pyval :=
  match value with
  | PDict d =>
      match Dict.get d key with
      | Some v => ret v
      | None => raise (KeyError key)
      end
  | _ => raise TypeError
  end.

(** [value.get(key, default)]: only a dict has the method. *)
Definition get (value : pyval) (key : string) (default : pyval) : py pyval :=
  match value with
  | PDict d => ret (Dict.get_default d key default)
  | _ => raise (AttributeError "get")
  end.

Fixpoint chars (s : string) : list pyval :=
  match s with
  | EmptyString => []
  | String c s' => PStr (String c EmptyString) :: chars s'
  end.

(** [for x in value]: the elements of a list, the keys of a dict, the
    characters of a string; nothing else is iterable. *)
Definition iter (value : pyval) : py (list pyval) :=
  match value with
  | PList l => ret l
  | PDict d => ret (map (fun kv => PStr (fst kv)) d)
  | PStr s => ret (chars s)
  | _ => raise TypeError
  end.

(** [str(z)] for an integer. *)
Definition str_of_int (z : Z) : string :=
  DecimalString.NilZero.string_of_int (Z.to_int z).

(** ASCII white space as [int()] strips it. *)
Definition is_space (c : ascii) : bool :=
  let n := nat_of_ascii c in
  (Nat.leb 9 n && Nat.leb n 13) || (Nat.leb 28 n && Nat.leb n 32).

Fixpoint lstrip (s : string) : string :=
  match s with
  | String c s' => if is_space c then lstrip s' else s
  | EmptyString => EmptyString
  end.

Fixpoint rev_string (acc s : string) : string :=
  match s with
  | EmptyString => acc
  | String c s' => rev_string (String c acc) s'
  end.

Definition strip (s : string) : string :=
  rev_string EmptyString (lstrip (rev_string EmptyString (lstrip s))).

Definition digit_value (c : ascii) : option Z :=
  if Inflection.is_digit c then Some (Z.of_nat (nat_of_ascii c - 48)) else None.

(** Decimal digits, single underscores allowed between two digits.
    [after_digit] tells whether the previous character was a digit. *)
Fixpoint digits (acc : Z) (after_digit : bool) (s : string) : option Z :=
  match s with
  | EmptyString => if after_digit then Some acc else None
  | String c s' =>
      match digit_value c with
      | Some d => digits (10 * acc + d) true s'
      | None =>
          if Ascii.eqb c Inflection.underscore_char && after_digit
          then match s' with
               | String c' _ =>
                   if Inflection.is_digit c' then digits acc false s' else None
               | EmptyString => None
               end
          else None
      end
  end.

(** [int(s)] for a string: [None] stands for [ValueError]. *)
Definition int_of_str (s : string) : option Z :=
  match strip s with
  | String "+" s' => digits 0 false s'
  | String "-" s' => option_map Z.opp (digits 0 false s')
  | s' => digits 0 false s'
  end.

End Builtins.
Export Builtins.

(* ===================================================================== *)
(** ** The [schematics] runtime *)
(* ===================================================================== *)

(** The model classes [models.py] declares. *)
Inductive model_class : Type :=
| ParametricFilters
| Filters
| Sort
| KeywordSearchRequest
| PartDetailPostRequest
| ProductDetailGetRequest
| LimitedTaxonomy
| Value
| FilterOption.

(** The part of schematics 2.x that [models.py] relies on: field types with
    their keyword arguments, construction of an instance from raw data
    (conversion only) and [validate()] (field validators, then the
    [validate_<field>] methods of the class).  Serialized names, roles,
    export and assignment to fields are not used by [models.py] and are left
    out. *)
Module Schematics.

(** Converted ("native") field values.  A model instance is its class and
    its data, one entry per field. *)
Inductive native : Type :=
| NNone
| NBool (b : bool)
| NInt (z : Z)
| NStr (s : string)
| NList (l : list native)
| NModel (c : model_class) (data : list (string * native)).

(** Keyword arguments of a field type. *)
Record options : Type := {
  required : bool;
  default : option native;
  choices : option (list string);
  min_value : option Z;
  max_value : option Z;
  min_length : option nat;
  max_length : option nat
}.

Definition no_options : options :=
  {| required := false; default := None; choices := None;
     min_value := None; max_value := None;
     min_length := None; max_length := None |}.

(** One setter per keyword, so that a declaration reads as in the source. *)
Definition kw_required (b : bool) (o : options) : options :=
  {| required := b; default := default o; choices := choices o;
     min_value := min_value o; max_value := max_value o;
     min_length := min_length o; max_length := max_length o |}.
Definition kw_default (n : native) (o : options) : options :=
  {| required := required o; default := Some n; choices := choices o;
     min_value := min_value o; max_value := max_value o;
     min_length := min_length o; max_length := max_length o |}.
Definition kw_choices (l : list string) (o : options) : options :=
  {| required := required o; default := default o; choices := Some l;
     min_value := min_value o; max_value := max_value o;
     min_length := min_length o; max_length := max_length o |}.
Definition kw_min_value (z : Z) (o : options) : options :=
  {| required := required o; default := default o; choices := choices o;
     min_value := Some z; max_value := max_value o;
     min_length := min_length o; max_length := max_length o |}.
Definition kw_max_value (z : Z) (o : options) : options :=
  {| required := required o; default := default o; choices := choices o;
     min_value := min_value o; max_value := Some z;
     min_length := min_length o; max_length := max_length o |}.
Definition kw_min_length (n : nat) (o : options) : options :=
  {| required := required o; default := default o; choices := choices o;
     min_value := min_value o; max_value := max_value o;
     min_length := Some n; max_length := max_length o |}.
Definition kw_max_length (n : nat) (o : options) : options :=
  {| required := required o; default := default o; choices := choices o;
     min_value := min_value o; max_value := max_value o;
     min_length := min_length o; max_length := Some n |}.

Inductive field : Type :=
| IntType (o : options)
| StringType (o : options)
| BooleanType (o : options)
| ListType (elem : field) (o : options)
| ModelType (c : model_class) (o : options).

Definition field_options (f : field) : options :=
  match f with
  | IntType o | StringType o | BooleanType o | ListType _ o | ModelType _ o => o
  end.

(** A model-level validator [validate_<field>(self, data, value)]. *)
Definition validator : Type := list (string * native) -> native -> py native.

(** Outcome of converting one value: the native value or the errors of a
    [ConversionError] / nested [DataError]. *)
Definition converted : Type := sum error_tree native.

(** Outcome of validating one value: the value, the errors of the
    exception schematics collects (with the partial data of a nested
    [DataError]), or an exception schematics does not catch. *)
Inductive validated : Type :=
| Valid (value : native)
| Invalid (errors : error_tree) (partial_data : option native)
| Raised (e : exn).

(** [NumberType.to_native] for [int]: a bool or an int is taken as it is,
    a string goes through [int()]. *)
Definition to_native_int (value : pyval) : converted :=
  match value with
  | PBool b => inr (NInt (if b then 1 else 0))
  | PInt z => inr (NInt z)
  | PStr s =>
      match int_of_str s with
      | Some z => inr (NInt z)
      | None => inl (Messages [MsgIntCoerce])
      end
  | _ => inl (Messages [MsgIntCoerce])
  end.

(** [StringType.to_native]: a string is taken as it is, an int is cast
    with [str()]; a bool is refused, although it is an int. *)
Definition to_native_str (value : pyval) : converted :=
  match value with
  | PStr s => inr (NStr s)
  | PInt z => inr (NStr (str_of_int z))
  | _ => inl (Messages [MsgStrConvert])
  end.

(** [BooleanType.to_native] *)
Definition to_native_bool (value : pyval) : converted :=
  match value with
  | PBool b => inr (NBool b)
  | PStr s =>
      if Dict.mem s ["True"; "true"; "1"] then inr (NBool true)
      else if Dict.mem s ["False"; "false"; "0"] then inr (NBool false)
      else inl (Messages [MsgBoolConvert])
  | PInt z =>
      if Z.eqb z 0 then inr (NBool false)
      else if Z.eqb z 1 then inr (NBool true)
      else inl (Messages [MsgBoolConvert])
  | _ => inl (Messages [MsgBoolConvert])
  end.

(** Results of the items of a list field, with the failures by position. *)
Fixpoint collect_converted (i : nat) (l : list converted)
  : list (nat * error_tree) * list native :=
  match l with
  | [] => ([], [])
  | r :: l' =>
      let (errs, data) := collect_converted (S i) l' in
      match r with
      | inr n => (errs, n :: data)
      | inl e => ((i, e) :: errs, data)
      end
  end.

Definition list_converted (l : list converted) : converted :=
  match collect_converted 0 l with
  | ([], data) => inr (NList data)
  | (errs, _) => inl (IndexErrors errs)
  end.

(** [validate_choices] *)
Definition check_choices (o : options) (value : native) : list message :=
  match choices o with
  | None => []
  | Some allowed =>
      match value with
      | NStr s => if Dict.mem s allowed then [] else [MsgChoices allowed]
      | _ => [MsgChoices allowed]
      end
  end.

(** [NumberType.validate_range]: the lower bound is tested first. *)
Definition check_range (o : options) (z : Z) : list message :=
  match min_value o with
  | Some lo => if Z.ltb z lo then [MsgMinValue lo] else
      match max_value o with
      | Some hi => if Z.ltb hi z then [MsgMaxValue hi] else []
      | None => []
      end
  | None =>
      match max_value o with
      | Some hi => if Z.ltb hi z then [MsgMaxValue hi] else []
      | None => []
      end
  end.

(** [StringType.validate_length]: the upper bound is tested first. *)
Definition check_length (o : options) (s : string) : list message :=
  match max_length o with
  | Some hi => if Nat.ltb hi (String.length s) then [MsgMaxLength] else
      match min_length o with
      | Some lo => if Nat.ltb (String.length s) lo then [MsgMinLength] else []
      | None => []
      end
  | None =>
      match min_length o with
      | Some lo => if Nat.ltb (String.length s) lo then [MsgMinLength] else []
      | None => []
      end
  end.

(** [BaseType.validate]: every validator runs, the messages add up. *)
Definition of_messages (value : native) (msgs : list message) : validated :=
  match msgs with
  | [] => Valid value
  | _ => Invalid (Messages msgs) None
  end.

Fixpoint collect_validated (i : nat) (l : list validated)
  : sum exn (list (nat * error_tree) * list native) :=
  match l with
  | [] => inr ([], [])
  | r :: l' =>
      match r with
      | Raised e => inl e
      | Valid n =>
          match collect_validated (S i) l' with
          | inr (errs, data) => inr (errs, n :: data)
          | inl e => inl e
          end
      | Invalid e _ =>
          match collect_validated (S i) l' with
          | inr (errs, data) => inr ((i, e) :: errs, data)
          | inl e' => inl e'
          end
      end
  end.

Definition list_validated (l : list validated) : validated :=
  match collect_validated 0 l with
  | inl e => Raised e
  | inr ([], data) => Valid (NList data)
  | inr (errs, _) => Invalid (IndexErrors errs) None
  end.

Section Runtime.
(** The fields of each class in declaration order, and its model-level
    validators by field name. *)
Variable fields_of : model_class -> list (string * field).
Variable validators_of : model_class -> list (string * validator).

(** *** Construction: [cls(raw_data)] *)

(** [import_loop] at construction ([partial=True], [strict=True],
    [init_values], [apply_defaults]).  Each field reads nothing but its
    own raw entry, so [entries] holds the raw items already converted:
    [None] for a key that is no field of the class.  A key of the raw
    data that no field uses is an error; a field without raw entry takes
    its default, or None. *)
Definition rogue_errors (entries : list (string * option converted)) : report :=
  flat_map (fun e => match snd e with
                     | None => [(fst e, Messages [MsgRogue])]
                     | Some _ => []
                     end) entries.

Definition import_field (entries : list (string * option converted))
           (f : field) (name : string) : converted :=
  match Dict.get entries name with
  | Some (Some r) => r
  | Some None => inr NNone
  | None =>
      match default (field_options f) with
      | Some n => inr n
      | None => inr NNone
      end
  end.

Definition import_loop (c : model_class)
           (entries : list (string * option converted))
  : report * list (string * native) :=
  fold_left
    (fun acc nf =>
       match import_field entries (snd nf) (fst nf) with
       | inr n => (fst acc, Dict.set (snd acc) (fst nf) n)
       | inl e => (Dict.set (fst acc) (fst nf) e, snd acc)
       end)
    (fields_of c) (rogue_errors entries, []).

(** [field.convert(value)] for a value that is not None. *)
Fixpoint convert (f : field) (value : pyval) {struct value} : converted :=
  match f with
  | IntType _ => to_native_int value
  | StringType _ => to_native_str value
  | BooleanType _ => to_native_bool value
  | ListType elem _ =>
      match value with
      | PList l =>
          list_converted
            (map (fun item =>
                    match item with
                    | PNone =>
                        if required (field_options elem)
                        then inl (Messages [MsgRequired]) else inr NNone
                    | _ => convert elem item
                    end) l)
      | _ => inl (Messages [MsgListConvert])
      end
  | ModelType c _ =>
      match value with
      | PDict d =>
          let entries :=
            map (fun kv =>
                   (fst kv,
                    match Dict.get (fields_of c) (fst kv) with
                    | Some f' =>
                        Some match snd kv with
                             | PNone => inr NNone
                             | _ => convert f' (snd kv)
                             end
                    | None => None
                    end)) d in
          match import_loop c entries with
          | ([], data) => inr (NModel c data)
          | (errs, _) => inl (FieldErrors errs)
          end
      | _ => inl (Messages [MsgModelConvert])
      end
  end.

(** [bool(value)] *)
Definition truthy (value : pyval) : bool :=
  match value with
  | PNone => false
  | PBool b => b
  | PInt z => negb (Z.eqb z 0)
  | PStr s => negb (String.eqb s "")
  | PList l => match l with [] => false | _ => true end
  | PDict d => match d with [] => false | _ => true end
  end.

(** [{key: raw_data[key] for key in raw_data}] on a list: every element is
    used as an index into the list itself.  An element that is no int
    raises [TypeError] and an index out of range [IndexError]; otherwise
    the keys of the mapping are these ints, each once, in the order of
    their first occurrence (a bool is the int 0 or 1). *)
Definition as_index (key : pyval) : option Z :=
  match key with
  | PInt i => Some i
  | PBool b => Some (if b then 1 else 0)%Z
  | _ => None
  end.

Fixpoint index_keys (n : Z) (l : list pyval) (seen : list (Z * pyval))
  : py (list pyval) :=
  match l with
  | [] => ret (map snd seen)
  | key :: l' =>
      match as_index key with
      | None => raise TypeError
      | Some i =>
          if Z.leb (- n) i && Z.ltb i n
          then index_keys n l'
                 (if existsb (fun x => Z.eqb (fst x) i) seen
                  then seen else seen ++ [(i, key)])%list
          else raise IndexError
      end
  end.

(** A key that is no string, as the text that stands for it in a report. *)
Definition key_text (key : pyval) : string :=
  match key with
  | PInt i => str_of_int i
  | PBool b => if b then "True" else "False"
  | _ => ""
  end.

(** [Model.__init__(raw_data)]: a false [raw_data] stands for no data; any
    other value is read through [{key: raw_data[key] for key in raw_data}],
    which copies a dict, raises [TypeError] for a bool, an int and a
    string, and turns a list into a mapping with int keys, none of which
    is a field.  Conversion failures are raised together as one
    [DataError]. *)
Definition construct (c : model_class) (raw_data : pyval) : py native :=
  let raw := if truthy raw_data then raw_data else PDict [] in
  match raw with
  | PDict _ =>
      match convert (ModelType c no_options) raw with
      | inr inst => ret inst
      | inl (FieldErrors errs) => raise (DataError errs)
      | inl _ => raise TypeError
      end
  | PList l =>
      keys <- index_keys (Z.of_nat (length l)) l [] ;;
      raise (DataError (map (fun key => (key_text key, Messages [MsgRogue])) keys))
  | _ => raise TypeError
  end.

(** *** Validation: [instance.validate()] *)

(** Step one, per field ([partial=False]): a required field must not be
    None; a field whose validation fails is left out of [data] (a nested
    model leaves its partial data). *)
Definition validate_field (entries : list (string * option validated))
           (f : field) (name : string) : option validated :=
  match Dict.get entries name with
  | Some (Some r) => Some r
  | Some None => None
  | None =>
      if required (field_options f)
      then Some (Invalid (Messages [MsgRequired]) None) else None
  end.

Definition validate_fields (c : model_class)
           (entries : list (string * option validated))
  : sum exn (report * list (string * native)) :=
  fold_left
    (fun acc nf =>
       match acc with
       | inl e => inl e
       | inr (errs, data) =>
           match validate_field entries (snd nf) (fst nf) with
           | None => inr (errs, data)
           | Some (Valid n) => inr (errs, Dict.set data (fst nf) n)
           | Some (Invalid e partial) =>
               inr (Dict.set errs (fst nf) e,
                    match partial with
                    | Some p => Dict.set data (fst nf) p
                    | None => data
                    end)
           | Some (Raised e) => inl e
           end
       end)
    (fields_of c) (inr ([], [])).

(** Step two, [_validate_model]: the validator of every field that has a
    value in [data] is called with [data] as step one left it, whether or
    not other fields failed.  A [ValidationError] (or another schematics
    error) becomes the field's error; anything else is not caught. *)
Definition validate_model (c : model_class) (data : list (string * native))
  : sum exn (report * list string) :=
  fold_left
    (fun acc nf =>
       match acc with
       | inl e => inl e
       | inr (errs, invalid) =>
           match Dict.get data (fst nf), Dict.get (validators_of c) (fst nf) with
           | Some value, Some validate_ =>
               match validate_ data value with
               | inr _ => inr (errs, invalid)
               | inl (ValidationError m) | inl (ConversionError m) =>
                   inr (Dict.set errs (fst nf) (Messages m), (invalid ++ [fst nf])%list)
               | inl (DataError r) =>
                   inr (Dict.set errs (fst nf) (FieldErrors r), (invalid ++ [fst nf])%list)
               | inl e => inl e
               end
           | _, _ => inr (errs, invalid)
           end
       end)
    (fields_of c) (inr ([], [])).

Definition validate_loop (c : model_class)
           (entries : list (string * option validated)) : validated :=
  match validate_fields c entries with
  | inl e => Raised e
  | inr (field_errors, data) =>
      match validate_model c data with
      | inl e => Raised e
      | inr (model_errors, invalid) =>
          let errors :=
            fold_left (fun acc kv => Dict.set acc (fst kv) (snd kv))
                      model_errors field_errors in
          let data := fold_left Dict.remove invalid data in
          match errors with
          | [] => Valid (NModel c data)
          | _ => Invalid (FieldErrors errors) (Some (NModel c data))
          end
      end
  end.

(** [field.validate(value)] for a native value that is not None.  The
    values come from construction, so converting them again changes
    nothing; the validators run in the order choices, then range or
    length. *)
Fixpoint validate_value (f : field) (value : native) {struct value} : validated :=
  match f with
  | IntType o =>
      match value with
      | NInt z => of_messages value (check_choices o value ++ check_range o z)%list
      | _ => Invalid (Messages [MsgIntCoerce]) None
      end
  | StringType o =>
      match value with
      | NStr s => of_messages value (check_choices o value ++ check_length o s)%list
      | _ => Invalid (Messages [MsgStrConvert]) None
      end
  | BooleanType o =>
      match value with
      | NBool _ => of_messages value (check_choices o value)
      | _ => Invalid (Messages [MsgBoolConvert]) None
      end
  | ListType elem o =>
      match value with
      | NList l =>
          list_validated
            (map (fun item =>
                    match item with
                    | NNone =>
                        if required (field_options elem)
                        then Invalid (Messages [MsgRequired]) None
                        else Valid NNone
                    | _ => validate_value elem item
                    end) l)
      | _ => Invalid (Messages [MsgListConvert]) None
      end
  | ModelType c o =>
      match value with
      | NModel _ d =>
          validate_loop c
            (map (fun kv =>
                    (fst kv,
                     match Dict.get (fields_of c) (fst kv) with
                     | Some f' =>
                         Some match snd kv with
                              | NNone =>
                                  if required (field_options f')
                                  then Invalid (Messages [MsgRequired]) None
                                  else Valid NNone
                              | _ => validate_value f' (snd kv)
                              end
                     | None => None
                     end)) d)
      | _ => Invalid (Messages [MsgModelConvert]) None
      end
  end.

(** [Model.validate()]: returns the instance with its validated data, or
    raises one [DataError] with every error found. *)
Definition validate (inst : native) : py native :=
  match inst with
  | NModel c _ =>
      match validate_value (ModelType c no_options) inst with
      | Valid n => ret n
      | Invalid (FieldErrors errs) _ => raise (DataError errs)
      | Invalid _ _ => raise TypeError
      | Raised e => raise e
      end
  | _ => raise (AttributeError "validate")
  end.

End Runtime.

(** [instance.<name>] for a field. *)
Definition getattr (inst : native) (name : string) : py native :=
  match inst with
  | NModel _ data =>
      match Dict.get data name with
      | Some v => ret v
      | None => raise (AttributeError name)
      end
  | _ => raise (AttributeError name)
  end.

End Schematics.
Export Schematics.

(* ===================================================================== *)
(** ** models.py: request schemas *)
(* ===================================================================== *)

(** [class SortOptions(Enum)] *)
Inductive SortOptions : Type :=
| sort_by_digi_key_part_number
| sort_by_manufacturer_part_number
| sort_by_description
| sort_by_manufacturer
| sort_by_minimum_order_quantity
| sort_by_quantity_available
| sort_by_unit_price
| sort_by_parameter.

Definition SortOptions_members : list SortOptions :=
  [sort_by_digi_key_part_number; sort_by_manufacturer_part_number;
   sort_by_description; sort_by_manufacturer; sort_by_minimum_order_quantity;
   sort_by_quantity_available; sort_by_unit_price; sort_by_parameter].

Definition SortOptions_value (c : SortOptions) : string :=
  match c with
  | sort_by_digi_key_part_number => "SortByDigiKeyPartNumber"
  | sort_by_manufacturer_part_number => "SortByManufacturerPartNumber"
  | sort_by_description => "SortByDescription"
  | sort_by_manufacturer => "SortByManufacturer"
  | sort_by_minimum_order_quantity => "SortByMinimumOrderQuantity"
  | sort_by_quantity_available => "SortByQuantityAvailable"
  | sort_by_unit_price => "SortByUnitPrice"
  | sort_by_parameter => "SortByParameter"
  end.

(** [class SortDirections(Enum)] *)
Inductive SortDirections : Type :=
| ascending
| descending.

Definition SortDirections_members : list SortDirections := [ascending; descending].

Definition SortDirections_value (c : SortDirections) : string :=
  match c with
  | ascending => "Ascending"
  | descending => "Descending"
  end.

(** [class SearchOptions(Enum)] *)
Inductive SearchOptions : Type :=
| lead_free
| collapse_packaging_types
| exclude_non_stock
| has_3d_model
| in_stock
| manufacturer_part_search
| new_products_only
| rohs_compliant
| has_mentor_footprint.

Definition SearchOptions_members : list SearchOptions :=
  [lead_free; collapse_packaging_types; exclude_non_stock; has_3d_model;
   in_stock; manufacturer_part_search; new_products_only; rohs_compliant;
   has_mentor_footprint].

Definition SearchOptions_value (c : SearchOptions) : string :=
  match c with
  | lead_free => "LeadFree"
  | collapse_packaging_types => "CollapsePackagingTypes"
  | exclude_non_stock => "ExcludeNonStock"
  | has_3d_model => "Has3DModel"
  | in_stock => "InStock"
  | manufacturer_part_search => "ManufacturerPartSearch"
  | new_products_only => "NewProductsOnly"
  | rohs_compliant => "RoHSCompliant"
  | has_mentor_footprint => "HasMentorFootprint"
  end.

(** The field declarations of every model class, in declaration order.
    [LimitedTaxonomy] gets its [children] field appended after the class
    body ([_append_field]). *)
Definition fields_of (c : model_class) : list (string * field) :=
  match c with
  | ParametricFilters =>
      [("parameter_id", IntType (kw_required true no_options));
       ("value_id",
        StringType (kw_required true (kw_min_length 1 (kw_max_length 100 no_options))))]
  | Filters =>
      [("taxonomy_ids", ListType (IntType no_options) no_options);
       ("manufacturer_ids", ListType (IntType no_options) no_options);
       ("parametric_filters",
        ListType (ModelType ParametricFilters no_options) no_options)]
  | Sort =>
      [("sort_option",
        StringType (kw_required true
                      (kw_choices (map SortOptions_value SortOptions_members)
                                  no_options)));
       ("direction",
        StringType (kw_required true
                      (kw_choices (map SortDirections_value SortDirections_members)
                                  no_options)));
       ("sort_parameter_id", IntType no_options)]
  | KeywordSearchRequest =>
      [("keywords", StringType (kw_required true no_options));
       ("search_options",
        ListType (StringType
                    (kw_choices (map SearchOptions_value SearchOptions_members)
                                no_options)) no_options);
       ("record_count",
        IntType (kw_default (NInt 10)
                   (kw_min_value 1 (kw_max_value 50 (kw_required true no_options)))));
       ("record_start_pos", IntType (kw_default (NInt 0) no_options));
       ("filters", ModelType Filters no_options);
       ("sort", ModelType Sort no_options);
       ("requested_quantity", IntType (kw_default (NInt 1) no_options))]
  | PartDetailPostRequest =>
      [("part", StringType (kw_required true no_options));
       ("include_all_associated_products", BooleanType no_options);
       ("include_all_for_use_with_products", BooleanType no_options)]
  | ProductDetailGetRequest =>
      [("part", StringType (kw_required true no_options));
       ("includes", StringType (kw_required false no_options))]
  | LimitedTaxonomy =>
      [("product_count", IntType no_options);
       ("new_product_count", IntType no_options);
       ("parameter_id", IntType no_options);
       ("value_id", StringType no_options);
       ("parameter", StringType no_options);
       ("value", StringType no_options)]
      ++ [("children", ListType (ModelType LimitedTaxonomy no_options) no_options)]
  | Value =>
      [("value_id", StringType no_options);
       ("value", StringType no_options)]
  | FilterOption =>
      [("values", ListType (ModelType Value no_options) no_options);
       ("parameter_id", IntType no_options);
       ("parameter", StringType no_options)]
  end%list.

(** [data[key]] on the data handed to a model-level validator. *)
Definition data_getitem (data : list (string * native)) (key : string) : py native :=
  match Dict.get data key with
  | Some v => ret v
  | None => raise (KeyError key)
  end.

(** [value == text] for a native value and a string. *)
Definition eq_str (value : native) (text : string) : bool :=
  match value with
  | NStr s => String.eqb s text
  | _ => false
  end.

Definition is_None (value : native) : bool :=
  match value with
  | NNone => true
  | _ => false
  end.

(** [Sort.validate_sort_parameter_id] *)
Definition validate_sort_parameter_id (data : list (string * native))
           (value : native) : py native :=
  sort_option <- data_getitem data "sort_option" ;;
  if eq_str sort_option (SortOptions_value sort_by_parameter) then
    sort_parameter_id <- data_getitem data "sort_parameter_id" ;;
    if is_None sort_parameter_id then
      raise (ValidationError
               [MsgText "If sorting by parameter a sort parameter must be set"])
    else ret value
  else
    sort_parameter_id <- data_getitem data "sort_parameter_id" ;;
    if negb (is_None sort_parameter_id) then
      raise (ValidationError
               [MsgText "If not sorting by parameter no sort parameter id should be provided"])
    else ret value.

(** The [validate_<field>] methods of every class. *)
Definition validators_of (c : model_class) : list (string * validator) :=
  match c with
  | Sort => [("sort_parameter_id", validate_sort_parameter_id)]
  | _ => []
  end.

(* ===================================================================== *)
(** ** models.py: BaseModel *)
(* ===================================================================== *)

(** What the class methods of [BaseModel] hand back: None, a bool, the
    messages of an exception, a bound method, or a list of such. *)
Inductive obj : Type :=
| ONone
| OBool (b : bool)
| OErrors (messages : error_tree)
| OBoundMethod (c : model_class) (name : string)
| OList (l : list obj).

(** [bool(o)]: a method object is always true. *)
Definition obj_truthy (o : obj) : bool :=
  match o with
  | ONone => false
  | OBool b => b
  | OErrors (Messages l) => match l with [] => false | _ => true end
  | OErrors (FieldErrors l) => match l with [] => false | _ => true end
  | OErrors (IndexErrors l) => match l with [] => false | _ => true end
  | OBoundMethod _ _ => true
  | OList l => match l with [] => false | _ => true end
  end.

(** [cls(dict_)] *)
Definition new (cls : model_class) (dict_ : pyval) : py native :=
  construct fields_of cls dict_.

(** [BaseModel.errors] *)
Definition errors (cls : model_class) (dict_ : pyval) : py obj :=
  catch
    (inst <- new cls dict_ ;;
     _ <- validate fields_of validators_of inst ;;
     ret ONone)
    (fun err =>
       match err with
       | DataError messages => ret (OErrors (FieldErrors messages))
       | ValidationError messages => ret (OErrors (Messages messages))
       | _ => raise err
       end).

(** [BaseModel.errors_list].  [cls(dict_).errors] reads the attribute
    [errors] of the new instance, which is the class method itself, bound:
    the method is not called. *)
Definition errors_list (cls : model_class) (list_ : list pyval) : py obj :=
  catch
    (errors <- mapM (fun dict_ =>
                       _ <- new cls dict_ ;;
                       ret (OBoundMethod cls "errors")) list_ ;;
     if existsb obj_truthy errors
     then ret (OList (filter obj_truthy errors))
     else ret ONone)
    (fun err =>
       match err with
       | ConversionError messages => ret (OErrors (Messages messages))
       | DataError messages => ret (OErrors (FieldErrors messages))
       | _ => raise err
       end).

(** [BaseModel.is_valid] *)
Definition is_valid (cls : model_class) (dict_ : pyval) : py bool :=
  e <- errors cls dict_ ;;
  ret (negb (obj_truthy e)).

(** [BaseModel.is_valid_list]; [cls(dict_).is_valid] is again the bound
    method. *)
Definition is_valid_list (cls : model_class) (list_ : list pyval) : py bool :=
  catch
    (flags <- mapM (fun dict_ =>
                      _ <- new cls dict_ ;;
                      ret (OBoundMethod cls "is_valid")) list_ ;;
     ret (forallb obj_truthy flags))
    (fun err =>
       match err with
       | ConversionError _ | DataError _ => ret false
       | _ => raise err
       end).

(* ===================================================================== *)
(** ** models.py: response wrappers *)
(* ===================================================================== *)

(** The wrappers keep the raw mapping and read it on every access.  The
    accessors of [PriceBreak] with a floating point default ([unitprice],
    [totalprice]) are outside the embedded values. *)
Module PriceBreak.
Record t : Type := __init__ { _pricebreak : pyval }.
Definition breakquantity (self : t) : py pyval :=
  get (_pricebreak self) "BreakQuantity" (PInt 0).
End PriceBreak.

Module IdTextPair.
Record t : Type := __init__ { _idtextpair : pyval }.
Definition id (self : t) : py pyval := get (_idtextpair self) "Id" (PStr "").
Definition text (self : t) : py pyval := get (_idtextpair self) "Text" (PStr "").
End IdTextPair.

Module PidVid.
Record t : Type := __init__ { _pidvid : pyval }.
Definition parameter_id (self : t) : py pyval := get (_pidvid self) "ParameterId" (PInt 0).
Definition value_id (self : t) : py pyval := get (_pidvid self) "ValueId" (PInt 0).
Definition parameter (self : t) : py pyval := get (_pidvid self) "Parameter" (PStr "").
Definition value (self : t) : py pyval := get (_pidvid self) "Value" (PStr "").
End PidVid.

Module Family.
Record t : Type := __init__ { _family : pyval }.
Definition id (self : t) : py pyval := get (_family self) "Id" (PStr "").
Definition name (self : t) : py pyval := get (_family self) "Name" (PStr "").
Definition part_count (self : t) : py pyval := get (_family self) "PartCount" (PInt 0).
End Family.

(** Keys of the dict [Part.parameters] builds: any hashable value. *)
Definition hashable (v : pyval) : bool :=
  match v with
  | PList _ | PDict _ => false
  | _ => true
  end.

(** [a == b] on hashable values; a bool equals the int 0 or 1. *)
Definition key_eqb (a b : pyval) : bool :=
  match a, b with
  | PNone, PNone => true
  | PBool x, PBool y => Bool.eqb x y
  | PBool x, PInt z | PInt z, PBool x => Z.eqb z (if x then 1 else 0)
  | PInt x, PInt y => Z.eqb x y
  | PStr x, PStr y => String.eqb x y
  | _, _ => false
  end.

Fixpoint key_set (d : list (pyval * pyval)) (k v : pyval) : list (pyval * pyval) :=
  match d with
  | [] => [(k, v)]
  | (k', v') :: d' => if key_eqb k' k then (k', v) :: d' else (k', v') :: key_set d' k v
  end.

Module Part.
Record t : Type := __init__ { _part : pyval }.

Definition base_url : string := "https://www.digikey.com".

Definition standard_pricing (self : t) : py (list PriceBreak.t) :=
  raw <- get (_part self) "StandardPricing" (PList []) ;;
  parts <- iter raw ;;
  ret (map PriceBreak.__init__ parts).

Definition category (self : t) : py IdTextPair.t :=
  raw <- get (_part self) "Category" (PDict []) ;;
  ret (IdTextPair.__init__ raw).

Definition family (self : t) : py IdTextPair.t :=
  raw <- get (_part self) "Family" (PDict []) ;;
  ret (IdTextPair.__init__ raw).

Definition manufacturer (self : t) : py pyval :=
  raw <- get (_part self) "Manufacturer" (PDict []) ;;
  PidVid.value (PidVid.__init__ raw).

Definition mpn (self : t) : py pyval :=
  get (_part self) "ManufacturerPartNumber" PNone.

Definition part_status (self : t) : py pyval :=
  get (_part self) "PartStatus" PNone.

Definition digikey_pn (self : t) : py pyval :=
  get (_part self) "DigiKeyPartNumber" PNone.

(** ['https://www.digikey.com' + path]: [+] needs a string on the right. *)
Definition digikey_url (self : t) : py pyval :=
  path <- get (_part self) "PartUrl" (PStr "") ;;
  match path with
  | PStr s => ret (PStr (base_url ++ s))
  | _ => raise TypeError
  end.

Definition in_stock (self : t) : py pyval :=
  get (_part self) "QuantityAvailable" PNone.

Definition moq (self : t) : py pyval :=
  get (_part self) "MinimumOrderQuantity" PNone.

Definition parameters (self : t) : py (list (pyval * pyval)) :=
  raw <- get (_part self) "Parameters" (PList []) ;;
  params <- iter raw ;;
  let _params := map PidVid.__init__ params in
  fold_left
    (fun acc p =>
       d <- acc ;;
       k <- PidVid.parameter p ;;
       v <- PidVid.value p ;;
       if hashable k then ret (key_set d k v) else raise TypeError)
    _params (ret []).

Definition description_product (self : t) : py pyval :=
  get (_part self) "ProductDescription" PNone.

Definition description_detailed (self : t) : py pyval :=
  get (_part self) "DetailedDescription" PNone.

Definition datasheet (self : t) : py pyval :=
  get (_part self) "PrimaryDatasheet" PNone.
End Part.

Module KeywordSearchResult.
Record t : Type := {
  _result : pyval;
  limited_taxonomy : native;
  filter_options : list native
}.

(** [KeywordSearchResult.__init__] *)
Definition __init__ (result : pyval) : py t :=
  raw_taxonomy <- getitem result "LimitedTaxonomy" ;;
  limited_taxonomy <- new LimitedTaxonomy (underscore raw_taxonomy) ;;
  raw_options <- getitem result "FilterOptions" ;;
  options <- iter raw_options ;;
  filter_options <- mapM (fun filter_option =>
                            new FilterOption (underscore filter_option)) options ;;
  ret {| _result := result;
         limited_taxonomy := limited_taxonomy;
         filter_options := filter_options |}.

(** The [Part] objects that exist, by address (position in the store). *)
Definition store : Type := list Part.t.

Definition alloc (p : Part.t) (h : store) : nat * store :=
  (length h, (h ++ [p])%list).

(** [[Part(result) for result in items]]: one new object per item. *)
Fixpoint wrap (items : list pyval) (h : store) : list nat * store :=
  match items with
  | [] => ([], h)
  | result :: items' =>
      let (a, h1) := alloc (Part.__init__ result) h in
      let (addrs, h2) := wrap items' h1 in
      (a :: addrs, h2)
  end.

(** [KeywordSearchResult.products]: the property keeps nothing in [self];
    it returns the addresses of the wrappers it has just made. *)
Definition products (self : t) (h : store) : py (list nat * store) :=
  raw <- get (_result self) "Products" (PList []) ;;
  items <- iter raw ;;
  ret (wrap items h).
End KeywordSearchResult.

(* ===================================================================== *)
(** ** Naming conventions of mapping keys *)
(* ===================================================================== *)

Module Convention.
Import Inflection.

Definition is_lowdig (c : ascii) : bool := is_lower c || is_digit c.

Fixpoint all_chars (p : ascii -> bool) (s : string) : bool :=
  match s with
  | EmptyString => true
  | String c s' => p c && all_chars p s'
  end.

(** A word: a lower-case letter followed by at least one lower-case letter
    or digit. *)
Definition is_word (w : string) : bool :=
  match w with
  | String c (String d r) => is_lower c && is_lowdig d && all_chars is_lowdig r
  | _ => false
  end.

(** A capitalised word: an upper-case letter followed by at least one
    lower-case letter or digit. *)
Definition is_capword (w : string) : bool :=
  match w with
  | String c (String d r) => is_upper c && is_lowdig d && all_chars is_lowdig r
  | _ => false
  end.

(** The pieces of a string between its underscores. *)
Fixpoint split_underscore (s : string) : list string :=
  match s with
  | EmptyString => [EmptyString]
  | String c s' =>
      if Ascii.eqb c underscore_char then EmptyString :: split_underscore s'
      else match split_underscore s' with
           | w :: ws => String c w :: ws
           | [] => [String c EmptyString]
           end
  end.

Definition starts_upper (s : string) : bool :=
  match s with
  | String c _ => is_upper c
  | EmptyString => false
  end.

(** The pieces of a string, a new piece starting at every capital. *)
Fixpoint split_capitals (s : string) : list string :=
  match s with
  | EmptyString => []
  | String c s' =>
      match split_capitals s' with
      | w :: ws =>
          if starts_upper w then String c EmptyString :: w :: ws
          else String c w :: ws
      | [] => [String c EmptyString]
      end
  end.

(** Underscore-style key: words joined by single underscores,
    as in [sort_parameter_id]. *)
Definition snake_key (k : string) : bool :=
  forallb is_word (split_underscore k).

(** Camel-case key as [camelize] writes it: capitalised words one after
    the other, as in [SortParameterId]. *)
Definition camel_key (k : string) : bool :=
  negb (String.eqb k "") && forallb is_capword (split_capitals k).
End Convention.
Export Convention.

(* ===================================================================== *)
(** ** Vocabulary of the statements *)
(* ===================================================================== *)

Local Open Scope list_scope.

(** Concatenation of pieces, and pieces joined by underscores. *)
Fixpoint cat (ws : list string) : string :=
  match ws with
  | [] => EmptyString
  | w :: ws' => (w ++ cat ws')%string
  end.

Definition join_underscore (ws : list string) : string :=
  match ws with
  | [] => EmptyString
  | w :: ws' => (w ++ cat (map (String Inflection.underscore_char) ws'))%string
  end.

(** A word with its first letter in upper case, and back. *)
Definition cap (w : string) : string :=
  match w with
  | String c r => String (Inflection.upper c) r
  | EmptyString => EmptyString
  end.

Definition uncap (w : string) : string :=
  match w with
  | String c r => String (Inflection.lower c) r
  | EmptyString => EmptyString
  end.

(** No capital follows a capital. *)
Fixpoint calm (s : string) : bool :=
  match s with
  | EmptyString => true
  | String a s' =>
      match s' with
      | String b _ => negb (Inflection.is_upper a && Inflection.is_upper b) && calm s'
      | EmptyString => true
      end
  end.

(** The last two passes of [underscore] as one map over the characters. *)
Definition fold_char (c : ascii) : ascii :=
  Inflection.lower
    (if Ascii.eqb c Inflection.dash_char then Inflection.underscore_char else c).

(** The common shape of [recursive_camelize] and [recursive_underscore]. *)
Section RekeyDef.
Variable h : string -> string.

Fixpoint rekey (v : pyval) : pyval :=
  match v with
  | PDict items =>
      PDict (Dict.of_items (map (fun kv => (h (fst kv), rekey (snd kv))) items))
  | PList l => PList (map rekey l)
  | _ => v
  end.
End RekeyDef.

(** Underscore-style in the broad sense: non-empty pieces of lower-case
    letters and digits, joined by single underscores. *)
Definition is_piece (w : string) : bool :=
  negb (String.eqb w "") && all_chars is_lowdig w.

(** Keys such as [has_3d_model] and [a_b] are underscore-style in this
    sense without being [snake_key]s. *)
Definition underscore_style (k : string) : bool :=
  forallb is_piece (split_underscore k).

(** Sample values for the two directions of the round trip. *)
Definition snake_sample : pyval :=
  PDict [("limited_taxonomy",
          PDict [("product_count", PInt 3);
                 ("children", PList [PDict [("value_id", PStr "x")]; PNone])]);
         ("sort_parameter_id", PNone)].

Definition camel_sample : pyval :=
  PDict [("LimitedTaxonomy",
          PDict [("ProductCount", PInt 3);
                 ("Children", PList [PDict [("ValueId", PStr "x")]; PNone])]);
         ("SortParameterId", PNone)].

(** The keys of [d] are among [allowed]. *)
Definition only_keys (allowed : list string) (d : list (string * pyval)) : bool :=
  forallb (fun k => Dict.mem k allowed) (Dict.keys d).

(** What a field of class [c] is given by the raw mapping [d]. *)
Definition raw_field (c : model_class) (d : list (string * pyval))
           (name : string) (f : field) : converted :=
  match Dict.get d name with
  | Some v =>
      match Dict.get (fields_of c) name with
      | Some f' =>
          match v with
          | PNone => inr NNone
          | _ => convert fields_of f' v
          end
      | None => inr NNone
      end
  | None =>
      match default (field_options f) with
      | Some n => inr n
      | None => inr NNone
      end
  end.

(** The raw items of [d] converted one by one, as [convert] hands them to
    [import_loop]. *)
Definition raw_entries (c : model_class) (d : list (string * pyval))
  : list (string * option converted) :=
  map (fun kv =>
         (fst kv,
          match Dict.get (fields_of c) (fst kv) with
          | Some f' =>
              Some match snd kv with
                   | PNone => inr NNone
                   | _ => convert fields_of f' (snd kv)
                   end
          | None => None
          end)) d.

(** One step of the loop over the fields. *)
Definition import_step (c : model_class) (d : list (string * pyval))
           (acc : report * list (string * native)) (nf : string * field)
  : report * list (string * native) :=
  match raw_field c d (fst nf) (snd nf) with
  | inr n => (fst acc, Dict.set (snd acc) (fst nf) n)
  | inl e => (Dict.set (fst acc) (fst nf) e, snd acc)
  end.

(** Sort: the field names, the two reports of the rule, two mappings. *)
Definition sort_fields : list string :=
  ["sort_option"; "direction"; "sort_parameter_id"].

Definition missing_parameter : obj :=
  OErrors (FieldErrors
    [("sort_parameter_id",
      Messages [MsgText "If sorting by parameter a sort parameter must be set"])]).

Definition unexpected_parameter : obj :=
  OErrors (FieldErrors
    [("sort_parameter_id",
      Messages [MsgText "If not sorting by parameter no sort parameter id should be provided"])]).

Definition sort_by_parameter_null : list (string * pyval) :=
  [("direction", PStr "Ascending"); ("sort_option", PStr "SortByParameter")].

Definition sort_by_description_seven : list (string * pyval) :=
  [("sort_option", PStr "SortByDescription"); ("sort_parameter_id", PInt 7);
   ("direction", PStr "Descending")].

(** KeywordSearchRequest: mappings with keywords and a record count, the
    report on the count, and the instance such a mapping makes. *)
Definition request_fields : list string := ["keywords"; "record_count"].

Definition record_count_report (m : message) : obj :=
  OErrors (FieldErrors [("record_count", Messages [m])]).

Definition request_instance (kw : string) (n : Z) : native :=
  NModel KeywordSearchRequest
    [("keywords", NStr kw); ("search_options", NNone);
     ("record_count", NInt n); ("record_start_pos", NInt 0);
     ("filters", NNone); ("sort", NNone); ("requested_quantity", NInt 1)].

Definition request_with (n : Z) : list (string * pyval) :=
  [("record_count", PInt n); ("keywords", PStr "capacitor")].

(** ParametricFilters: the field names, the report on [value_id], and
    mappings. *)
Definition filter_fields : list string := ["parameter_id"; "value_id"].

Definition value_id_report (m : message) : obj :=
  OErrors (FieldErrors [("value_id", Messages [m])]).

(** The entry [k] of [d] is absent or None. *)
Definition null (d : list (string * pyval)) (k : string) : Prop :=
  Dict.get d k = None \/ Dict.get d k = Some PNone.

(** The native value of an entry that is an int, a string or null. *)
Definition native_of (d : list (string * pyval)) (k : string) : native :=
  match Dict.get d k with
  | Some (PInt n) => NInt n
  | Some (PStr s) => NStr s
  | _ => NNone
  end.

Definition empty_value_id : list (string * pyval) :=
  [("parameter_id", PInt 1); ("value_id", PStr "")].

Definition good_filter : list (string * pyval) :=
  [("value_id", PStr "12"); ("parameter_id", PInt 1)].

Definition valid_filter : pyval :=
  PDict [("parameter_id", PInt 1); ("value_id", PStr "a")].

Definition invalid_filter : pyval :=
  PDict [("parameter_id", PInt 1); ("value_id", PStr "")].

(** Classes with no [validate_<field>] method, neither their own nor in a
    nested model. *)
Definition plain_class (c : model_class) : bool :=
  match c with
  | Sort | KeywordSearchRequest => false
  | _ => true
  end.

Fixpoint plain_field (f : field) : bool :=
  match f with
  | ListType elem _ => plain_field elem
  | ModelType c _ => plain_class c
  | _ => true
  end.

(** A validation outcome other than an uncaught exception. *)
Definition settled (r : validated) : Prop :=
  match r with
  | Raised _ => False
  | _ => True
  end.

(** Two malformed Sort mappings. *)
Definition unknown_sort_option : pyval :=
  PDict [("sort_option", PStr "Bogus"); ("direction", PStr "Ascending")].

Definition missing_sort_option : pyval :=
  PDict [("direction", PStr "Ascending")].

(** The six scalar values of a taxonomy node. *)
Record taxon_values : Type := {
  tv_product_count : Z;
  tv_new_product_count : Z;
  tv_parameter_id : Z;
  tv_value_id : string;
  tv_parameter : string;
  tv_value : string
}.

(** A raw taxonomy node as the API sends it; [children = None] is a node
    without the key [Children]. *)
Definition raw_taxon (t : taxon_values) (children : option (list pyval)) : pyval :=
  PDict ([("ProductCount", PInt (tv_product_count t));
          ("NewProductCount", PInt (tv_new_product_count t));
          ("ParameterId", PInt (tv_parameter_id t));
          ("ValueId", PStr (tv_value_id t));
          ("Parameter", PStr (tv_parameter t));
          ("Value", PStr (tv_value t))]
         ++ match children with
            | Some l => [("Children", PList l)]
            | None => []
            end).

(** The [LimitedTaxonomy] instance with the same values. *)
Definition taxon (t : taxon_values) (children : native) : native :=
  NModel LimitedTaxonomy
    [("product_count", NInt (tv_product_count t));
     ("new_product_count", NInt (tv_new_product_count t));
     ("parameter_id", NInt (tv_parameter_id t));
     ("value_id", NStr (tv_value_id t));
     ("parameter", NStr (tv_parameter t));
     ("value", NStr (tv_value t));
     ("children", children)].

(** Number of model instances on the longest path down from a value. *)
Fixpoint depth (n : native) : nat :=
  match n with
  | NModel _ data => S (fold_right Nat.max 0 (map (fun kv => depth (snd kv)) data))
  | NList l => fold_right Nat.max 0 (map depth l)
  | _ => 0
  end.

(** A leaf: without the key [Children], or with an empty list. *)
Definition leaf_children (with_key : bool) : option (list pyval) :=
  if with_key then Some [] else None.

Definition leaf_native (with_key : bool) : native :=
  if with_key then NList [] else NNone.

(** A root with two children and one grandchild under each, raw and
    built. *)
Definition raw_tree (root c1 c2 g1 g2 : taxon_values) (k1 k2 : bool) : pyval :=
  raw_taxon root
    (Some [raw_taxon c1 (Some [raw_taxon g1 (leaf_children k1)]);
           raw_taxon c2 (Some [raw_taxon g2 (leaf_children k2)])]).

Definition tree (root c1 c2 g1 g2 : taxon_values) (k1 k2 : bool) : native :=
  taxon root
    (NList [taxon c1 (NList [taxon g1 (leaf_native k1)]);
            taxon c2 (NList [taxon g2 (leaf_native k2)])]).

(** [acc] reads nothing of the raw mapping but the entry [key], and yields
    [default] when the mapping has no such entry. *)
Definition reads_only {A : Type} (acc : Part.t -> py A) (key : string)
           (default : py A) : Prop :=
  (forall d, Dict.get d key = None -> acc (Part.__init__ (PDict d)) = default)
  /\ (forall d d', Dict.get d key = Dict.get d' key ->
                   acc (Part.__init__ (PDict d)) = acc (Part.__init__ (PDict d'))).

(** Sample raw mappings of a part and of search responses. *)
Definition sample_part : list (string * pyval) :=
  [("PartUrl", PStr "/product-detail/en/x/1"); ("MinimumOrderQuantity", PInt 5)].

Definition sample_products : list pyval :=
  [PDict [("ManufacturerPartNumber", PStr "A1")];
   PDict [("MinimumOrderQuantity", PInt 5)]].

Definition sample_result : KeywordSearchResult.t :=
  {| KeywordSearchResult._result := PDict [("Products", PList sample_products)];
     KeywordSearchResult.limited_taxonomy := NModel LimitedTaxonomy [];
     KeywordSearchResult.filter_options := [] |}.

Definition response_without_products : list (string * pyval) :=
  [("ProductsCount", PInt 0);
   ("LimitedTaxonomy", PDict [("ProductCount", PInt 0); ("Value", PStr "All")]);
   ("FilterOptions",
    PList [PDict [("ParameterId", PInt 7); ("Parameter", PStr "Packaging");
                  ("Values", PList [PDict [("ValueId", PStr "1"); ("Value", PStr "Tape")]])]])].

Definition built_without_products : KeywordSearchResult.t :=
  {| KeywordSearchResult._result := PDict response_without_products;
     KeywordSearchResult.limited_taxonomy :=
       NModel LimitedTaxonomy
         [("product_count", NInt 0); ("new_product_count", NNone);
          ("parameter_id", NNone); ("value_id", NNone); ("parameter", NNone);
          ("value", NStr "All"); ("children", NNone)];
     KeywordSearchResult.filter_options :=
       [NModel FilterOption
          [("values", NList [NModel Value [("value_id", NStr "1"); ("value", NStr "Tape")]]);
           ("parameter_id", NInt 7); ("parameter", NStr "Packaging")]] |}.

Definition sample_values (n : Z) (name : string) : taxon_values :=
  {| tv_product_count := n; tv_new_product_count := 0; tv_parameter_id := -8;
     tv_value_id := str_of_int n; tv_parameter := "Categories";
     tv_value := name |}.

Definition sample_response : list (string * pyval) :=
  [("ProductsCount", PInt 12);
   ("FilterOptions", PList []);
   ("LimitedTaxonomy",
    raw_tree (sample_values 12 "All") (sample_values 7 "Capacitors")
             (sample_values 5 "Resistors") (sample_values 7 "Ceramic")
             (sample_values 5 "Chip") true false)].

(** [cls(dict_)] returns an instance. *)
Definition constructs (cls : model_class) (dict_ : pyval) : Prop :=
  exists inst, new cls dict_ = inr inst.

(** A raw filter that constructs but does not validate, and one that cannot
    be constructed. *)
Definition unreadable_filter : pyval :=
  PDict [("parameter_id", PStr "z"); ("value_id", PStr "a")].

(** [d.get(k)] on the dict [Part.parameters] builds. *)
Fixpoint key_get (d : list (pyval * pyval)) (k : pyval) : option pyval :=
  match d with
  | [] => None
  | (k', v) :: d' => if key_eqb k' k then Some v else key_get d' k
  end.

(** The name and value [PidVid] reads from each raw parameter, when every
    raw parameter is a mapping whose Parameter entry is absent or a text. *)
Fixpoint named_values (params : list pyval) : option (list (string * pyval)) :=
  match params with
  | [] => Some []
  | PDict m :: params' =>
      match Dict.get_default m "Parameter" (PStr "") with
      | PStr name =>
          option_map (cons (name, Dict.get_default m "Value" (PStr "")))
                     (named_values params')
      | _ => None
      end
  | _ :: _ => None
  end.

(** The value of the last pair with the given name. *)
Definition last_value (pairs : list (string * pyval)) (name : string) : option pyval :=
  Dict.get (rev pairs) name.

(** Values that [for] cannot iterate. *)
Definition not_iterable (v : pyval) : Prop :=
  match v with
  | PNone | PBool _ | PInt _ => True
  | _ => False
  end.

Definition is_text (v : pyval) : Prop :=
  match v with
  | PStr _ => True
  | _ => False
  end.

Definition is_mapping (v : pyval) : Prop :=
  match v with
  | PDict _ => True
  | _ => False
  end.

Definition sample_parameters : list pyval :=
  [PDict [("Parameter", PStr "Package"); ("Value", PStr "0603")];
   PDict [("Parameter", PStr "Tolerance"); ("Value", PStr "1%")];
   PDict [("Value", PStr "anonymous")];
   PDict [("Parameter", PStr "Package"); ("Value", PStr "0805")]].

(** A key as [underscore] leaves it: no capital letter and no dash. *)
Definition lowered_char (c : ascii) : bool :=
  negb (Inflection.is_upper c) && negb (Ascii.eqb c Inflection.dash_char).

Definition lowered (k : string) : bool := all_chars lowered_char k.

(** Exceptions that are no schematics error: [BaseModel.errors] does not
    catch them. *)
Definition escapes (e : exn) : Prop :=
  match e with
  | DataError _ | ValidationError _ | ConversionError _ => False
  | _ => True
  end.

(** A validation outcome whose exception, if any, satisfies [P]. *)
Definition raises_only (P : exn -> Prop) (r : validated) : Prop :=
  match r with
  | Raised e => P e
  | _ => True
  end.

Definition raises_only_entry (P : exn -> Prop) (e : string * option validated) : Prop :=
  match snd e with
  | Some r => raises_only P r
  | None => True
  end.

(** PartDetailPostRequest and ProductDetailGetRequest: field names, the
    report on [part], and what a flag entry may be. *)
Definition post_fields : list string :=
  ["part"; "include_all_associated_products"; "include_all_for_use_with_products"].

Definition get_fields : list string := ["part"; "includes"].

Definition part_report (m : message) : obj :=
  OErrors (FieldErrors [("part", Messages [m])]).

Definition null_or_bool (d : list (string * pyval)) (k : string) : Prop :=
  null d k \/ exists b, Dict.get d k = Some (PBool b).

Definition null_or_text (d : list (string * pyval)) (k : string) : Prop :=
  null d k \/ exists s, Dict.get d k = Some (PStr s).

(** The report of a request without keywords whose record count is [n]. *)
Definition keywords_report (n : Z) : obj :=
  OErrors (FieldErrors
    (("keywords", Messages [MsgRequired])
     :: (if (n <? 1)%Z then [("record_count", Messages [MsgMinValue 1])]
         else if (50 <? n)%Z then [("record_count", Messages [MsgMaxValue 50])]
         else []))).

(** KeywordSearchRequest: search options. *)
Definition options_fields : list string := ["keywords"; "search_options"].

Definition search_option_values : list string :=
  map SearchOptions_value SearchOptions_members.

(** The positions of the options that are no SearchOptions value, each with
    its message. *)
Fixpoint bad_options (i : nat) (opts : list string) : list (nat * error_tree) :=
  match opts with
  | [] => []
  | o :: opts' =>
      if Dict.mem o search_option_values then bad_options (S i) opts'
      else (i, Messages [MsgChoices search_option_values]) :: bad_options (S i) opts'
  end.

(** KeywordSearchRequest: a nested sort. *)
Definition nested_sort_fields : list string := ["keywords"; "sort"].

Definition under_sort (o : obj) : obj :=
  match o with
  | OErrors e => OErrors (FieldErrors [("sort", e)])
  | _ => o
  end.



(** A taxonomy of any shape: every taxon has its six values and, when the
    raw node has the key [Children], its child taxa. *)
Inductive taxon_tree : Type :=
| Taxon (values : taxon_values) (children : option (list taxon_tree)).

Fixpoint raw_of (t : taxon_tree) : pyval :=
  match t with
  | Taxon v ch =>
      raw_taxon v match ch with
                  | Some l => Some (map raw_of l)
                  | None => None
                  end
  end.

Fixpoint built_of (t : taxon_tree) : native :=
  match t with
  | Taxon v ch =>
      taxon v match ch with
              | Some l => NList (map built_of l)
              | None => NNone
              end
  end.

Fixpoint height (t : taxon_tree) : nat :=
  match t with
  | Taxon _ ch =>
      S match ch with
        | Some l => fold_right Nat.max 0 (map height l)
        | None => 0
        end
  end.

Definition taxonomy_field : field :=
  ListType (ModelType LimitedTaxonomy no_options) no_options.

(** ParametricFilters: how a raw entry is taken by its field (nothing when
    it is absent or None, a value, or refused with the conversion error),
    and the report to expect. *)
Inductive taken (A : Type) : Type :=
| Missing
| Taken (a : A)
| Refused (e : error_tree).
Arguments Missing {A}.
Arguments Taken {A} a.
Arguments Refused {A} e.

Definition taken_int (d : list (string * pyval)) (k : string) : taken Z :=
  match Dict.get d k with
  | None | Some PNone => Missing
  | Some v =>
      match to_native_int v with
      | inr (NInt n) => Taken n
      | inr _ => Refused (Messages [MsgIntCoerce])
      | inl e => Refused e
      end
  end.

Definition taken_str (d : list (string * pyval)) (k : string) : taken string :=
  match Dict.get d k with
  | None | Some PNone => Missing
  | Some v =>
      match to_native_str v with
      | inr (NStr s) => Taken s
      | inr _ => Refused (Messages [MsgStrConvert])
      | inl e => Refused e
      end
  end.

Definition length_report (s : string) : list message :=
  if Nat.ltb 100 (String.length s) then [MsgMaxLength]
  else if Nat.ltb (String.length s) 1 then [MsgMinLength]
  else [].

(** Entries that cannot be converted are reported alone; otherwise the
    null entries and the length of [value_id] are. *)
Definition filter_report (d : list (string * pyval)) : report :=
  match taken_int d "parameter_id", taken_str d "value_id" with
  | Refused e, Refused e' => [("parameter_id", e); ("value_id", e')]
  | Refused e, _ => [("parameter_id", e)]
  | _, Refused e' => [("value_id", e')]
  | p, v =>
      match p with
      | Missing => [("parameter_id", Messages [MsgRequired])]
      | _ => []
      end
      ++ match v with
         | Taken s =>
             match length_report s with
             | [] => []
             | m => [("value_id", Messages m)]
             end
         | _ => [("value_id", Messages [MsgRequired])]
         end
  end.

Definition filter_verdict (d : list (string * pyval)) : obj :=
  match filter_report d with
  | [] => ONone
  | r => OErrors (FieldErrors r)
  end.

Definition is_integer (v : pyval) : Prop :=
  match v with
  | PInt _ => True
  | _ => False
  end.

(** A filter whose [parameter_id] is a text and whose [value_id] is an
    integer. *)
Definition cast_filter : list (string * pyval) :=
  [("parameter_id", PStr "7"); ("value_id", PInt 5)].

(** The taxonomy: a field holds the raw value itself. *)
Definition same_value (raw : pyval) (n : native) : bool :=
  match raw, n with
  | PNone, NNone => true
  | PBool a, NBool b => Bool.eqb a b
  | PInt a, NInt b => Z.eqb a b
  | PStr a, NStr b => String.eqb a b
  | _, _ => false
  end.

(** A response of the same shape whose root sends ValueId as an integer
    and ProductCount as a text. *)
Definition cast_taxonomy : pyval :=
  PDict [("ProductCount", PStr "12"); ("ValueId", PInt 12); ("Value", PStr "All");
         ("Children",
          PList [PDict [("Value", PStr "Capacitors");
                        ("Children", PList [PDict [("Value", PStr "Ceramic")]])];
                 PDict [("Value", PStr "Resistors");
                        ("Children", PList [PDict [("Value", PStr "Chip")]])]])].

Definition cast_response : list (string * pyval) :=
  [("LimitedTaxonomy", cast_taxonomy); ("FilterOptions", PList [])].

Definition named_taxon (product_count value_id : native) (name : string)
           (children : native) : native :=
  NModel LimitedTaxonomy
    [("product_count", product_count); ("new_product_count", NNone);
     ("parameter_id", NNone); ("value_id", value_id); ("parameter", NNone);
     ("value", NStr name); ("children", children)].

Definition cast_tree : native :=
  named_taxon (NInt 12) (NStr "12") "All"
    (NList [named_taxon NNone NNone "Capacitors"
              (NList [named_taxon NNone NNone "Ceramic" NNone]);
            named_taxon NNone NNone "Resistors"
              (NList [named_taxon NNone NNone "Chip" NNone])]).

(** Part: [acc] returns the raw entry [key] as it is when the mapping has
    one, and [default] otherwise. *)
Definition returns_entry (acc : Part.t -> py pyval) (key : string)
           (default : pyval) : Prop :=
  forall d, acc (Part.__init__ (PDict d))
            = inr match Dict.get d key with
                  | Some v => v
                  | None => default
                  end.

(** Every key replaced by its image and nothing else touched: the entries
    stay, one by one and in order. *)
Section RenameDef.
Variable h : string -> string.

Fixpoint rename (v : pyval) : pyval :=
  match v with
  | PDict items => PDict (map (fun kv => (h (fst kv), rename (snd kv))) items)
  | PList l => PList (map rename l)
  | _ => v
  end.
End RenameDef.

(* ===================================================================== *)
(** * Properties *)
(* ===================================================================== *)

(** ** Characters *)

Ltac ascii_cases c :=
  destruct c as [[] [] [] [] [] [] [] []]; vm_compute; intros;
  try discriminate; repeat split; try reflexivity; try discriminate.

Lemma lower_char c :
  Inflection.is_lower c = true ->
  Inflection.is_upper (Inflection.upper c) = true
  /\ Inflection.lower (Inflection.upper c) = c
  /\ Ascii.eqb c Inflection.newline = false
  /\ Ascii.eqb (Inflection.upper c) Inflection.dash_char = false
  /\ is_lowdig (Inflection.upper c) = false.
Proof. ascii_cases c. Qed.

Lemma lowdig_char c :
  is_lowdig c = true ->
  Inflection.is_upper c = false
  /\ Inflection.lower c = c
  /\ Ascii.eqb c Inflection.underscore_char = false
  /\ Ascii.eqb c Inflection.dash_char = false.
Proof. ascii_cases c. Qed.

Lemma upper_char c :
  Inflection.is_upper c = true ->
  Inflection.is_lower (Inflection.lower c) = true
  /\ Inflection.upper (Inflection.lower c) = c.
Proof. ascii_cases c. Qed.

(** ** Strings *)

Lemma sapp_assoc (a b c : string) : ((a ++ b) ++ c = a ++ (b ++ c))%string.
Proof. induction a as [|x a IH]; simpl; [reflexivity | now rewrite IH]. Qed.

Lemma sapp_nil (a : string) : (a ++ "" = a)%string.
Proof. induction a as [|x a IH]; simpl; [reflexivity | now rewrite IH]. Qed.

Lemma split_underscore_cons s : exists w ws, split_underscore s = w :: ws.
Proof.
  destruct s as [|c s]; simpl; [now eauto|].
  destruct (Ascii.eqb c Inflection.underscore_char); [now eauto|].
  destruct (split_underscore s); eauto.
Qed.

Lemma join_split_underscore s : join_underscore (split_underscore s) = s.
Proof.
  induction s as [|c s IH]; [reflexivity|].
  cbn [split_underscore].
  destruct (split_underscore_cons s) as (w & ws & E).
  destruct (Ascii.eqb_spec c Inflection.underscore_char) as [->|_];
    rewrite E in *; cbn [join_underscore map cat append] in *; now rewrite IH.
Qed.

Lemma cat_split_capitals s : cat (split_capitals s) = s.
Proof.
  induction s as [|c s IH]; [reflexivity|].
  simpl. destruct (split_capitals s) as [|w ws].
  - simpl in *. now rewrite <- IH.
  - destruct (starts_upper w); simpl in *; now rewrite IH.
Qed.

(** ** [camelize] on underscore-style keys *)

Lemma is_word_inv w :
  is_word w = true ->
  exists c d r, w = String c (String d r)
    /\ Inflection.is_lower c = true
    /\ all_chars is_lowdig (String d r) = true.
Proof.
  destruct w as [|c [|d r]]; simpl; try discriminate.
  intros H. apply andb_prop in H as [H Hr]. apply andb_prop in H as [Hc Hd].
  exists c, d, r. now rewrite Hd, Hr.
Qed.

Lemma camelize_from_lowdig r s :
  all_chars is_lowdig r = true ->
  Inflection.camelize_from (r ++ s) = (r ++ Inflection.camelize_from s)%string.
Proof.
  induction r as [|d r IH]; [reflexivity|].
  cbn [all_chars append Inflection.camelize_from].
  intros H. apply andb_prop in H as [Hd Hr].
  destruct (lowdig_char d Hd) as (_ & _ & -> & _).
  now rewrite IH.
Qed.

Lemma camelize_from_words ws :
  forallb is_word ws = true ->
  Inflection.camelize_from (cat (map (String Inflection.underscore_char) ws))
  = cat (map cap ws).
Proof.
  induction ws as [|w ws IH]; [reflexivity|].
  cbn [forallb]. intros H. apply andb_prop in H as [Hw Hws].
  destruct (is_word_inv w Hw) as (c & d & r & -> & Hc & Hr).
  cbn [map cat cap append].
  change (Inflection.camelize_from
            (String Inflection.underscore_char (String c (String d r ++ cat (map (String Inflection.underscore_char) ws))))
          = String (Inflection.upper c) (String d r ++ cat (map cap ws)))%string.
  cbn [Inflection.camelize_from].
  change (Ascii.eqb Inflection.underscore_char Inflection.underscore_char) with true.
  cbv iota.
  destruct (lower_char c Hc) as (_ & _ & -> & _).
  now rewrite camelize_from_lowdig, IH.
Qed.

Lemma camelize_join ws :
  ws <> [] -> forallb is_word ws = true ->
  Inflection.camelize (join_underscore ws) = cat (map cap ws).
Proof.
  destruct ws as [|w ws]; [congruence|]. intros _.
  cbn [forallb]. intros H. apply andb_prop in H as [Hw Hws].
  destruct (is_word_inv w Hw) as (c & d & r & -> & Hc & Hr).
  cbn [join_underscore map cat cap append Inflection.camelize].
  destruct (lower_char c Hc) as (_ & _ & -> & _).
  change (String d (r ++ ?x))%string with (String d r ++ x)%string.
  now rewrite camelize_from_lowdig, camelize_from_words.
Qed.

(** ** [underscore] on camel-case keys *)

Lemma calm_cons a s :
  Inflection.is_upper a = false -> calm (String a s) = calm s.
Proof. intros H. cbn [calm]. rewrite H. now destruct s. Qed.

Lemma calm_inv a s : calm (String a s) = true -> calm s = true.
Proof.
  cbn [calm]. destruct s as [|b s]; [reflexivity|].
  intros H. now apply andb_prop in H as [_ H].
Qed.

Lemma match_acronym_calm s : calm s = true -> Inflection.match_acronym s = None.
Proof.
  induction s as [|c s IH]; [reflexivity|].
  intros H. cbn [Inflection.match_acronym].
  destruct (Inflection.is_upper c) eqn:Hc; [|reflexivity].
  rewrite (IH (calm_inv _ _ H)).
  destruct s as [|u [|l rest]]; try reflexivity.
  cbn [calm] in H. rewrite Hc in H.
  apply andb_prop in H as [H _].
  destruct (Inflection.is_upper u); [discriminate | reflexivity].
Qed.

Lemma sub_acronym_calm fuel : forall s,
  calm s = true -> Inflection.sub_acronym fuel s = s.
Proof.
  induction fuel as [|fuel IH]; [reflexivity|].
  intros s H. cbn [Inflection.sub_acronym].
  rewrite (match_acronym_calm s H).
  destruct s as [|c s]; [reflexivity|].
  now rewrite (IH s (calm_inv _ _ H)).
Qed.

Lemma calm_words ws :
  forallb is_word ws = true ->
  forall r, all_chars is_lowdig r = true -> calm (r ++ cat (map cap ws)) = true.
Proof.
  induction ws as [|w ws IH]; intros Hws r Hr.
  - induction r as [|a r IHr]; [reflexivity|].
    cbn [all_chars] in Hr. apply andb_prop in Hr as [Ha Hr].
    cbn [append]. rewrite calm_cons; [now apply IHr|].
    now destruct (lowdig_char a Ha) as (-> & _).
  - cbn [forallb] in Hws. apply andb_prop in Hws as [Hw Hws].
    destruct (is_word_inv w Hw) as (c & d & r' & -> & Hc & Hr').
    induction r as [|a r IHr].
    + cbn [map cat cap append].
      change (String d (r' ++ ?x))%string with (String d r' ++ x)%string.
      specialize (IH Hws (String d r') Hr').
      cbn [calm]. cbn [append] in IH |- *. rewrite IH.
      cbn [all_chars] in Hr'. apply andb_prop in Hr' as [Hd _].
      destruct (lowdig_char d Hd) as (-> & _).
      now rewrite andb_false_r.
    + cbn [all_chars] in Hr. apply andb_prop in Hr as [Ha Hr].
      cbn [append]. rewrite calm_cons; [now apply IHr|].
      now destruct (lowdig_char a Ha) as (-> & _).
Qed.

Lemma sub_boundary_lowdig r :
  all_chars is_lowdig r = true -> Inflection.sub_boundary r = r.
Proof.
  induction r as [|a r IH]; [reflexivity|].
  cbn [all_chars]. intros H. apply andb_prop in H as [Ha Hr].
  cbn [Inflection.sub_boundary]. destruct r as [|b r]; [reflexivity|].
  pose proof Hr as Hr'. cbn [all_chars] in Hr'. apply andb_prop in Hr' as [Hb _].
  destruct (lowdig_char b Hb) as (-> & _).
  rewrite andb_false_r. now rewrite (IH Hr).
Qed.

Lemma sub_boundary_words ws :
  forallb is_word ws = true ->
  forall a r, all_chars is_lowdig (String a r) = true ->
  Inflection.sub_boundary (String a r ++ cat (map cap ws))
  = (String a r ++ cat (map (String Inflection.underscore_char) (map cap ws)))%string.
Proof.
  induction ws as [|w ws IH]; intros Hws a r Hr.
  - cbn [map cat]. rewrite !sapp_nil. now apply sub_boundary_lowdig.
  - cbn [forallb] in Hws. apply andb_prop in Hws as [Hw Hws].
    destruct (is_word_inv w Hw) as (c & d & r' & -> & Hc & Hr').
    revert a Hr. induction r as [|b r IHr]; intros a Hr.
    + cbn [map cat cap append Inflection.sub_boundary].
      cbn [all_chars] in Hr. apply andb_prop in Hr as [Ha _].
      unfold is_lowdig in Ha. rewrite Ha.
      destruct (lower_char c Hc) as (-> & _).
      cbn [andb]. do 3 f_equal.
      exact (IH Hws d r' Hr').
    + cbn [all_chars] in Hr. apply andb_prop in Hr as [Ha Hr].
      specialize (IHr b Hr).
      cbn [append Inflection.sub_boundary] in IHr |- *.
      pose proof Hr as Hr2. cbn [all_chars] in Hr2. apply andb_prop in Hr2 as [Hb _].
      destruct (lowdig_char b Hb) as (-> & _).
      rewrite andb_false_r. f_equal. exact IHr.
Qed.

Lemma map_string_compose f g s :
  Inflection.map_string f (Inflection.map_string g s)
  = Inflection.map_string (fun c => f (g c)) s.
Proof. induction s as [|c s IH]; simpl; [reflexivity | now rewrite IH]. Qed.

Lemma map_string_app f a b :
  Inflection.map_string f (a ++ b)
  = (Inflection.map_string f a ++ Inflection.map_string f b)%string.
Proof. induction a as [|c a IH]; simpl; [reflexivity | now rewrite IH]. Qed.

Lemma fold_lowdig r :
  all_chars is_lowdig r = true -> Inflection.map_string fold_char r = r.
Proof.
  induction r as [|d r IH]; [reflexivity|].
  cbn [all_chars Inflection.map_string]. intros H.
  apply andb_prop in H as [Hd Hr]. rewrite (IH Hr). f_equal.
  unfold fold_char. destruct (lowdig_char d Hd) as (_ & Hl & _ & Hdash).
  now rewrite Hdash, Hl.
Qed.

Lemma fold_cap w :
  is_word w = true -> Inflection.map_string fold_char (cap w) = w.
Proof.
  intros Hw. destruct (is_word_inv w Hw) as (c & d & r & -> & Hc & Hr).
  cbn [cap Inflection.map_string].
  change (String (fold_char d) (Inflection.map_string fold_char r))
    with (Inflection.map_string fold_char (String d r)).
  rewrite (fold_lowdig _ Hr). f_equal.
  unfold fold_char. destruct (lower_char c Hc) as (_ & Hl & _ & Hdash & _).
  now rewrite Hdash, Hl.
Qed.

Lemma fold_words ws :
  forallb is_word ws = true ->
  Inflection.map_string fold_char
    (cat (map (String Inflection.underscore_char) (map cap ws)))
  = cat (map (String Inflection.underscore_char) ws).
Proof.
  induction ws as [|w ws IH]; [reflexivity|].
  cbn [forallb]. intros H. apply andb_prop in H as [Hw Hws].
  cbn [map cat append Inflection.map_string].
  rewrite map_string_app, (fold_cap w Hw), (IH Hws). reflexivity.
Qed.

Lemma sub_boundary_skip a s :
  is_lowdig a = false ->
  Inflection.sub_boundary (String a s) = String a (Inflection.sub_boundary s).
Proof.
  unfold is_lowdig. intros H. cbn [Inflection.sub_boundary].
  destruct s; [reflexivity|]. now rewrite H.
Qed.

Lemma underscore_cat ws :
  ws <> [] -> forallb is_word ws = true ->
  Inflection.underscore (cat (map cap ws)) = join_underscore ws.
Proof.
  intros Hne Hws. unfold Inflection.underscore, Inflection.replace_dash.
  rewrite sub_acronym_calm by exact (calm_words ws Hws EmptyString eq_refl).
  rewrite map_string_compose.
  change (fun c => Inflection.lower _) with fold_char.
  destruct ws as [|w ws]; [congruence|].
  cbn [forallb] in Hws. apply andb_prop in Hws as [Hw Hws].
  pose proof (fold_cap w Hw) as Hcap.
  destruct (is_word_inv w Hw) as (c & d & r & -> & Hc & Hr).
  cbn [map cat cap append] in *.
  destruct (lower_char c Hc) as (_ & _ & _ & _ & Hup).
  rewrite (sub_boundary_skip _ _ Hup).
  pose proof (sub_boundary_words ws Hws d r Hr) as Hsb.
  cbn [append] in Hsb. rewrite Hsb.
  cbn [join_underscore Inflection.map_string append] in *.
  injection Hcap as Hc1 Hd1 Hr1.
  rewrite Hc1. f_equal.
  change (String (fold_char d) (Inflection.map_string fold_char (r ++ ?x)))
    with (Inflection.map_string fold_char (String d r ++ x)).
  rewrite map_string_app, (fold_lowdig _ Hr), (fold_words ws Hws). reflexivity.
Qed.

(** ** Round trips on one key *)

Lemma snake_key_roundtrip k :
  snake_key k = true ->
  Inflection.underscore (Inflection.camelize k) = k.
Proof.
  unfold snake_key. intros H.
  destruct (split_underscore_cons k) as (w & ws & E).
  pose proof (join_split_underscore k) as Hj.
  rewrite E in H, Hj. rewrite <- Hj.
  rewrite camelize_join, underscore_cat; congruence.
Qed.

Lemma capword_uncap p :
  is_capword p = true -> is_word (uncap p) = true /\ cap (uncap p) = p.
Proof.
  destruct p as [|c [|d r]]; simpl; try discriminate.
  intros H. apply andb_prop in H as [H Hr]. apply andb_prop in H as [Hc Hd].
  destruct (upper_char c Hc) as (-> & ->). now rewrite Hd, Hr.
Qed.

Lemma capwords_uncap ps :
  forallb is_capword ps = true ->
  forallb is_word (map uncap ps) = true /\ map cap (map uncap ps) = ps.
Proof.
  induction ps as [|p ps IH]; [now split|].
  cbn [forallb map]. intros H. apply andb_prop in H as [Hp Hps].
  destruct (capword_uncap p Hp) as (-> & ->).
  destruct (IH Hps) as (-> & ->). now split.
Qed.

Lemma camel_key_roundtrip k :
  camel_key k = true ->
  Inflection.camelize (Inflection.underscore k) = k.
Proof.
  unfold camel_key. intros H. apply andb_prop in H as [Hne Hps].
  destruct (capwords_uncap _ Hps) as (Hws & Hcap).
  assert (Hnil : map uncap (split_capitals k) <> []).
  { intros E. rewrite E in Hcap. simpl in Hcap.
    pose proof (cat_split_capitals k) as Hk. rewrite <- Hcap in Hk.
    simpl in Hk. subst k. discriminate. }
  pose proof (cat_split_capitals k) as Hk.
  rewrite <- Hcap in Hk. rewrite <- Hk.
  now rewrite underscore_cat, camelize_join.
Qed.

(** ** Dicts *)

Local Open Scope list_scope.

Lemma mem_app k ks1 ks2 :
  Dict.mem k (ks1 ++ ks2) = Dict.mem k ks1 || Dict.mem k ks2.
Proof. unfold Dict.mem. apply existsb_app. Qed.

Lemma mem_In k ks : Dict.mem k ks = true <-> In k ks.
Proof.
  unfold Dict.mem. rewrite existsb_exists. split.
  - intros (x & Hx & E). apply String.eqb_eq in E. now subst.
  - intros H. exists k. split; [assumption | apply String.eqb_refl].
Qed.

Lemma set_fresh {V} (d : list (string * V)) k v :
  Dict.mem k (Dict.keys d) = false -> Dict.set d k v = d ++ [(k, v)].
Proof.
  induction d as [|[k' v'] d IH]; [reflexivity|].
  unfold Dict.keys, Dict.mem in *. cbn [map fst existsb Dict.set app].
  intros H. apply orb_false_elim in H as [Hk Hd].
  rewrite String.eqb_sym, Hk. now rewrite IH.
Qed.

Lemma mem_cons k x ks : Dict.mem k (x :: ks) = String.eqb k x || Dict.mem k ks.
Proof. reflexivity. Qed.

Lemma nodup_keys_app ks1 ks2 k :
  Dict.nodup_keys (ks1 ++ k :: ks2) = true -> Dict.mem k ks1 = false.
Proof.
  induction ks1 as [|x ks1 IH]; cbn [app Dict.nodup_keys]; [reflexivity|].
  intros H. apply andb_prop in H as [Hx H].
  rewrite negb_true_iff, mem_app, mem_cons in Hx.
  apply orb_false_elim in Hx as [_ Hx].
  apply orb_false_elim in Hx as [Hxk _].
  now rewrite mem_cons, String.eqb_sym, Hxk, (IH H).
Qed.

Lemma fold_set_nodup {V} (items acc : list (string * V)) :
  Dict.nodup_keys (Dict.keys acc ++ Dict.keys items) = true ->
  fold_left (fun a kv => Dict.set a (fst kv) (snd kv)) items acc = acc ++ items.
Proof.
  revert acc. induction items as [|[k v] items IH]; intros acc H.
  - now rewrite app_nil_r.
  - cbn [fold_left fst snd]. unfold Dict.keys in H. cbn [map fst] in H.
    rewrite (set_fresh acc k v (nodup_keys_app _ _ _ H)).
    rewrite IH; [now rewrite <- app_assoc|].
    unfold Dict.keys. now rewrite map_app, <- app_assoc.
Qed.

(** A list of items with distinct keys is the dict it builds. *)
Lemma of_items_nodup {V} (items : list (string * V)) :
  Dict.nodup_keys (Dict.keys items) = true -> Dict.of_items items = items.
Proof. intros H. unfold Dict.of_items. now rewrite fold_set_nodup. Qed.

Lemma nodup_keys_map (f g : string -> string) ks :
  (forall k, In k ks -> g (f k) = k) ->
  Dict.nodup_keys ks = true -> Dict.nodup_keys (map f ks) = true.
Proof.
  induction ks as [|k ks IH]; [reflexivity|].
  intros Hk. cbn [map Dict.nodup_keys]. intros H.
  apply andb_prop in H as [Hm Hn].
  rewrite IH; [|intros; apply Hk; now right|assumption].
  rewrite andb_true_r, negb_true_iff in *.
  destruct (Dict.mem (f k) (map f ks)) eqn:E; [|reflexivity].
  apply mem_In, in_map_iff in E as (k' & E & Hin).
  assert (k' = k) as ->.
  { rewrite <- (Hk k') by now right. rewrite E. apply Hk. now left. }
  apply mem_In in Hin. congruence.
Qed.

(** ** Induction on values *)

Section PyvalInd.
Variable P : pyval -> Prop.
Hypothesis HNone : P PNone.
Hypothesis HBool : forall b, P (PBool b).
Hypothesis HInt : forall z, P (PInt z).
Hypothesis HStr : forall s, P (PStr s).
Hypothesis HList : forall l, Forall P l -> P (PList l).
Hypothesis HDict : forall d, Forall (fun kv => P (snd kv)) d -> P (PDict d).

Fixpoint pyval_nested_ind (v : pyval) : P v :=
  match v with
  | PNone => HNone
  | PBool b => HBool b
  | PInt z => HInt z
  | PStr s => HStr s
  | PList l =>
      HList l ((fix go (l : list pyval) : Forall P l :=
                  match l with
                  | [] => Forall_nil _
                  | x :: l' => Forall_cons x (pyval_nested_ind x) (go l')
                  end) l)
  | PDict d =>
      HDict d ((fix go (d : list (string * pyval))
                  : Forall (fun kv => P (snd kv)) d :=
                  match d with
                  | [] => Forall_nil _
                  | kv :: d' =>
                      Forall_cons kv (pyval_nested_ind (snd kv)) (go d')
                  end) d)
  end.
End PyvalInd.

(** ** Round trip on nested values *)

Section Rekey.
Variables f g : string -> string.
Variable p : string -> bool.
Hypothesis g_f : forall k, p k = true -> g (f k) = k.

Lemma rekey_roundtrip v :
  dict_wf v = true -> all_keys p v = true -> rekey g (rekey f v) = v.
Proof.
  induction v as [| | | |l IH|d IH] using pyval_nested_ind;
    try reflexivity; cbn [dict_wf all_keys rekey]; intros Hwf Hk.
  - f_equal. rewrite map_map.
    rewrite forallb_forall in Hwf, Hk. rewrite Forall_forall in IH.
    rewrite <- (map_id l) at 2. apply map_ext_in.
    intros x Hx. now apply IH; [|apply Hwf|apply Hk].
  - apply andb_prop in Hwf as [Hnd Hwf].
    rewrite forallb_forall in Hwf, Hk. rewrite Forall_forall in IH.
    assert (Hkeys : forall k, In k (Dict.keys d) -> g (f k) = k).
    { intros k Hin. apply in_map_iff in Hin as (kv & <- & Hin).
      apply g_f. specialize (Hk kv Hin). now apply andb_prop in Hk as [Hk _]. }
    f_equal.
    rewrite (of_items_nodup (map _ d)).
    2:{ unfold Dict.keys. rewrite map_map. cbn [fst].
        rewrite <- (map_map fst f). now apply (nodup_keys_map f g). }
    rewrite map_map. cbn [fst snd].
    assert (E : map (fun x => (g (f (fst x)), rekey g (rekey f (snd x)))) d = d).
    { rewrite <- (map_id d) at 2. apply map_ext_in.
      intros [k v] Hin. cbn [fst snd]. f_equal.
      - apply Hkeys. apply in_map_iff. now exists (k, v).
      - specialize (Hk _ Hin). apply andb_prop in Hk as [_ Hk].
        apply (IH _ Hin); [exact (Hwf _ Hin) | exact Hk]. }
    rewrite E. now apply of_items_nodup.
Qed.
End Rekey.

Lemma recursive_camelize_rekey v :
  recursive_camelize v = rekey Inflection.camelize v.
Proof. reflexivity. Qed.

Lemma recursive_underscore_rekey v :
  recursive_underscore v = rekey Inflection.underscore v.
Proof. reflexivity. Qed.

(** C1, as stated, fails: [has_3d_model] is an underscore-style key, and
    camelizing then underscoring a mapping that uses it returns a mapping
    with the key [has3d_model] instead (a piece that starts with a digit
    gets no capital, so [underscore] finds no boundary); a one-letter piece
    is lost the same way ([a_b] comes back as [ab]). *)
Lemma roundtrip_fails_on_digit_piece :
  let m := PDict [("has_3d_model", PBool true); ("a_b", PInt 1)] in
  dict_wf m = true
  /\ all_keys underscore_style m = true
  /\ recursive_underscore (recursive_camelize m)
     = PDict [("has3d_model", PBool true); ("ab", PInt 1)]
  /\ recursive_underscore (recursive_camelize m) <> m.
Proof.
  cbv zeta. repeat split; try reflexivity.
  vm_compute. discriminate.
Qed.

(** C1 (amended): for every nested value of mappings, sequences and scalars
    whose mappings have distinct keys, if every key is made of words (a
    lower-case letter followed by at least one lower-case letter or digit)
    joined by single underscores, camelizing and then underscoring returns
    the value; and if every key is a run of capitalised such words,
    underscoring and then camelizing returns the value. *)
Theorem key_case_roundtrip :
  (forall m, dict_wf m = true -> all_keys snake_key m = true ->
             recursive_underscore (recursive_camelize m) = m)
  /\ (forall x, dict_wf x = true -> all_keys camel_key x = true ->
                recursive_camelize (recursive_underscore x) = x).
Proof.
  split; intros v Hwf Hk.
  - rewrite recursive_camelize_rekey, recursive_underscore_rekey.
    exact (rekey_roundtrip _ _ snake_key snake_key_roundtrip v Hwf Hk).
  - rewrite recursive_camelize_rekey, recursive_underscore_rekey.
    exact (rekey_roundtrip _ _ camel_key camel_key_roundtrip v Hwf Hk).
Qed.

Lemma key_case_roundtrip_witness :
  (dict_wf snake_sample = true /\ all_keys snake_key snake_sample = true
   /\ recursive_underscore (recursive_camelize snake_sample) = snake_sample)
  /\ (dict_wf camel_sample = true /\ all_keys camel_key camel_sample = true
      /\ recursive_camelize (recursive_underscore camel_sample) = camel_sample).
Proof.
  split; (split; [reflexivity | split; [reflexivity|]]).
  - apply (proj1 key_case_roundtrip); reflexivity.
  - apply (proj2 key_case_roundtrip); reflexivity.
Defined.

(** ** Construction of a model from a mapping *)

Local Open Scope list_scope.

Lemma get_outside allowed d k :
  only_keys allowed d = true -> Dict.mem k allowed = false -> Dict.get d k = None.
Proof.
  unfold only_keys, Dict.keys. induction d as [|[k' v] d IH]; [reflexivity|].
  cbn [map fst forallb Dict.get]. intros H Hk.
  apply andb_prop in H as [Hk' H].
  destruct (String.eqb_spec k' k) as [->|_]; [congruence | now apply IH].
Qed.

Lemma only_keys_mono allowed allowed' d :
  only_keys allowed d = true ->
  forallb (fun k => Dict.mem k allowed') allowed = true ->
  only_keys allowed' d = true.
Proof.
  unfold only_keys. rewrite !forallb_forall. intros H Hsub k Hin.
  apply Hsub. apply mem_In. now apply H.
Qed.

Lemma import_field_raw c d f name :
  import_field (raw_entries c d) f name = raw_field c d name f.
Proof.
  unfold import_field, raw_field.
  induction d as [|[k v] d IH]; [reflexivity|].
  cbn [raw_entries map fst snd Dict.get].
  destruct (String.eqb_spec k name) as [->|_]; [|exact IH].
  destruct (Dict.get (fields_of c) name); reflexivity.
Qed.

Lemma get_mem {V} (d : list (string * V)) k :
  Dict.mem k (Dict.keys d) = true -> exists v, Dict.get d k = Some v.
Proof.
  unfold Dict.keys. induction d as [|[k' v] d IH]; [discriminate|].
  cbn [map fst Dict.get]. rewrite mem_cons, String.eqb_sym.
  destruct (String.eqb k' k); [eauto | exact IH].
Qed.

Lemma no_rogue c d :
  only_keys (Dict.keys (fields_of c)) d = true ->
  rogue_errors (raw_entries c d) = [].
Proof.
  unfold only_keys, Dict.keys at 2, rogue_errors.
  induction d as [|[k v] d IH]; [reflexivity|].
  cbn [map fst snd forallb raw_entries flat_map]. intros H.
  apply andb_prop in H as [Hk H].
  destruct (get_mem _ _ Hk) as (f & ->). cbn [app]. now apply IH.
Qed.

Lemma fold_left_ext {A B} (f g : A -> B -> A) l a :
  (forall x y, f x y = g x y) -> fold_left f l a = fold_left g l a.
Proof.
  intros H. revert a. induction l as [|y l IH]; intros a; [reflexivity|].
  cbn [fold_left]. now rewrite H, IH.
Qed.

(** [cls(dict_)] on a mapping with no key outside the fields. *)
Lemma new_dict c d :
  only_keys (Dict.keys (fields_of c)) d = true ->
  new c (PDict d) =
  match fold_left (import_step c d) (fields_of c) ([], []) with
  | ([], data) => inr (NModel c data)
  | (errs, _) => inl (DataError errs)
  end.
Proof.
  intros H. unfold new, construct.
  assert (E : (if truthy (PDict d) then PDict d else PDict []) = PDict d)
    by now destruct d.
  rewrite E. cbn [convert]. fold (raw_entries c d).
  unfold import_loop. rewrite (no_rogue c d H).
  rewrite (fold_left_ext _ (import_step c d)).
  2:{ intros acc nf. unfold import_step. now rewrite import_field_raw. }
  unfold report.
  match goal with
  | |- context [@fold_left ?A ?B ?f ?l ?a] =>
      destruct (@fold_left A B f l a) as [[|e errs] data]; reflexivity
  end.
Qed.

(** ** Sort: the rule on [sort_parameter_id] *)

Ltac choice_cases H :=
  cbn [map SortOptions_members SortOptions_value
       SortDirections_members SortDirections_value In] in H;
  repeat (destruct H as [H|H]; [subst|]); [..|contradiction].

Lemma new_sort d so dir :
  only_keys sort_fields d = true ->
  Dict.get d "sort_option" = Some (PStr so) ->
  Dict.get d "direction" = Some (PStr dir) ->
  new Sort (PDict d) =
  inr (NModel Sort
         [("sort_option", NStr so); ("direction", NStr dir);
          ("sort_parameter_id",
           match Dict.get d "sort_parameter_id" with
           | Some (PInt n) => NInt n
           | _ => NNone
           end)])
  \/ exists v, Dict.get d "sort_parameter_id" = Some v
               /\ v <> PNone /\ forall n, v <> PInt n.
Proof.
  intros Hk Hso Hdir. rewrite (new_dict Sort d Hk).
  unfold import_step, raw_field. cbn [fields_of fold_left fst snd].
  rewrite Hso, Hdir. cbn.
  destruct (Dict.get d "sort_parameter_id") as [[| | n | | |]|] eqn:E;
    try (left; reflexivity);
    right; eexists; (split; [reflexivity | split; [discriminate | intros; discriminate]]).
Qed.

(** C2: on a Sort mapping whose [sort_option] and [direction] are allowed
    values, validation reports the violation on [sort_parameter_id] when the
    option is SortByParameter and the id is null (absent or None), nothing
    when the option is SortByParameter and the id is an integer, the
    violation when the option is another allowed value and the id is an
    integer, and nothing when the option is another value and the id is
    null. *)
Theorem sort_parameter_rule (d : list (string * pyval)) (so dir : string) :
  only_keys sort_fields d = true ->
  Dict.get d "sort_option" = Some (PStr so) ->
  In so (map SortOptions_value SortOptions_members) ->
  Dict.get d "direction" = Some (PStr dir) ->
  In dir (map SortDirections_value SortDirections_members) ->
  (Dict.get d "sort_parameter_id" = None
   \/ Dict.get d "sort_parameter_id" = Some PNone ->
   errors Sort (PDict d)
   = inr (if String.eqb so "SortByParameter" then missing_parameter else ONone))
  /\ (forall n, Dict.get d "sort_parameter_id" = Some (PInt n) ->
      errors Sort (PDict d)
      = inr (if String.eqb so "SortByParameter" then ONone else unexpected_parameter)).
Proof.
  intros Hk Hso Hin Hdir Hin'.
  destruct (new_sort d so dir Hk Hso Hdir) as [Hnew | (v & Hv & Hnone & Hint)].
  - split.
    + intros Hid. unfold errors. rewrite Hnew.
      assert (E : match Dict.get d "sort_parameter_id" with
                  | Some (PInt n) => NInt n
                  | _ => NNone
                  end = NNone) by (destruct Hid as [-> | ->]; reflexivity).
      rewrite E. clear - Hin Hin'.
      choice_cases Hin; choice_cases Hin'; reflexivity.
    + intros n Hid. unfold errors. rewrite Hnew, Hid. clear - Hin Hin'.
      choice_cases Hin; choice_cases Hin'; reflexivity.
  - split.
    + intros [Hid | Hid]; rewrite Hid in Hv; congruence.
    + intros n Hid. rewrite Hid in Hv. injection Hv as <-. now destruct (Hint n).
Qed.

Lemma sort_parameter_rule_witness :
  errors Sort (PDict sort_by_parameter_null) = inr missing_parameter
  /\ errors Sort (PDict sort_by_description_seven) = inr unexpected_parameter.
Proof.
  split.
  - apply (proj1 (sort_parameter_rule sort_by_parameter_null
                    "SortByParameter" "Ascending"
                    eq_refl eq_refl
                    (or_intror (or_intror (or_intror (or_intror (or_intror
                       (or_intror (or_intror (or_introl eq_refl))))))))
                    eq_refl (or_introl eq_refl))).
    left. reflexivity.
  - apply (proj2 (sort_parameter_rule sort_by_description_seven
                    "SortByDescription" "Descending"
                    eq_refl eq_refl
                    (or_intror (or_intror (or_introl eq_refl)))
                    eq_refl (or_intror (or_introl eq_refl))) 7%Z).
    reflexivity.
Defined.

(** ** KeywordSearchRequest: [record_count] *)

Lemma import_step_ok c d errs data name f n :
  raw_field c d name f = inr n ->
  import_step c d (errs, data) (name, f) = (errs, Dict.set data name n).
Proof. intros H. unfold import_step. cbn [fst snd]. now rewrite H. Qed.

Lemma raw_field_absent c d name f :
  Dict.get d name = None ->
  raw_field c d name f
  = inr (match default (field_options f) with Some n => n | None => NNone end).
Proof. intros H. unfold raw_field. rewrite H. now destruct (default _). Qed.

Lemma new_request d kw :
  only_keys request_fields d = true ->
  Dict.get d "keywords" = Some (PStr kw) ->
  (forall n, Dict.get d "record_count" = Some (PInt n) ->
             new KeywordSearchRequest (PDict d) = inr (request_instance kw n))
  /\ (Dict.get d "record_count" = None ->
      new KeywordSearchRequest (PDict d) = inr (request_instance kw 10)).
Proof.
  intros Hk Hkw.
  rewrite (new_dict KeywordSearchRequest d)
    by (apply (only_keys_mono _ _ _ Hk); reflexivity).
  cbn [fields_of fold_left].
  rewrite (import_step_ok _ _ _ _ _ _ (NStr kw))
    by (unfold raw_field; now rewrite Hkw).
  rewrite (import_step_ok _ _ _ _ "search_options" _ _
             (raw_field_absent _ _ _ _ (get_outside _ _ "search_options" Hk eq_refl))).
  assert (Hrest : forall data,
    import_step KeywordSearchRequest d
      (import_step KeywordSearchRequest d
         (import_step KeywordSearchRequest d
            (import_step KeywordSearchRequest d ([], data)
               ("record_start_pos", IntType (kw_default (NInt 0) no_options)))
            ("filters", ModelType Filters no_options))
         ("sort", ModelType Sort no_options))
      ("requested_quantity", IntType (kw_default (NInt 1) no_options))
    = ([], Dict.set (Dict.set (Dict.set (Dict.set data
         "record_start_pos" (NInt 0)) "filters" NNone) "sort" NNone)
         "requested_quantity" (NInt 1))).
  { intros data.
    now rewrite
      (import_step_ok _ _ _ _ "record_start_pos" _ _
         (raw_field_absent _ _ _ _ (get_outside _ _ "record_start_pos" Hk eq_refl))),
      (import_step_ok _ _ _ _ "filters" _ _
         (raw_field_absent _ _ _ _ (get_outside _ _ "filters" Hk eq_refl))),
      (import_step_ok _ _ _ _ "sort" _ _
         (raw_field_absent _ _ _ _ (get_outside _ _ "sort" Hk eq_refl))),
      (import_step_ok _ _ _ _ "requested_quantity" _ _
         (raw_field_absent _ _ _ _ (get_outside _ _ "requested_quantity" Hk eq_refl))). }
  split; [intros n Hn | intros Hn].
  - rewrite (import_step_ok _ _ _ _ "record_count" _ (NInt n))
      by (unfold raw_field; now rewrite Hn).
    now rewrite Hrest.
  - rewrite (import_step_ok _ _ _ _ "record_count" _ _
               (raw_field_absent _ _ _ _ Hn)).
    now rewrite Hrest.
Qed.

Lemma validate_request kw n :
  validate fields_of validators_of (request_instance kw n)
  = if (n <? 1)%Z then inl (DataError [("record_count", Messages [MsgMinValue 1])])
    else if (50 <? n)%Z then inl (DataError [("record_count", Messages [MsgMaxValue 50])])
    else inr (request_instance kw n).
Proof.
  unfold validate, request_instance.
  cbn -[Z.ltb].
  destruct (n <? 1)%Z; [reflexivity|].
  destruct (50 <? n)%Z; reflexivity.
Qed.

Lemma errors_request d kw n :
  only_keys request_fields d = true ->
  Dict.get d "keywords" = Some (PStr kw) ->
  Dict.get d "record_count" = Some (PInt n) ->
  errors KeywordSearchRequest (PDict d)
  = inr (if (n <? 1)%Z then record_count_report (MsgMinValue 1)
         else if (50 <? n)%Z then record_count_report (MsgMaxValue 50)
         else ONone).
Proof.
  intros Hk Hkw Hn. unfold errors.
  rewrite (proj1 (new_request d kw Hk Hkw) n Hn).
  cbn [bind ret catch Monad_py Exception_py Monad_either Exception_either].
  rewrite validate_request.
  destruct (n <? 1)%Z; [reflexivity|].
  destruct (50 <? n)%Z; reflexivity.
Qed.

(** C8: a KeywordSearchRequest mapping with its keywords is rejected with an
    error on [record_count] when the count is 51 or 0 and accepted when it
    is 50 or 1; without a count the instance holds 10, which validates. *)
Theorem record_count_range (d : list (string * pyval)) (kw : string) :
  only_keys request_fields d = true ->
  Dict.get d "keywords" = Some (PStr kw) ->
  (Dict.get d "record_count" = Some (PInt 51) ->
   errors KeywordSearchRequest (PDict d) = inr (record_count_report (MsgMaxValue 50)))
  /\ (Dict.get d "record_count" = Some (PInt 0) ->
      errors KeywordSearchRequest (PDict d) = inr (record_count_report (MsgMinValue 1)))
  /\ (Dict.get d "record_count" = Some (PInt 50) ->
      errors KeywordSearchRequest (PDict d) = inr ONone)
  /\ (Dict.get d "record_count" = Some (PInt 1) ->
      errors KeywordSearchRequest (PDict d) = inr ONone)
  /\ (Dict.get d "record_count" = None ->
      exists inst,
        new KeywordSearchRequest (PDict d) = inr inst
        /\ getattr inst "record_count" = inr (NInt 10)
        /\ validate fields_of validators_of inst = inr inst
        /\ errors KeywordSearchRequest (PDict d) = inr ONone).
Proof.
  intros Hk Hkw. repeat split.
  1-4: intros Hn; now rewrite (errors_request d kw _ Hk Hkw Hn).
  intros Hn. exists (request_instance kw 10).
  pose proof (proj2 (new_request d kw Hk Hkw) Hn) as Hnew.
  split; [exact Hnew|]. split; [reflexivity|]. split.
  - now rewrite validate_request.
  - unfold errors. rewrite Hnew.
    cbn [bind ret catch Monad_py Exception_py Monad_either Exception_either].
    now rewrite validate_request.
Qed.

Lemma record_count_range_witness :
  errors KeywordSearchRequest (PDict (request_with 51))
  = inr (record_count_report (MsgMaxValue 50))
  /\ errors KeywordSearchRequest (PDict (request_with 0))
     = inr (record_count_report (MsgMinValue 1))
  /\ errors KeywordSearchRequest (PDict (request_with 50)) = inr ONone
  /\ errors KeywordSearchRequest (PDict (request_with 1)) = inr ONone
  /\ errors KeywordSearchRequest (PDict [("keywords", PStr "capacitor")]) = inr ONone.
Proof.
  split; [|split; [|split; [|split]]].
  - exact (proj1 (record_count_range (request_with 51) "capacitor" eq_refl eq_refl) eq_refl).
  - exact (proj1 (proj2 (record_count_range (request_with 0) "capacitor" eq_refl eq_refl)) eq_refl).
  - exact (proj1 (proj2 (proj2 (record_count_range (request_with 50) "capacitor" eq_refl eq_refl))) eq_refl).
  - exact (proj1 (proj2 (proj2 (proj2 (record_count_range (request_with 1) "capacitor" eq_refl eq_refl)))) eq_refl).
  - destruct (proj2 (proj2 (proj2 (proj2
        (record_count_range [("keywords", PStr "capacitor")] "capacitor" eq_refl eq_refl))))
        eq_refl) as (inst & _ & _ & _ & H).
    exact H.
Defined.

(** ** ParametricFilters *)

Lemma new_filter d :
  only_keys filter_fields d = true ->
  (null d "parameter_id" \/ exists n, Dict.get d "parameter_id" = Some (PInt n)) ->
  (null d "value_id" \/ exists s, Dict.get d "value_id" = Some (PStr s)) ->
  new ParametricFilters (PDict d)
  = inr (NModel ParametricFilters
           [("parameter_id", native_of d "parameter_id");
            ("value_id", native_of d "value_id")]).
Proof.
  intros Hk Hp Hv. rewrite (new_dict ParametricFilters d Hk).
  unfold import_step, raw_field, native_of. cbn [fields_of fold_left fst snd].
  destruct Hp as [[-> | ->] | (n & ->)]; destruct Hv as [[-> | ->] | (s & ->)];
    reflexivity.
Qed.

Lemma errors_filter d n s :
  only_keys filter_fields d = true ->
  Dict.get d "parameter_id" = Some (PInt n) ->
  Dict.get d "value_id" = Some (PStr s) ->
  errors ParametricFilters (PDict d)
  = inr (if Nat.ltb 100 (String.length s) then value_id_report MsgMaxLength
         else if Nat.ltb (String.length s) 1 then value_id_report MsgMinLength
         else ONone).
Proof.
  intros Hk Hp Hv. unfold errors.
  rewrite (new_filter d Hk) by (right; eauto).
  unfold native_of. rewrite Hp, Hv.
  cbn -[Nat.ltb].
  destruct (Nat.ltb 100 (String.length s)); [reflexivity|].
  destruct (Nat.ltb (String.length s) 1); reflexivity.
Qed.

Lemma filter_valid_iff d :
  filter_verdict d = ONone
  <-> exists n s, taken_int d "parameter_id" = Taken n
                  /\ taken_str d "value_id" = Taken s
                  /\ 1 <= String.length s <= 100.
Proof.
  unfold filter_verdict, filter_report, length_report.
  destruct (taken_int d "parameter_id") as [|n|e];
    destruct (taken_str d "value_id") as [|s|e'];
    try (split; [discriminate | intros (n' & s' & H1 & H2 & _); discriminate]).
  cbn [app].
  destruct (Nat.ltb_spec 100 (String.length s)) as [H|H].
  - split; [discriminate|].
    intros (n' & s' & _ & E & Hlen). injection E as <-. lia.
  - destruct (Nat.ltb_spec (String.length s) 1) as [H'|H'].
    + split; [discriminate|].
      intros (n' & s' & _ & E & Hlen). injection E as <-. lia.
    + split; [|reflexivity]. intros _. exists n, s. repeat split; lia.
Qed.




(** ** List validation *)

Ltac run := cbn [bind ret catch raise Monad_py Exception_py Monad_either Exception_either].

Lemma mapM_constructed cls (list_ : list pyval) :
  Forall (fun dict_ => exists inst, new cls dict_ = inr inst) list_ ->
  mapM (fun dict_ => _ <- new cls dict_ ;; ret (OBoundMethod cls "errors")) list_
  = inr (map (fun _ => OBoundMethod cls "errors") list_).
Proof.
  induction 1 as [|dict_ l (inst & Hnew) _ IH]; [reflexivity|].
  cbn [mapM map]. rewrite Hnew, IH. reflexivity.
Qed.

(** Whatever the elements are, as long as each can be constructed the
    result of [errors_list] is one bound method per element, and None only
    for the empty list. *)
Lemma errors_list_constructed cls (list_ : list pyval) :
  Forall (fun dict_ => exists inst, new cls dict_ = inr inst) list_ ->
  errors_list cls list_
  = inr (match list_ with
         | [] => ONone
         | _ => OList (map (fun _ => OBoundMethod cls "errors") list_)
         end).
Proof.
  intros H. unfold errors_list. rewrite (mapM_constructed cls list_ H). run.
  destruct list_ as [|x l]; [reflexivity|].
  cbn [map existsb obj_truthy orb filter]. do 3 f_equal.
  clear. induction l as [|y l IH]; [reflexivity|].
  cbn [map filter obj_truthy]. now rewrite IH.
Qed.

(** C3 (defect): [errors_list] never calls [errors].  On a list with one
    valid element it returns a one-element list instead of None; on a valid
    and an invalid element it returns two bound methods, not the one report
    of the invalid element. *)
Theorem errors_list_keeps_methods :
  errors ParametricFilters valid_filter = inr ONone
  /\ errors ParametricFilters invalid_filter = inr (value_id_report MsgMinLength)
  /\ errors_list ParametricFilters [valid_filter]
     = inr (OList [OBoundMethod ParametricFilters "errors"])
  /\ errors_list ParametricFilters [valid_filter; invalid_filter]
     = inr (OList [OBoundMethod ParametricFilters "errors";
                   OBoundMethod ParametricFilters "errors"]).
Proof. repeat split. Qed.

(** ** Exceptions that leave the validation entry points *)

(** C4 (defect): a Sort mapping whose [sort_option] is not an allowed value,
    or is missing, makes [errors] and [is_valid] raise [KeyError]: the failed
    field is absent from the data [validate_sort_parameter_id] indexes.  And
    [errors_list] hands back a bound method for an element that violates a
    constraint, not its report. *)
Theorem malformed_sort_raises :
  errors Sort unknown_sort_option = inl (KeyError "sort_option")
  /\ is_valid Sort unknown_sort_option = inl (KeyError "sort_option")
  /\ errors Sort missing_sort_option = inl (KeyError "sort_option")
  /\ errors_list ParametricFilters [invalid_filter]
     = inr (OList [OBoundMethod ParametricFilters "errors"]).
Proof. repeat split. Qed.

(** ** Classes without model-level validators never raise *)

Section NativeInd.
Variable P : native -> Prop.
Hypothesis HNone : P NNone.
Hypothesis HBool : forall b, P (NBool b).
Hypothesis HInt : forall z, P (NInt z).
Hypothesis HStr : forall s, P (NStr s).
Hypothesis HList : forall l, Forall P l -> P (NList l).
Hypothesis HModel : forall c d, Forall (fun kv => P (snd kv)) d -> P (NModel c d).

Fixpoint native_nested_ind (n : native) : P n :=
  match n with
  | NNone => HNone
  | NBool b => HBool b
  | NInt z => HInt z
  | NStr s => HStr s
  | NList l =>
      HList l ((fix go (l : list native) : Forall P l :=
                  match l with
                  | [] => Forall_nil _
                  | x :: l' => Forall_cons x (native_nested_ind x) (go l')
                  end) l)
  | NModel c d =>
      HModel c d ((fix go (d : list (string * native))
                     : Forall (fun kv => P (snd kv)) d :=
                     match d with
                     | [] => Forall_nil _
                     | kv :: d' =>
                         Forall_cons kv (native_nested_ind (snd kv)) (go d')
                     end) d)
  end.
End NativeInd.

Lemma get_In {V} (d : list (string * V)) k v :
  Dict.get d k = Some v -> exists k', In (k', v) d.
Proof.
  induction d as [|[k' v'] d IH]; [discriminate|]. cbn [Dict.get].
  destruct (String.eqb k' k).
  - intros H. injection H as ->. exists k'. now left.
  - intros H. destruct (IH H) as (k0 & Hin). exists k0. now right.
Qed.

Lemma plain_class_fields c :
  plain_class c = true ->
  validators_of c = []
  /\ forall name f, Dict.get (fields_of c) name = Some f -> plain_field f = true.
Proof.
  intros Hc. split; [now destruct c|].
  assert (H : forallb (fun nf => plain_field (snd nf)) (fields_of c) = true)
    by (destruct c; try discriminate; reflexivity).
  intros name f Hget. destruct (get_In _ _ _ Hget) as (k & Hin).
  rewrite forallb_forall in H. exact (H _ Hin).
Qed.

Lemma of_messages_settled v msgs : settled (of_messages v msgs).
Proof. now destruct msgs. Qed.

Lemma collect_validated_settled l : forall i,
  Forall settled l -> exists p, collect_validated i l = inr p.
Proof.
  induction l as [|r l IH]; intros i H; [now eexists|].
  inversion H as [|? ? Hr Hl]; subst. cbn [collect_validated].
  destruct (IH (S i) Hl) as ([errs data] & ->).
  destruct r; [eauto | eauto | contradiction].
Qed.

Lemma list_validated_settled l : Forall settled l -> settled (list_validated l).
Proof.
  intros H. unfold list_validated.
  destruct (collect_validated_settled l 0 H) as ([[|e errs] data] & ->); exact I.
Qed.

Definition settled_entry (e : string * option validated) : Prop :=
  match snd e with
  | Some r => settled r
  | None => True
  end.

Lemma validate_fields_settled c entries :
  Forall settled_entry entries ->
  exists p, validate_fields fields_of c entries = inr p.
Proof.
  intros H. unfold validate_fields.
  generalize (@nil (string * error_tree), @nil (string * native)).
  induction (fields_of c) as [|[name f] fs IH]; intros acc; [now eexists|].
  cbn [fold_left fst snd]. destruct acc as [errs data].
  unfold validate_field.
  destruct (Dict.get entries name) as [[r|]|] eqn:E.
  - destruct (get_In _ _ _ E) as (k & Hin).
    rewrite Forall_forall in H. specialize (H _ Hin). cbn in H.
    destruct r; [apply IH | apply IH | contradiction].
  - apply IH.
  - destruct (required (field_options f)); apply IH.
Qed.

Lemma validate_model_plain c data :
  validators_of c = [] ->
  validate_model fields_of validators_of c data = inr ([], []).
Proof.
  intros Hv. unfold validate_model. rewrite Hv.
  induction (fields_of c) as [|nf fs IH]; [reflexivity|].
  cbn [fold_left Dict.get]. now destruct (Dict.get data (fst nf)).
Qed.

Lemma validate_loop_settled c entries :
  validators_of c = [] -> Forall settled_entry entries ->
  match validate_loop fields_of validators_of c entries with
  | Valid _ | Invalid (FieldErrors _) _ => True
  | _ => False
  end.
Proof.
  intros Hv H. unfold validate_loop.
  destruct (validate_fields_settled c entries H) as ([errs data] & ->).
  rewrite (validate_model_plain c data Hv). cbn [fold_left].
  now destruct errs.
Qed.

Lemma validate_value_settled n : forall f,
  plain_field f = true ->
  settled (validate_value fields_of validators_of f n).
Proof.
  induction n as [| | | |l IH|c' d IH] using native_nested_ind; intros f Hf;
    destruct f as [o|o|o|elem o|c o]; cbn [validate_value];
    try exact I; try apply of_messages_settled.
  - apply list_validated_settled. cbn [plain_field] in Hf.
    rewrite Forall_forall in IH |- *. intros r Hr.
    apply in_map_iff in Hr as (item & <- & Hin).
    destruct item; try (now apply IH);
      now destruct (required (field_options elem)).
  - cbn [plain_field] in Hf.
    destruct (plain_class_fields c Hf) as [Hv Hfields].
    pose proof (validate_loop_settled c) as Hloop.
    match goal with
    | |- settled (validate_loop _ _ _ ?entries) =>
        specialize (Hloop entries Hv);
        destruct (validate_loop fields_of validators_of c entries)
          as [v|[| |] p|e]; try exact I; apply Hloop
    end.
    all: rewrite Forall_forall in IH |- *; intros [k r] Hr;
      apply in_map_iff in Hr as ([k' v] & E & Hin);
      cbn [fst snd] in E; injection E as <- <-;
      unfold settled_entry; cbn [snd];
      destruct (Dict.get (fields_of c) k') as [f'|] eqn:Ef; [|exact I];
      destruct v; try (apply (IH _ Hin); now apply (Hfields k'));
      now destruct (required (field_options f')).
Qed.

(** On a mapping, the classes without model-level validators always get an
    answer from [errors]: None or the report. *)
Lemma errors_plain c d :
  plain_class c = true ->
  errors c (PDict d) = inr ONone
  \/ exists r, errors c (PDict d) = inr (OErrors (FieldErrors r)).
Proof.
  intros Hc. unfold errors, new, construct.
  assert (E : (if truthy (PDict d) then PDict d else PDict []) = PDict d)
    by now destruct d.
  rewrite E. cbn [convert].
  match goal with
  | |- context [import_loop fields_of c ?entries] =>
      destruct (import_loop fields_of c entries) as [[|e errs] data]
  end; run; [|right; eauto].
  unfold validate. cbn [validate_value].
  destruct (plain_class_fields c Hc) as [Hv Hfields].
  pose proof (validate_loop_settled c) as Hloop.
  match goal with
  | |- context [validate_loop _ _ _ ?entries] =>
      specialize (Hloop entries Hv);
      destruct (validate_loop fields_of validators_of c entries)
        as [v|[| |] p|e]
  end; run; try (left; reflexivity); try (right; eauto; fail);
    exfalso; apply Hloop.
  all: rewrite Forall_forall; intros [k r] Hr;
    apply in_map_iff in Hr as ([k' v] & E' & Hin);
    cbn [fst snd] in E'; injection E' as <- <-;
    unfold settled_entry; cbn [snd];
    destruct (Dict.get (fields_of c) k') as [f'|] eqn:Ef; [|exact I];
    destruct v; try (apply validate_value_settled; now apply (Hfields k'));
    now destruct (required (field_options f')).
Qed.

(** ** The taxonomy tree of a search result *)

Lemma new_tree root c1 c2 g1 g2 k1 k2 :
  new LimitedTaxonomy (underscore (raw_tree root c1 c2 g1 g2 k1 k2))
  = inr (tree root c1 c2 g1 g2 k1 k2).
Proof. destruct k1, k2; vm_compute; reflexivity. Qed.

Lemma depth_tree root c1 c2 g1 g2 k1 k2 :
  depth (tree root c1 c2 g1 g2 k1 k2) = 3.
Proof. destruct k1, k2; reflexivity. Qed.



(** ** Part: the dict of parameters *)

Lemma key_eqb_text k0 k : key_eqb k0 (PStr k) = true -> k0 = PStr k.
Proof.
  destruct k0; cbn [key_eqb]; try discriminate.
  intros H. apply String.eqb_eq in H. now subst.
Qed.

Lemma key_get_set d k v k' :
  key_get (key_set d (PStr k) v) (PStr k')
  = if String.eqb k k' then Some v else key_get d (PStr k').
Proof.
  induction d as [|[k0 v0] d IH]; cbn [key_set key_get key_eqb].
  - now destruct (String.eqb k k').
  - destruct (key_eqb k0 (PStr k)) eqn:E; cbn [key_get].
    + apply key_eqb_text in E. subst k0. cbn [key_eqb].
      now destruct (String.eqb k k').
    + rewrite IH. destruct (String.eqb_spec k k') as [Ek|_]; [|reflexivity].
      rewrite <- Ek. now rewrite E.
Qed.

Lemma get_app {V} (d1 d2 : list (string * V)) k :
  Dict.get (d1 ++ d2) k
  = match Dict.get d1 k with Some v => Some v | None => Dict.get d2 k end.
Proof.
  induction d1 as [|[k' v'] d1 IH]; [reflexivity|]. cbn [app Dict.get].
  now destruct (String.eqb k' k).
Qed.

Lemma key_get_fold pairs : forall acc name,
  key_get (fold_left (fun a kv => key_set a (PStr (fst kv)) (snd kv)) pairs acc)
          (PStr name)
  = match last_value pairs name with
    | Some v => Some v
    | None => key_get acc (PStr name)
    end.
Proof.
  unfold last_value.
  induction pairs as [|[k v] pairs IH]; intros acc name; [reflexivity|].
  cbn [fold_left fst snd rev]. rewrite IH, get_app, key_get_set.
  destruct (Dict.get (rev pairs) name); [reflexivity|].
  cbn [Dict.get]. now destruct (String.eqb k name).
Qed.

Lemma parameters_fold params : forall pairs acc,
  named_values params = Some pairs ->
  fold_left
    (fun (a : py (list (pyval * pyval))) p =>
       d <- a ;;
       k <- PidVid.parameter p ;;
       v <- PidVid.value p ;;
       if hashable k then ret (key_set d k v) else raise TypeError)
    (map PidVid.__init__ params) (inr acc)
  = inr (fold_left (fun a kv => key_set a (PStr (fst kv)) (snd kv)) pairs acc).
Proof.
  induction params as [|p params IH]; intros pairs acc; cbn [named_values].
  - intros H. injection H as <-. reflexivity.
  - destruct p as [| | | | |m]; try discriminate.
    destruct (Dict.get_default m "Parameter" (PStr "")) as [| | |name| |] eqn:En;
      try discriminate.
    destruct (named_values params) as [rest|]; [|discriminate].
    intros H. injection H as <-.
    cbn [map fold_left fst snd]. rewrite <- (IH rest _ eq_refl). f_equal.
    unfold PidVid.parameter, PidVid.value, get. cbn [PidVid._pidvid]. run.
    now rewrite En.
Qed.

(** ** Part: accessors with defaults *)

Ltac reads_only_tac :=
  split;
  [ intros d H;
    cbv [Part.standard_pricing Part.category Part.family Part.manufacturer
         Part.mpn Part.part_status Part.digikey_pn Part.digikey_url
         Part.in_stock Part.moq Part.parameters Part.description_product
         Part.description_detailed Part.datasheet
         Part._part get Dict.get_default];
    rewrite H; reflexivity
  | intros d d' H;
    cbv [Part.standard_pricing Part.category Part.family Part.manufacturer
         Part.mpn Part.part_status Part.digikey_pn Part.digikey_url
         Part.in_stock Part.moq Part.parameters Part.description_product
         Part.description_detailed Part.datasheet
         Part._part get Dict.get_default];
    rewrite H; reflexivity ].

Ltac accessor_tac :=
  cbv [Part.standard_pricing Part.category Part.family Part.manufacturer
       Part.mpn Part.part_status Part.digikey_pn Part.digikey_url
       Part.in_stock Part.moq Part.description_product
       Part.description_detailed Part.datasheet PidVid.value PidVid._pidvid
       Part._part get Dict.get_default].

(** C6: every accessor of Part reads one raw entry and gives its declared
    default when the entry is absent.  The eight plain accessors return a
    present entry as it is; [digikey_url] puts the base URL before a text
    path; [category] and [family] wrap the entry, [manufacturer] reads the
    Value of the entry, [standard_pricing] wraps the items of the entry and
    [parameters] maps each name to the value of the last raw parameter with
    that name. *)
Theorem part_accessors :
  Part.moq (Part.__init__ (PDict [])) = inr PNone
  /\ Part.moq (Part.__init__ (PDict [("MinimumOrderQuantity", PInt 5)])) = inr (PInt 5)
  /\ Part.digikey_url (Part.__init__ (PDict [])) = inr (PStr "https://www.digikey.com")
  /\ (forall d v, Dict.get d "MinimumOrderQuantity" = Some v ->
                  Part.moq (Part.__init__ (PDict d)) = inr v)
  /\ (forall d s, Dict.get d "PartUrl" = Some (PStr s) ->
                  Part.digikey_url (Part.__init__ (PDict d))
                  = inr (PStr ("https://www.digikey.com" ++ s)))
  /\ reads_only Part.standard_pricing "StandardPricing" (inr [])
  /\ reads_only Part.category "Category" (inr (IdTextPair.__init__ (PDict [])))
  /\ reads_only Part.family "Family" (inr (IdTextPair.__init__ (PDict [])))
  /\ reads_only Part.manufacturer "Manufacturer" (inr (PStr ""))
  /\ reads_only Part.mpn "ManufacturerPartNumber" (inr PNone)
  /\ reads_only Part.part_status "PartStatus" (inr PNone)
  /\ reads_only Part.digikey_pn "DigiKeyPartNumber" (inr PNone)
  /\ reads_only Part.digikey_url "PartUrl" (inr (PStr "https://www.digikey.com"))
  /\ reads_only Part.in_stock "QuantityAvailable" (inr PNone)
  /\ reads_only Part.moq "MinimumOrderQuantity" (inr PNone)
  /\ reads_only Part.parameters "Parameters" (inr [])
  /\ reads_only Part.description_product "ProductDescription" (inr PNone)
  /\ reads_only Part.description_detailed "DetailedDescription" (inr PNone)
  /\ reads_only Part.datasheet "PrimaryDatasheet" (inr PNone)
  /\ returns_entry Part.mpn "ManufacturerPartNumber" PNone
  /\ returns_entry Part.part_status "PartStatus" PNone
  /\ returns_entry Part.digikey_pn "DigiKeyPartNumber" PNone
  /\ returns_entry Part.in_stock "QuantityAvailable" PNone
  /\ returns_entry Part.moq "MinimumOrderQuantity" PNone
  /\ returns_entry Part.description_product "ProductDescription" PNone
  /\ returns_entry Part.description_detailed "DetailedDescription" PNone
  /\ returns_entry Part.datasheet "PrimaryDatasheet" PNone
  /\ (forall d, Part.digikey_url (Part.__init__ (PDict d))
                = match Dict.get d "PartUrl" with
                  | None => inr (PStr "https://www.digikey.com")
                  | Some (PStr s) => inr (PStr ("https://www.digikey.com" ++ s))
                  | Some _ => inl TypeError
                  end)
  /\ (forall d, Part.category (Part.__init__ (PDict d))
                = inr (IdTextPair.__init__
                         match Dict.get d "Category" with
                         | Some v => v
                         | None => PDict []
                         end))
  /\ (forall d, Part.family (Part.__init__ (PDict d))
                = inr (IdTextPair.__init__
                         match Dict.get d "Family" with
                         | Some v => v
                         | None => PDict []
                         end))
  /\ (forall d, Part.manufacturer (Part.__init__ (PDict d))
                = match Dict.get d "Manufacturer" with
                  | None => inr (PStr "")
                  | Some (PDict m) =>
                      inr match Dict.get m "Value" with
                          | Some v => v
                          | None => PStr ""
                          end
                  | Some _ => inl (AttributeError "get")
                  end)
  /\ (forall d items, Dict.get d "StandardPricing" = Some (PList items) ->
        Part.standard_pricing (Part.__init__ (PDict d))
        = inr (map PriceBreak.__init__ items))
  /\ (forall d params pairs,
        Dict.get d "Parameters" = Some (PList params) ->
        named_values params = Some pairs ->
        exists result,
          Part.parameters (Part.__init__ (PDict d)) = inr result
          /\ forall name, key_get result (PStr name) = last_value pairs name).
Proof.
  split; [reflexivity|]. split; [reflexivity|]. split; [reflexivity|].
  split.
  { intros d v H. cbv [Part.moq Part._part get Dict.get_default]. now rewrite H. }
  split.
  { intros d s H. cbv [Part.digikey_url Part._part get Dict.get_default].
    now rewrite H. }
  do 14 (split; [reads_only_tac|]).
  do 8 (split; [intros d; accessor_tac; reflexivity|]).
  split.
  { intros d. accessor_tac. destruct (Dict.get d "PartUrl") as [[]|]; reflexivity. }
  split; [intros d; accessor_tac; reflexivity|].
  split; [intros d; accessor_tac; reflexivity|].
  split.
  { intros d. accessor_tac.
    destruct (Dict.get d "Manufacturer") as [[]|]; reflexivity. }
  split.
  { intros d items H. accessor_tac. now rewrite H. }
  intros d params pairs Hd Hn. eexists. split.
  - unfold Part.parameters, get, Dict.get_default. cbn [Part._part].
    rewrite Hd. run. cbn [iter]. run.
    exact (parameters_fold params pairs [] Hn).
  - intros name. rewrite key_get_fold. now destruct (last_value pairs name).
Qed.

Lemma part_accessors_witness :
  Part.moq (Part.__init__ (PDict sample_part)) = inr (PInt 5)
  /\ Part.digikey_url (Part.__init__ (PDict sample_part))
     = inr (PStr "https://www.digikey.com/product-detail/en/x/1")
  /\ Part.mpn (Part.__init__ (PDict sample_part)) = inr PNone
  /\ Part.manufacturer (Part.__init__ (PDict sample_part)) = inr (PStr "")
  /\ Part.part_status (Part.__init__ (PDict [("PartStatus", PStr "Active")]))
     = inr (PStr "Active").
Proof.
  split; [|split; [|split; [|split]]].
  - exact (proj1 (proj2 (proj2 (proj2 part_accessors))) sample_part (PInt 5) eq_refl).
  - exact (proj1 (proj2 (proj2 (proj2 (proj2 part_accessors))))
             sample_part "/product-detail/en/x/1" eq_refl).
  - exact (proj1 (proj1 (proj2 (proj2 (proj2 (proj2 (proj2 (proj2 (proj2
             (proj2 (proj2 part_accessors)))))))))) sample_part eq_refl).
  - exact (proj1 (proj1 (proj2 (proj2 (proj2 (proj2 (proj2 (proj2 (proj2
             (proj2 part_accessors))))))))) sample_part eq_refl).
  - pose proof part_accessors as H.
    do 20 apply proj2 in H. apply proj1 in H.
    exact (H [("PartStatus", PStr "Active")]).
Defined.

(** ** KeywordSearchResult.products *)

Lemma wrap_spec items : forall h,
  KeywordSearchResult.wrap items h
  = (seq (length h) (length items), h ++ map Part.__init__ items).
Proof.
  induction items as [|r items IH]; intros h.
  - cbn. now rewrite app_nil_r.
  - cbn [KeywordSearchResult.wrap KeywordSearchResult.alloc]. rewrite IH.
    cbn [length seq map]. rewrite length_app. cbn [length].
    rewrite Nat.add_1_r, <- app_assoc. reflexivity.
Qed.

Lemma nth_error_new (h : list Part.t) items : forall k,
  map (nth_error (h ++ items)) (seq (length h) (length items)) = map Some items
  /\ map (nth_error ((h ++ items) ++ k)) (seq (length h) (length items)) = map Some items.
Proof.
  revert h. induction items as [|x items IH]; intros h k; [now split|].
  cbn [length seq map].
  assert (E : h ++ x :: items = (h ++ [x]) ++ items) by now rewrite <- app_assoc.
  assert (L : S (length h) = length (h ++ [x]))
    by (rewrite length_app; cbn; lia).
  split.
  - rewrite nth_error_app2, Nat.sub_diag by lia. cbn [nth_error]. f_equal.
    rewrite E, L. apply (IH (h ++ [x]) []).
  - rewrite <- app_assoc, nth_error_app2, Nat.sub_diag by lia. cbn [nth_error].
    f_equal. rewrite app_assoc, E, L. apply (IH (h ++ [x]) k).
Qed.

(** C7: [products] reads the raw entry Products (nothing when absent) and
    allocates one Part wrapper per raw item, in order; a second access
    allocates again: both lists have the length of the raw list and wrap the
    same raw items, and no wrapper of the first list is in the second or
    was in the store before. *)
Theorem products_rewraps (self : KeywordSearchResult.t)
        (d : list (string * pyval)) (items : list pyval)
        (h : KeywordSearchResult.store) :
  KeywordSearchResult._result self = PDict d ->
  Dict.get d "Products" = Some (PList items)
  \/ (Dict.get d "Products" = None /\ items = []) ->
  exists a1 h1 a2 h2,
    KeywordSearchResult.products self h = inr (a1, h1)
    /\ KeywordSearchResult.products self h1 = inr (a2, h2)
    /\ length a1 = length items /\ length a2 = length items
    /\ map (nth_error h2) a1 = map (fun r => Some (Part.__init__ r)) items
    /\ map (nth_error h2) a2 = map (fun r => Some (Part.__init__ r)) items
    /\ (forall a, In a a1 -> ~ In a a2)
    /\ (forall a, In a a1 -> length h <= a).
Proof.
  intros Hd Hp.
  assert (E : forall h0, KeywordSearchResult.products self h0
                         = inr (KeywordSearchResult.wrap items h0)).
  { intros h0. unfold KeywordSearchResult.products, get, Dict.get_default.
    rewrite Hd. destruct Hp as [-> | [-> ->]]; reflexivity. }
  exists (seq (length h) (length items)), (h ++ map Part.__init__ items).
  exists (seq (length (h ++ map Part.__init__ items)) (length items)).
  exists ((h ++ map Part.__init__ items) ++ map Part.__init__ items).
  rewrite !E, !wrap_spec.
  split; [reflexivity|]. split; [reflexivity|].
  split; [apply length_seq|]. split; [apply length_seq|].
  pose proof (nth_error_new h (map Part.__init__ items) (map Part.__init__ items)) as [_ H1].
  pose proof (nth_error_new (h ++ map Part.__init__ items) (map Part.__init__ items) []) as [H2 _].
  rewrite length_map, map_map in H1, H2.
  split; [exact H1|]. split; [exact H2|].
  split.
  - intros a Ha Ha'. apply in_seq in Ha, Ha'.
    rewrite length_app, length_map in Ha'. lia.
  - intros a Ha. apply in_seq in Ha. lia.
Qed.

Lemma products_rewraps_witness :
  exists a1 h1 a2 h2,
    KeywordSearchResult.products sample_result [] = inr (a1, h1)
    /\ KeywordSearchResult.products sample_result h1 = inr (a2, h2)
    /\ length a1 = 2 /\ length a2 = 2
    /\ map (nth_error h2) a1 = map (fun r => Some (Part.__init__ r)) sample_products
    /\ map (nth_error h2) a2 = map (fun r => Some (Part.__init__ r)) sample_products
    /\ (forall a, In a a1 -> ~ In a a2)
    /\ (forall a, In a a1 -> 0 <= a).
Proof.
  exact (products_rewraps sample_result _ sample_products [] eq_refl
           (or_introl eq_refl)).
Defined.

(** ** KeywordSearchResult: what the constructor needs *)

(** C10: without the key LimitedTaxonomy the constructor raises KeyError;
    without the key FilterOptions it raises too, KeyError once the taxonomy
    is built; a result that was constructed has its taxonomy built from the
    LimitedTaxonomy entry and its filter options from the FilterOptions
    entry; and on a constructed result without the key Products,
    [products] returns the empty list. *)
Theorem result_needs_taxonomy_and_options (d : list (string * pyval)) :
  (Dict.get d "LimitedTaxonomy" = None ->
   KeywordSearchResult.__init__ (PDict d) = inl (KeyError "LimitedTaxonomy"))
  /\ (Dict.get d "FilterOptions" = None ->
      (exists e, KeywordSearchResult.__init__ (PDict d) = inl e)
      /\ (forall raw inst,
            Dict.get d "LimitedTaxonomy" = Some raw ->
            new LimitedTaxonomy (underscore raw) = inr inst ->
            KeywordSearchResult.__init__ (PDict d) = inl (KeyError "FilterOptions")))
  /\ (forall r, KeywordSearchResult.__init__ (PDict d) = inr r ->
      (exists raw, Dict.get d "LimitedTaxonomy" = Some raw
                   /\ new LimitedTaxonomy (underscore raw)
                      = inr (KeywordSearchResult.limited_taxonomy r))
      /\ (exists raw items,
            Dict.get d "FilterOptions" = Some raw
            /\ iter raw = inr items
            /\ mapM (fun o => new FilterOption (underscore o)) items
               = inr (KeywordSearchResult.filter_options r))
      /\ (Dict.get d "Products" = None ->
          forall h, KeywordSearchResult.products r h = inr ([], h))).
Proof.
  unfold KeywordSearchResult.__init__, getitem.
  split; [|split].
  - intros ->. reflexivity.
  - intros Ho. split.
    + destruct (Dict.get d "LimitedTaxonomy") as [raw|]; run; [|eauto].
      destruct (new LimitedTaxonomy (underscore raw)); run; [eauto|].
      rewrite Ho. run. eauto.
    + intros raw inst -> Hnew. run. rewrite Hnew. run. rewrite Ho. reflexivity.
  - intros r.
    destruct (Dict.get d "LimitedTaxonomy") as [raw|]; run; [|discriminate].
    destruct (new LimitedTaxonomy (underscore raw)) as [e|inst] eqn:Hnew; run;
      [discriminate|].
    destruct (Dict.get d "FilterOptions") as [fo|]; run; [|discriminate].
    destruct (iter fo) as [e|items] eqn:Hit; run; [discriminate|].
    destruct (mapM _ items) as [e|opts] eqn:Hm; run; [discriminate|].
    intros H. injection H as <-. cbn [KeywordSearchResult.limited_taxonomy
                                      KeywordSearchResult.filter_options].
    split; [eauto|]. split; [eauto 6|].
    intros Hp h. unfold KeywordSearchResult.products, get, Dict.get_default.
    cbn [KeywordSearchResult._result]. rewrite Hp. reflexivity.
Qed.

Lemma result_needs_taxonomy_and_options_witness :
  KeywordSearchResult.__init__ (PDict [("FilterOptions", PList [])])
  = inl (KeyError "LimitedTaxonomy")
  /\ KeywordSearchResult.__init__ (PDict [("LimitedTaxonomy", PDict [])])
     = inl (KeyError "FilterOptions")
  /\ KeywordSearchResult.__init__ (PDict response_without_products)
     = inr built_without_products
  /\ forall h, KeywordSearchResult.products built_without_products h = inr ([], h).
Proof.
  split; [|split; [|split]].
  - exact (proj1 (result_needs_taxonomy_and_options [("FilterOptions", PList [])]) eq_refl).
  - exact (proj2 (proj1 (proj2 (result_needs_taxonomy_and_options
                                  [("LimitedTaxonomy", PDict [])])) eq_refl)
             (PDict []) _ eq_refl eq_refl).
  - reflexivity.
  - exact (proj2 (proj2 (proj2 (proj2 (result_needs_taxonomy_and_options
                                         response_without_products))
                                 built_without_products eq_refl)) eq_refl).
Defined.


(** ** Sanity checks of the embedded library functions *)

Example camelize_device_type : Inflection.camelize "device_type" = "DeviceType".
Proof. reflexivity. Qed.

Example underscore_device_type : Inflection.underscore "DeviceType" = "device_type".
Proof. reflexivity. Qed.

Example underscore_acronym : Inflection.underscore "IOError" = "io_error".
Proof. reflexivity. Qed.

Example camelize_not_inverse :
  Inflection.camelize (Inflection.underscore "IOError") = "IoError".
Proof. reflexivity. Qed.

Example underscore_dash : Inflection.underscore "some-Thing" = "some_thing".
Proof. reflexivity. Qed.

Example int_of_str_samples :
  map int_of_str [" 42 "; "-7"; "1_000"; "1__0"; "_1"; "4 2"; ""; "+"; "007"]
  = [Some 42%Z; Some (-7)%Z; Some 1000%Z; None; None; None; None; None; Some 7%Z].
Proof. reflexivity. Qed.

Example str_of_int_samples : map str_of_int [0%Z; 42%Z; (-7)%Z] = ["0"; "42"; "-7"].
Proof. reflexivity. Qed.

Example new_of_non_mappings :
  new Sort (PList [PInt 1]) = inl IndexError
  /\ new Sort (PList [PNone]) = inl TypeError
  /\ new Sort (PInt 3) = inl TypeError
  /\ new Sort (PStr "ab") = inl TypeError
  /\ new Sort (PList []) = new Sort (PDict []).
Proof. repeat split. Qed.

Example wire_keys :
  map Inflection.underscore
      ["ProductCount"; "NewProductCount"; "ParameterId"; "ValueId"; "Parameter";
       "Value"; "Children"; "Values"]
  = ["product_count"; "new_product_count"; "parameter_id"; "value_id";
     "parameter"; "value"; "children"; "values"].
Proof. reflexivity. Qed.

(* ===================================================================== *)
(** * Further properties *)
(* ===================================================================== *)

(** ** BaseModel: the list entry points *)

Lemma mapM_app_raise {A B} (f : A -> py B) l1 x l2 e :
  Forall (fun a => exists b, f a = inr b) l1 ->
  f x = inl e ->
  mapM f (l1 ++ x :: l2) = inl e.
Proof.
  intros H Hx. induction H as [|a l1 (b & Ha) _ IH]; cbn [app mapM].
  - now rewrite Hx.
  - now rewrite Ha, IH.
Qed.

Lemma mapM_is_valid cls (list_ : list pyval) :
  Forall (constructs cls) list_ ->
  mapM (fun dict_ => _ <- new cls dict_ ;; ret (OBoundMethod cls "is_valid")) list_
  = inr (map (fun _ => OBoundMethod cls "is_valid") list_).
Proof.
  induction 1 as [|dict_ l (inst & Hnew) _ IH]; [reflexivity|].
  cbn [mapM map]. rewrite Hnew, IH. reflexivity.
Qed.

(** X1: [is_valid_list] answers True for every list whose elements can all
    be constructed, whether or not they validate (the attribute [is_valid]
    is read, not called), and False as soon as the construction of an
    element raises [DataError]. *)
Theorem is_valid_list_only_constructs (cls : model_class) :
  (forall list_, Forall (constructs cls) list_ ->
                 is_valid_list cls list_ = inr true)
  /\ (forall l1 x l2 r, Forall (constructs cls) l1 ->
        new cls x = inl (DataError r) ->
        is_valid_list cls (l1 ++ x :: l2) = inr false).
Proof.
  split.
  - intros list_ H. unfold is_valid_list. rewrite (mapM_is_valid cls list_ H). run.
    f_equal. clear. induction list_ as [|x l IH]; [reflexivity|].
    cbn [map forallb obj_truthy]. exact IH.
  - intros l1 x l2 r H Hx. unfold is_valid_list.
    rewrite (mapM_app_raise _ l1 x l2 (DataError r)).
    + reflexivity.
    + rewrite Forall_forall in H |- *. intros a Ha.
      destruct (H a Ha) as (inst & ->). now eexists.
    + now rewrite Hx.
Qed.

Lemma is_valid_list_only_constructs_witness :
  is_valid ParametricFilters invalid_filter = inr false
  /\ is_valid_list ParametricFilters [valid_filter; invalid_filter] = inr true
  /\ is_valid_list ParametricFilters [valid_filter; unreadable_filter; valid_filter]
     = inr false.
Proof.
  split; [reflexivity|]. split.
  - apply (proj1 (is_valid_list_only_constructs ParametricFilters)).
    repeat constructor; eexists; reflexivity.
  - apply (proj2 (is_valid_list_only_constructs ParametricFilters)
             [valid_filter] unreadable_filter [valid_filter]
             [("parameter_id", Messages [MsgIntCoerce])]).
    + repeat constructor; eexists; reflexivity.
    + reflexivity.
Defined.

(** X2: when the construction of an element raises [DataError] (an entry
    that cannot be converted, a key that is no field), [errors_list] returns
    the messages of the first such element alone; any other exception of a
    construction reaches the caller. *)
Theorem errors_list_first_failure (cls : model_class)
        (l1 : list pyval) (x : pyval) (l2 : list pyval) :
  Forall (constructs cls) l1 ->
  (forall r, new cls x = inl (DataError r) ->
             errors_list cls (l1 ++ x :: l2) = inr (OErrors (FieldErrors r)))
  /\ (new cls x = inl TypeError ->
      errors_list cls (l1 ++ x :: l2) = inl TypeError).
Proof.
  intros H.
  assert (H' : Forall (fun a => exists b,
                 (_ <- new cls a ;; ret (OBoundMethod cls "errors")) = inr b) l1).
  { rewrite Forall_forall in H |- *. intros a Ha.
    destruct (H a Ha) as (inst & ->). now eexists. }
  split; [intros r Hx | intros Hx]; unfold errors_list.
  - rewrite (mapM_app_raise _ l1 x l2 (DataError r) H'); [reflexivity|].
    now rewrite Hx.
  - rewrite (mapM_app_raise _ l1 x l2 TypeError H'); [reflexivity|].
    now rewrite Hx.
Qed.

Lemma errors_list_first_failure_witness :
  errors_list ParametricFilters [invalid_filter; unreadable_filter; valid_filter]
  = inr (OErrors (FieldErrors [("parameter_id", Messages [MsgIntCoerce])]))
  /\ errors_list ParametricFilters [valid_filter; PInt 3] = inl TypeError.
Proof.
  split.
  - apply (proj1 (errors_list_first_failure ParametricFilters
                    [invalid_filter] unreadable_filter [valid_filter]
                    ltac:(repeat constructor; eexists; reflexivity))).
    reflexivity.
  - apply (proj2 (errors_list_first_failure ParametricFilters
                    [valid_filter] (PInt 3) []
                    ltac:(repeat constructor; eexists; reflexivity))).
    reflexivity.
Defined.

(** ** KeywordSearchResult: the filter options *)

Lemma mapM_Forall2 {A B} (f : A -> py B) l : forall l',
  mapM f l = inr l' -> Forall2 (fun x y => f x = inr y) l l'.
Proof.
  induction l as [|x l IH]; intros l'; cbn [mapM].
  - intros H. injection H as <-. constructor.
  - destruct (f x) as [e|y] eqn:Hx; run; [discriminate|].
    destruct (mapM f l) as [e|ys]; run; [discriminate|].
    intros H. injection H as <-. constructor; [exact Hx | now apply IH].
Qed.

(** X3: a constructed search result keeps the raw response, and its filter
    options are the raw FilterOptions items, each constructed from its
    underscored mapping, in the same order and number. *)
Theorem filter_options_in_order (d : list (string * pyval))
        (raw_options : list pyval) (r : KeywordSearchResult.t) :
  KeywordSearchResult.__init__ (PDict d) = inr r ->
  Dict.get d "FilterOptions" = Some (PList raw_options) ->
  KeywordSearchResult._result r = PDict d
  /\ length (KeywordSearchResult.filter_options r) = length raw_options
  /\ Forall2 (fun o inst => new FilterOption (underscore o) = inr inst)
             raw_options (KeywordSearchResult.filter_options r).
Proof.
  unfold KeywordSearchResult.__init__, getitem. intros H Ho. rewrite Ho in H.
  destruct (Dict.get d "LimitedTaxonomy") as [raw|]; run; [|discriminate].
  revert H. run.
  destruct (new LimitedTaxonomy (underscore raw)) as [e|inst]; run; [discriminate|].
  cbn [iter]. run.
  destruct (mapM _ raw_options) as [e|opts] eqn:Hm; run; [discriminate|].
  intros H. injection H as <-.
  cbn [KeywordSearchResult._result KeywordSearchResult.filter_options].
  pose proof (mapM_Forall2 _ _ _ Hm) as HF.
  split; [reflexivity|]. split; [|exact HF].
  symmetry. exact (Forall2_length HF).
Qed.

Lemma filter_options_in_order_witness :
  KeywordSearchResult._result built_without_products = PDict response_without_products
  /\ length (KeywordSearchResult.filter_options built_without_products) = 1
  /\ Forall2 (fun o inst => new FilterOption (underscore o) = inr inst)
       [PDict [("ParameterId", PInt 7); ("Parameter", PStr "Packaging");
               ("Values", PList [PDict [("ValueId", PStr "1"); ("Value", PStr "Tape")]])]]
       (KeywordSearchResult.filter_options built_without_products).
Proof.
  exact (filter_options_in_order response_without_products _ built_without_products
           eq_refl eq_refl).
Defined.

(** ** Part: nested accessors *)



(** X5: [Part.standard_pricing] wraps what iterating the raw StandardPricing
    entry yields: one wrapper per item of a list, each holding its raw item,
    in order, and nothing when the entry is absent; reading [breakquantity]
    from the wrappers is reading BreakQuantity (default 0) from the raw
    items.  A null or numeric entry raises [TypeError]. *)
Theorem standard_pricing_items (d : list (string * pyval)) :
  (Dict.get d "StandardPricing" = None ->
   Part.standard_pricing (Part.__init__ (PDict d)) = inr [])
  /\ (forall items, Dict.get d "StandardPricing" = Some (PList items) ->
      exists breaks,
        Part.standard_pricing (Part.__init__ (PDict d)) = inr breaks
        /\ map PriceBreak._pricebreak breaks = items
        /\ length breaks = length items
        /\ map PriceBreak.breakquantity breaks
           = map (fun item => get item "BreakQuantity" (PInt 0)) items)
  /\ (forall v, Dict.get d "StandardPricing" = Some v -> not_iterable v ->
      Part.standard_pricing (Part.__init__ (PDict d)) = inl TypeError).
Proof.
  unfold Part.standard_pricing, get, Dict.get_default. cbn [Part._part].
  split; [|split].
  - intros ->. reflexivity.
  - intros items ->. run. cbn [iter]. run. eexists. split; [reflexivity|].
    split; [rewrite map_map; apply map_id|].
    split; [apply length_map|]. rewrite map_map. reflexivity.
  - intros v -> Hv. run. destruct v; try contradiction; reflexivity.
Qed.

Lemma standard_pricing_items_witness :
  (exists breaks,
     Part.standard_pricing
       (Part.__init__ (PDict [("StandardPricing",
                               PList [PDict [("BreakQuantity", PInt 100)]; PDict []])]))
     = inr breaks
     /\ map PriceBreak._pricebreak breaks
        = [PDict [("BreakQuantity", PInt 100)]; PDict []]
     /\ length breaks = 2
     /\ map PriceBreak.breakquantity breaks = [inr (PInt 100); inr (PInt 0)])
  /\ Part.standard_pricing (Part.__init__ (PDict [("StandardPricing", PNone)]))
     = inl TypeError.
Proof.
  split.
  - exact (proj1 (proj2 (standard_pricing_items
             [("StandardPricing",
               PList [PDict [("BreakQuantity", PInt 100)]; PDict []])]))
             [PDict [("BreakQuantity", PInt 100)]; PDict []] eq_refl).
  - exact (proj2 (proj2 (standard_pricing_items [("StandardPricing", PNone)]))
             PNone eq_refl I).
Defined.

(** X6: the defaults stand for absent keys only.  An entry that is present
    is returned as it is, None included; [manufacturer] is the Value entry
    of the Manufacturer mapping (the empty text when either is absent), and
    [category] / [family] wrap the raw Category / Family entry, so that [id]
    and [text] read its Id and Text. *)
Theorem present_entries_returned (d : list (string * pyval)) :
  (forall v, Dict.get d "MinimumOrderQuantity" = Some v ->
             Part.moq (Part.__init__ (PDict d)) = inr v)
  /\ (forall v, Dict.get d "ManufacturerPartNumber" = Some v ->
                Part.mpn (Part.__init__ (PDict d)) = inr v)
  /\ (forall v, Dict.get d "QuantityAvailable" = Some v ->
                Part.in_stock (Part.__init__ (PDict d)) = inr v)
  /\ (forall m, Dict.get d "Manufacturer" = Some (PDict m) ->
                Part.manufacturer (Part.__init__ (PDict d))
                = inr (Dict.get_default m "Value" (PStr "")))
  /\ (forall m, Dict.get d "Category" = Some (PDict m) ->
                (c <- Part.category (Part.__init__ (PDict d)) ;; IdTextPair.id c)
                = inr (Dict.get_default m "Id" (PStr ""))
                /\ (c <- Part.category (Part.__init__ (PDict d)) ;; IdTextPair.text c)
                   = inr (Dict.get_default m "Text" (PStr "")))
  /\ (forall m, Dict.get d "Family" = Some (PDict m) ->
                (c <- Part.family (Part.__init__ (PDict d)) ;; IdTextPair.id c)
                = inr (Dict.get_default m "Id" (PStr ""))
                /\ (c <- Part.family (Part.__init__ (PDict d)) ;; IdTextPair.text c)
                   = inr (Dict.get_default m "Text" (PStr ""))).
Proof.
  unfold Part.moq, Part.mpn, Part.in_stock, Part.manufacturer, Part.category,
    Part.family, PidVid.value, IdTextPair.id, IdTextPair.text, get,
    Dict.get_default.
  cbn [Part._part].
  split; [|split; [|split; [|split; [|split]]]]; intros v Hv; rewrite Hv;
    try split; reflexivity.
Qed.

Lemma present_entries_returned_witness :
  Part.moq (Part.__init__ (PDict [("MinimumOrderQuantity", PNone)])) = inr PNone
  /\ Part.manufacturer
       (Part.__init__ (PDict [("Manufacturer", PDict [("Value", PNone)])]))
     = inr PNone
  /\ Part.manufacturer
       (Part.__init__ (PDict [("Manufacturer", PDict [("ValueId", PInt 3)])]))
     = inr (PStr "").
Proof.
  split; [|split].
  - exact (proj1 (present_entries_returned [("MinimumOrderQuantity", PNone)])
             PNone eq_refl).
  - exact (proj1 (proj2 (proj2 (proj2 (present_entries_returned
             [("Manufacturer", PDict [("Value", PNone)])])))) _ eq_refl).
  - exact (proj1 (proj2 (proj2 (proj2 (present_entries_returned
             [("Manufacturer", PDict [("ValueId", PInt 3)])])))) _ eq_refl).
Defined.

(** X7: the accessors of Part can raise.  [digikey_url] raises [TypeError]
    when the PartUrl entry is present and not a text (a JSON null, a
    number); [manufacturer] raises [AttributeError] when the Manufacturer
    entry is present and not a mapping; and every accessor raises
    [AttributeError] when the Part wraps a value that is not a mapping. *)
Theorem part_accessor_faults :
  (forall d v, Dict.get d "PartUrl" = Some v -> ~ is_text v ->
     Part.digikey_url (Part.__init__ (PDict d)) = inl TypeError)
  /\ (forall d v, Dict.get d "Manufacturer" = Some v -> ~ is_mapping v ->
        Part.manufacturer (Part.__init__ (PDict d)) = inl (AttributeError "get"))
  /\ (forall raw, ~ is_mapping raw ->
        Part.moq (Part.__init__ raw) = inl (AttributeError "get")
        /\ Part.mpn (Part.__init__ raw) = inl (AttributeError "get")
        /\ Part.part_status (Part.__init__ raw) = inl (AttributeError "get")
        /\ Part.digikey_pn (Part.__init__ raw) = inl (AttributeError "get")
        /\ Part.digikey_url (Part.__init__ raw) = inl (AttributeError "get")
        /\ Part.in_stock (Part.__init__ raw) = inl (AttributeError "get")
        /\ Part.description_product (Part.__init__ raw) = inl (AttributeError "get")
        /\ Part.description_detailed (Part.__init__ raw) = inl (AttributeError "get")
        /\ Part.datasheet (Part.__init__ raw) = inl (AttributeError "get")
        /\ Part.manufacturer (Part.__init__ raw) = inl (AttributeError "get")
        /\ Part.category (Part.__init__ raw) = inl (AttributeError "get")
        /\ Part.family (Part.__init__ raw) = inl (AttributeError "get")
        /\ Part.standard_pricing (Part.__init__ raw) = inl (AttributeError "get")
        /\ Part.parameters (Part.__init__ raw) = inl (AttributeError "get")).
Proof.
  split; [|split].
  - intros d v Hv Ht. unfold Part.digikey_url, get, Dict.get_default.
    cbn [Part._part]. rewrite Hv. run.
    destruct v; try reflexivity. now destruct Ht.
  - intros d v Hv Hm. unfold Part.manufacturer, PidVid.value, get, Dict.get_default.
    cbn [Part._part]. rewrite Hv. run. cbn [PidVid._pidvid].
    destruct v; try reflexivity. now destruct Hm.
  - intros raw Hraw.
    destruct raw; try (now destruct Hraw); repeat split; reflexivity.
Qed.

Lemma part_accessor_faults_witness :
  Part.digikey_url (Part.__init__ (PDict [("PartUrl", PNone)])) = inl TypeError
  /\ Part.manufacturer (Part.__init__ (PDict [("Manufacturer", PNone)]))
     = inl (AttributeError "get")
  /\ Part.moq (Part.__init__ PNone) = inl (AttributeError "get").
Proof.
  split; [|split].
  - exact (proj1 part_accessor_faults [("PartUrl", PNone)] PNone eq_refl (fun H => H)).
  - exact (proj1 (proj2 part_accessor_faults) [("Manufacturer", PNone)] PNone
             eq_refl (fun H => H)).
  - exact (proj1 (proj2 (proj2 part_accessor_faults) PNone (fun H => H))).
Defined.

(** ** recursive_underscore: normal form and idempotence *)

Lemma fold_char_lowered c : lowered_char (fold_char c) = true.
Proof. ascii_cases c. Qed.

Lemma lowered_char_facts c :
  lowered_char c = true ->
  Inflection.is_upper c = false /\ fold_char c = c.
Proof. ascii_cases c. Qed.

Lemma underscore_fold k :
  Inflection.underscore k
  = Inflection.map_string fold_char
      (Inflection.sub_boundary (Inflection.sub_acronym (String.length k) k)).
Proof.
  unfold Inflection.underscore, Inflection.replace_dash.
  now rewrite map_string_compose.
Qed.

Lemma map_fold_lowered s : lowered (Inflection.map_string fold_char s) = true.
Proof.
  unfold lowered. induction s as [|c s IH]; [reflexivity|].
  cbn [Inflection.map_string all_chars]. now rewrite fold_char_lowered, IH.
Qed.

Lemma underscore_lowered k : lowered (Inflection.underscore k) = true.
Proof. rewrite underscore_fold. apply map_fold_lowered. Qed.

Lemma lowered_calm s : lowered s = true -> calm s = true.
Proof.
  unfold lowered. induction s as [|a s IH]; [reflexivity|].
  cbn [all_chars]. intros H. apply andb_prop in H as [Ha Hs].
  rewrite calm_cons; [now apply IH|].
  now destruct (lowered_char_facts a Ha).
Qed.

Lemma lowered_sub_boundary s : lowered s = true -> Inflection.sub_boundary s = s.
Proof.
  unfold lowered. induction s as [|a s IH]; [reflexivity|].
  cbn [all_chars]. intros H. apply andb_prop in H as [Ha Hs].
  cbn [Inflection.sub_boundary]. destruct s as [|b s]; [reflexivity|].
  pose proof Hs as Hs'. cbn [all_chars] in Hs'. apply andb_prop in Hs' as [Hb _].
  destruct (lowered_char_facts b Hb) as (-> & _).
  rewrite andb_false_r. now rewrite (IH Hs).
Qed.

Lemma lowered_map_fold s : lowered s = true -> Inflection.map_string fold_char s = s.
Proof.
  unfold lowered. induction s as [|a s IH]; [reflexivity|].
  cbn [all_chars Inflection.map_string]. intros H.
  apply andb_prop in H as [Ha Hs].
  destruct (lowered_char_facts a Ha) as (_ & ->). now rewrite (IH Hs).
Qed.

Lemma underscore_fixed k : lowered k = true -> Inflection.underscore k = k.
Proof.
  intros H. rewrite underscore_fold.
  rewrite sub_acronym_calm by now apply lowered_calm.
  now rewrite lowered_sub_boundary, lowered_map_fold.
Qed.

Lemma set_In {V} (d : list (string * V)) k v kv :
  In kv (Dict.set d k v) -> kv = (k, v) \/ In kv d.
Proof.
  induction d as [|[k' v'] d IH]; cbn [Dict.set].
  - intros [<- | []]. now left.
  - destruct (String.eqb_spec k' k) as [->|_].
    + intros [<- | H]; [now left | right; now right].
    + intros [<- | H]; [right; now left|].
      destruct (IH H) as [-> | H']; [now left | right; now right].
Qed.

Lemma set_mem {V} (d : list (string * V)) k v k0 :
  Dict.mem k0 (Dict.keys (Dict.set d k v))
  = Dict.mem k0 (Dict.keys d) || String.eqb k0 k.
Proof.
  unfold Dict.keys. induction d as [|[k' v'] d IH]; cbn [Dict.set map fst].
  - rewrite mem_cons. cbn. now rewrite orb_false_r.
  - destruct (String.eqb_spec k' k) as [->|Hne]; cbn [map fst]; rewrite !mem_cons.
    + destruct (String.eqb k0 k); [reflexivity | now rewrite orb_false_r].
    + rewrite IH. now rewrite orb_assoc.
Qed.

Lemma set_nodup {V} (d : list (string * V)) k v :
  Dict.nodup_keys (Dict.keys d) = true ->
  Dict.nodup_keys (Dict.keys (Dict.set d k v)) = true.
Proof.
  induction d as [|[k' v'] d IH]; [reflexivity|].
  cbn [Dict.set]. destruct (String.eqb_spec k' k) as [->|Hne]; [trivial|].
  unfold Dict.keys in *. cbn [map fst Dict.nodup_keys]. intros H.
  apply andb_prop in H as [Hm Hn]. rewrite (IH Hn), andb_true_r.
  fold (Dict.keys (Dict.set d k v)). rewrite set_mem.
  apply negb_true_iff in Hm. unfold Dict.keys. rewrite Hm.
  apply String.eqb_neq in Hne. now rewrite Hne.
Qed.

Lemma of_items_sound {V} (items : list (string * V)) :
  Dict.nodup_keys (Dict.keys (Dict.of_items items)) = true
  /\ forall kv, In kv (Dict.of_items items) -> In kv items.
Proof.
  unfold Dict.of_items.
  assert (H : forall acc : list (string * V),
    Dict.nodup_keys (Dict.keys acc) = true ->
    Dict.nodup_keys
      (Dict.keys (fold_left (fun a kv => Dict.set a (fst kv) (snd kv)) items acc)) = true
    /\ forall kv,
         In kv (fold_left (fun a kv => Dict.set a (fst kv) (snd kv)) items acc) ->
         In kv acc \/ In kv items).
  { induction items as [|[k v] items IH]; intros acc Hacc; cbn [fold_left fst snd].
    - split; [assumption | now left].
    - destruct (IH (Dict.set acc k v) (set_nodup acc k v Hacc)) as [Hn Hin].
      split; [exact Hn|]. intros kv Hkv.
      destruct (Hin kv Hkv) as [H | H]; [|right; now right].
      destruct (set_In _ _ _ _ H) as [-> | H']; [right; now left | now left]. }
  destruct (H [] eq_refl) as [Hn Hin]. split; [exact Hn|].
  intros kv Hkv. now destruct (Hin kv Hkv).
Qed.

(** X8: [recursive_underscore] brings every value to a normal form: no key
    of the result has a capital letter or a dash, and applying the transform
    again changes nothing.  This holds for every value, whatever its keys. *)
Theorem recursive_underscore_idempotent (v : pyval) :
  all_keys lowered (recursive_underscore v) = true
  /\ recursive_underscore (recursive_underscore v) = recursive_underscore v.
Proof.
  induction v as [| | | |l IH|d IH] using pyval_nested_ind;
    try (split; reflexivity); cbn [recursive_underscore all_keys].
  - rewrite Forall_forall in IH. split.
    + rewrite forallb_forall. intros x Hx.
      apply in_map_iff in Hx as (y & <- & Hy). exact (proj1 (IH y Hy)).
    + f_equal. rewrite map_map. apply map_ext_in.
      intros y Hy. exact (proj2 (IH y Hy)).
  - rewrite Forall_forall in IH.
    set (L := map (fun kv => (Inflection.underscore (fst kv),
                              recursive_underscore (snd kv))) d).
    destruct (of_items_sound L) as [Hn Hin].
    assert (HL : forall kv, In kv (Dict.of_items L) ->
               lowered (fst kv) = true
               /\ all_keys lowered (snd kv) = true
               /\ recursive_underscore (snd kv) = snd kv).
    { intros kv Hkv. apply Hin in Hkv. unfold L in Hkv.
      apply in_map_iff in Hkv as (kv0 & <- & H0). cbn [fst snd].
      split; [apply underscore_lowered|]. exact (IH kv0 H0). }
    split.
    + rewrite forallb_forall. intros kv Hkv.
      destruct (HL kv Hkv) as (-> & -> & _). reflexivity.
    + f_equal.
      assert (E : map (fun kv => (Inflection.underscore (fst kv),
                                  recursive_underscore (snd kv)))
                      (Dict.of_items L) = Dict.of_items L).
      { rewrite <- (map_id (Dict.of_items L)) at 2. apply map_ext_in.
        intros [k x] Hkv. destruct (HL _ Hkv) as (Hk & _ & Hx).
        cbn [fst snd] in *. now rewrite (underscore_fixed k Hk), Hx. }
      rewrite E. now apply of_items_nodup.
Qed.

(** ** The two conventions are exchanged by the transforms *)

Lemma split_capitals_lowdig r ps :
  all_chars is_lowdig r = true -> r <> EmptyString ->
  forallb starts_upper ps = true ->
  forall x, split_capitals x = ps ->
  split_capitals (r ++ x) = r :: ps.
Proof.
  intros Hr Hne Hps x Hx. induction r as [|c r IH]; [congruence|].
  cbn [append split_capitals]. cbn [all_chars] in Hr.
  apply andb_prop in Hr as [Hc Hr].
  destruct r as [|c' r].
  - cbn [append]. rewrite Hx. destruct ps as [|p ps]; [reflexivity|].
    cbn [forallb] in Hps. apply andb_prop in Hps as [-> _]. reflexivity.
  - rewrite (IH Hr ltac:(discriminate)).
    cbn [starts_upper]. cbn [all_chars] in Hr. apply andb_prop in Hr as [Hc' _].
    now destruct (lowdig_char c' Hc') as (-> & _).
Qed.

Lemma split_capitals_cat ws :
  forallb is_word ws = true ->
  split_capitals (cat (map cap ws)) = map cap ws
  /\ forallb starts_upper (map cap ws) = true
  /\ forallb is_capword (map cap ws) = true.
Proof.
  induction ws as [|w ws IH]; [now repeat split|].
  cbn [forallb]. intros H. apply andb_prop in H as [Hw Hws].
  destruct (IH Hws) as (Hs & Hu & Hc).
  destruct (is_word_inv w Hw) as (c & d & r & -> & Hlc & Hr).
  destruct (lower_char c Hlc) as (Hup & _).
  cbn [map cat cap forallb starts_upper is_capword].
  rewrite Hup, Hu, Hc.
  pose proof Hr as Hr0. cbn [all_chars] in Hr0.
  apply andb_prop in Hr0 as [Hd0 Hr0]. rewrite Hd0, Hr0.
  split; [|split; reflexivity].
  change (String (Inflection.upper c) (String d r) ++ cat (map cap ws))%string
    with (String (Inflection.upper c) (String d r ++ cat (map cap ws)))%string.
  cbn [split_capitals].
  rewrite (split_capitals_lowdig (String d r) (map cap ws) Hr ltac:(discriminate)
             Hu _ Hs).
  cbn [starts_upper].
  now destruct (lowdig_char d Hd0) as (-> & _).
Qed.

Lemma split_underscore_lowdig r x :
  all_chars is_lowdig r = true ->
  split_underscore (r ++ x)
  = match split_underscore x with
    | w :: ws => (r ++ w)%string :: ws
    | [] => [r]
    end.
Proof.
  intros Hr. induction r as [|c r IH].
  - cbn [append]. now destruct (split_underscore_cons x) as (w & ws & ->).
  - cbn [all_chars] in Hr. apply andb_prop in Hr as [Hc Hr].
    cbn [append split_underscore].
    destruct (lowdig_char c Hc) as (_ & _ & -> & _).
    rewrite (IH Hr).
    now destruct (split_underscore_cons x) as (w & ws & ->).
Qed.

Lemma word_lowdig w : is_word w = true -> all_chars is_lowdig w = true.
Proof.
  intros Hw. destruct (is_word_inv w Hw) as (c & d & r & -> & Hc & Hr).
  cbn [all_chars] in *. rewrite Hr. unfold is_lowdig at 1. now rewrite Hc.
Qed.

Lemma split_underscore_join ws :
  ws <> [] -> forallb is_word ws = true ->
  split_underscore (join_underscore ws) = ws.
Proof.
  destruct ws as [|w ws]; [congruence|]. intros _.
  revert w. induction ws as [|w' ws IH]; intros w; cbn [forallb];
    intros H; apply andb_prop in H as [Hw Hws]; cbn [join_underscore map cat].
  - rewrite split_underscore_lowdig by now apply word_lowdig.
    cbn [split_underscore]. now rewrite sapp_nil.
  - rewrite split_underscore_lowdig by now apply word_lowdig.
    cbn [append split_underscore].
    change (Ascii.eqb Inflection.underscore_char Inflection.underscore_char) with true.
    cbv iota. specialize (IH w' Hws). cbn [join_underscore] in IH. rewrite IH.
    now rewrite sapp_nil.
Qed.

Lemma camelize_snake_key k :
  snake_key k = true -> camel_key (Inflection.camelize k) = true.
Proof.
  unfold snake_key. intros H.
  destruct (split_underscore_cons k) as (w & ws & E).
  pose proof (join_split_underscore k) as Hj. rewrite E in H, Hj. rewrite <- Hj.
  rewrite camelize_join by congruence.
  destruct (split_capitals_cat (w :: ws) H) as (Hs & _ & Hc).
  unfold camel_key. rewrite Hs, Hc, andb_true_r.
  cbn [forallb] in H. apply andb_prop in H as [Hw _].
  now destruct (is_word_inv w Hw) as (c & d & r & -> & _).
Qed.

Lemma underscore_camel_key k :
  camel_key k = true -> snake_key (Inflection.underscore k) = true.
Proof.
  unfold camel_key. intros H. apply andb_prop in H as [Hne Hps].
  destruct (capwords_uncap _ Hps) as (Hws & Hcap).
  assert (Hnil : map uncap (split_capitals k) <> []).
  { intros E. rewrite E in Hcap. simpl in Hcap.
    pose proof (cat_split_capitals k) as Hk. rewrite <- Hcap in Hk.
    simpl in Hk. subst k. discriminate. }
  pose proof (cat_split_capitals k) as Hk.
  rewrite <- Hcap in Hk. rewrite <- Hk.
  rewrite underscore_cat by assumption.
  unfold snake_key. now rewrite split_underscore_join.
Qed.

Section Exchange.
Variables f g : string -> string.
Variables p q : string -> bool.
Hypothesis g_f : forall k, p k = true -> g (f k) = k.
Hypothesis q_f : forall k, p k = true -> q (f k) = true.

Lemma rekey_rename v :
  dict_wf v = true -> all_keys p v = true -> rekey f v = rename f v.
Proof.
  induction v as [| | | |l IH|d IH] using pyval_nested_ind;
    try reflexivity; cbn [dict_wf all_keys rekey rename]; intros Hwf Hk.
  - f_equal. rewrite forallb_forall in Hwf, Hk. rewrite Forall_forall in IH.
    apply map_ext_in. intros x Hx. now apply IH; [|apply Hwf|apply Hk].
  - apply andb_prop in Hwf as [Hnd Hwf].
    rewrite forallb_forall in Hwf, Hk. rewrite Forall_forall in IH.
    assert (Hkeys : forall k, In k (Dict.keys d) -> g (f k) = k).
    { intros k Hin. apply in_map_iff in Hin as (kv & <- & Hin).
      apply g_f. specialize (Hk kv Hin). now apply andb_prop in Hk as [Hk _]. }
    f_equal.
    rewrite (of_items_nodup (map _ d)).
    2:{ unfold Dict.keys. rewrite map_map. cbn [fst].
        rewrite <- (map_map fst f). now apply (nodup_keys_map f g). }
    apply map_ext_in. intros [k v] Hin. cbn [fst snd]. f_equal.
    specialize (Hk _ Hin). apply andb_prop in Hk as [_ Hk].
    apply (IH _ Hin); [exact (Hwf _ Hin) | exact Hk].
Qed.

Lemma rekey_exchange v :
  dict_wf v = true -> all_keys p v = true ->
  dict_wf (rekey f v) = true /\ all_keys q (rekey f v) = true.
Proof.
  induction v as [| | | |l IH|d IH] using pyval_nested_ind;
    try (split; reflexivity); cbn [dict_wf all_keys rekey]; intros Hwf Hk.
  - rewrite forallb_forall in Hwf, Hk. rewrite Forall_forall in IH.
    split; rewrite forallb_forall; intros x Hx;
      apply in_map_iff in Hx as (y & <- & Hy);
      now apply IH; [|apply Hwf|apply Hk].
  - apply andb_prop in Hwf as [Hnd Hwf].
    rewrite forallb_forall in Hwf, Hk. rewrite Forall_forall in IH.
    assert (Hkeys : forall k, In k (Dict.keys d) -> g (f k) = k).
    { intros k Hin. apply in_map_iff in Hin as (kv & <- & Hin).
      apply g_f. specialize (Hk kv Hin). now apply andb_prop in Hk as [Hk _]. }
    assert (Hn : Dict.nodup_keys
                   (Dict.keys (map (fun kv => (f (fst kv), rekey f (snd kv))) d))
                 = true).
    { unfold Dict.keys. rewrite map_map. cbn [fst].
      rewrite <- (map_map fst f). now apply (nodup_keys_map f g). }
    rewrite (of_items_nodup _ Hn), Hn. cbn [andb].
    split; rewrite forallb_forall; intros kv Hkv;
      apply in_map_iff in Hkv as (kv0 & <- & H0); cbn [fst snd];
      specialize (Hk kv0 H0); apply andb_prop in Hk as [Hk0 Hk1].
    + now apply IH; [|apply Hwf|].
    + rewrite (q_f _ Hk0). now apply IH; [|apply Hwf|].
Qed.
End Exchange.

(** X9: on values with distinct keys that follow the underscore
    convention, [recursive_camelize] replaces every key by its camelized
    name and touches nothing else: every entry stays, in its place, the
    new keys follow the camel convention and are again distinct.
    [recursive_underscore] does the same from the camel convention to the
    underscore convention. *)
Theorem conventions_exchanged :
  (forall m, dict_wf m = true -> all_keys snake_key m = true ->
             recursive_camelize m = rename Inflection.camelize m
             /\ dict_wf (rename Inflection.camelize m) = true
             /\ all_keys camel_key (rename Inflection.camelize m) = true)
  /\ (forall x, dict_wf x = true -> all_keys camel_key x = true ->
                recursive_underscore x = rename Inflection.underscore x
                /\ dict_wf (rename Inflection.underscore x) = true
                /\ all_keys snake_key (rename Inflection.underscore x) = true).
Proof.
  split; intros v Hwf Hk.
  - rewrite <- (rekey_rename _ _ snake_key snake_key_roundtrip v Hwf Hk).
    split; [apply recursive_camelize_rekey|].
    exact (rekey_exchange _ _ snake_key camel_key snake_key_roundtrip
             camelize_snake_key v Hwf Hk).
  - rewrite <- (rekey_rename _ _ camel_key camel_key_roundtrip v Hwf Hk).
    split; [apply recursive_underscore_rekey|].
    exact (rekey_exchange _ _ camel_key snake_key camel_key_roundtrip
             underscore_camel_key v Hwf Hk).
Qed.

Lemma conventions_exchanged_witness :
  (recursive_camelize snake_sample = camel_sample
   /\ dict_wf camel_sample = true
   /\ all_keys camel_key camel_sample = true)
  /\ (recursive_underscore camel_sample = snake_sample
      /\ dict_wf snake_sample = true
      /\ all_keys snake_key snake_sample = true).
Proof.
  split.
  - exact (proj1 conventions_exchanged snake_sample eq_refl eq_refl).
  - exact (proj2 conventions_exchanged camel_sample eq_refl eq_refl).
Defined.

(** X10: every field name declared by a model class is an
    underscore-convention key: camelizing it gives a camel-convention key
    and underscoring that gives the field name back. *)
Theorem field_names_roundtrip (c : model_class) (name : string) :
  In name (Dict.keys (fields_of c)) ->
  snake_key name = true
  /\ camel_key (Inflection.camelize name) = true
  /\ Inflection.underscore (Inflection.camelize name) = name.
Proof.
  intros Hin.
  assert (H : forallb snake_key (Dict.keys (fields_of c)) = true)
    by (destruct c; reflexivity).
  rewrite forallb_forall in H. specialize (H name Hin).
  split; [exact H|]. split; [now apply camelize_snake_key|].
  now apply snake_key_roundtrip.
Qed.

Lemma field_names_roundtrip_witness :
  snake_key "include_all_for_use_with_products" = true
  /\ camel_key (Inflection.camelize "include_all_for_use_with_products") = true
  /\ Inflection.underscore (Inflection.camelize "include_all_for_use_with_products")
     = "include_all_for_use_with_products".
Proof.
  apply (field_names_roundtrip PartDetailPostRequest).
  right. right. left. reflexivity.
Defined.

(** ** Constructed instances *)

Lemma set_not_nil {V} (d : list (string * V)) k v : Dict.set d k v <> [].
Proof.
  destruct d as [|[k' v'] d]; cbn [Dict.set]; [discriminate|].
  destruct (String.eqb k' k); discriminate.
Qed.

Lemma import_loop_fails entries : forall fs (a : report * list (string * native)) data,
  fst a <> [] ->
  fold_left
    (fun a nf =>
       match import_field entries (snd nf) (fst nf) with
       | inr n => (fst a, Dict.set (snd a) (fst nf) n)
       | inl e => (Dict.set (fst a) (fst nf) e, snd a)
       end) fs a <> ([], data).
Proof.
  induction fs as [|nf fs IH]; intros a data Ha; cbn [fold_left].
  - intros E. rewrite E in Ha. now apply Ha.
  - apply IH. destruct (import_field entries (snd nf) (fst nf));
      cbn [fst]; [apply set_not_nil | exact Ha].
Qed.

Lemma import_loop_keys entries : forall fs errs acc data,
  Dict.nodup_keys (Dict.keys acc ++ Dict.keys fs) = true ->
  fold_left
    (fun a nf =>
       match import_field entries (snd nf) (fst nf) with
       | inr n => (fst a, Dict.set (snd a) (fst nf) n)
       | inl e => (Dict.set (fst a) (fst nf) e, snd a)
       end) fs (errs, acc) = ([], data) ->
  Dict.keys data = Dict.keys acc ++ Dict.keys fs.
Proof.
  induction fs as [|[name f] fs IH]; intros errs acc data Hn; cbn [fold_left fst snd].
  - intros H. injection H as _ <-. unfold Dict.keys. cbn [map].
    now rewrite app_nil_r.
  - change (Dict.keys ((name, f) :: fs)) with (name :: Dict.keys fs) in *.
    destruct (import_field entries f name) as [e|n]; intros H.
    + exfalso. revert H. apply import_loop_fails. apply set_not_nil.
    + rewrite (set_fresh acc name n (nodup_keys_app _ _ _ Hn)) in H.
      assert (E : Dict.keys (acc ++ [(name, n)]) ++ Dict.keys fs
                  = Dict.keys acc ++ name :: Dict.keys fs).
      { unfold Dict.keys. rewrite map_app. cbn [map fst].
        now rewrite <- app_assoc. }
      rewrite <- E. apply (IH errs). now rewrite E. exact H.
Qed.

Lemma new_inv c raw inst :
  new c raw = inr inst ->
  exists d,
    convert fields_of (ModelType c no_options) (PDict d) = inr inst
    /\ (raw = PDict d \/ (truthy raw = false /\ d = [])).
Proof.
  unfold new, construct.
  destruct (truthy raw) eqn:Ht.
  - destruct raw as [| | | |l|d]; try discriminate.
    { run. destruct (index_keys _ l []); discriminate. }
    intros H. exists d. split; [|now left].
    destruct (convert fields_of (ModelType c no_options) (PDict d))
      as [[| |]|inst']; try discriminate.
    now injection H as <-.
  - intros H. exists []. split; [|now right].
    destruct (convert fields_of (ModelType c no_options) (PDict []))
      as [[| |]|inst']; try discriminate.
    now injection H as <-.
Qed.

Lemma convert_model_inv c o d inst :
  convert fields_of (ModelType c o) (PDict d) = inr inst ->
  exists data,
    inst = NModel c data
    /\ import_loop fields_of c (raw_entries c d) = ([], data).
Proof.
  cbn [convert]. fold (raw_entries c d).
  destruct (import_loop fields_of c (raw_entries c d)) as [[|e errs] data];
    [|discriminate].
  intros H. injection H as <-. now exists data.
Qed.

(** X11: an instance that was constructed holds one value for every field
    of its class, in declaration order and under no other name; so reading
    a declared field of a constructed instance never raises. *)
Theorem constructed_has_every_field (c : model_class) (raw : pyval) (inst : native) :
  new c raw = inr inst ->
  exists data,
    inst = NModel c data
    /\ Dict.keys data = Dict.keys (fields_of c)
    /\ forall name, In name (Dict.keys (fields_of c)) ->
                    exists v, getattr inst name = inr v.
Proof.
  intros H. destruct (new_inv c raw inst H) as (d & E & _).
  destruct (convert_model_inv c _ d inst E) as (data & -> & F).
  exists data. split; [reflexivity|].
  assert (K : Dict.keys data = Dict.keys (fields_of c)).
  { unfold import_loop in F. apply import_loop_keys in F; [exact F|].
    destruct c; reflexivity. }
  split; [exact K|].
  intros name Hin. rewrite <- K in Hin. apply mem_In in Hin.
  destruct (get_mem _ _ Hin) as (v & Hv). exists v.
  unfold getattr. now rewrite Hv.
Qed.

Lemma constructed_has_every_field_witness :
  exists data,
    NModel Sort [("sort_option", NNone); ("direction", NStr "Up");
                 ("sort_parameter_id", NNone)] = NModel Sort data
    /\ Dict.keys data = ["sort_option"; "direction"; "sort_parameter_id"]
    /\ forall name, In name ["sort_option"; "direction"; "sort_parameter_id"] ->
                    exists v, getattr (NModel Sort data) name = inr v.
Proof.
  destruct (constructed_has_every_field Sort (PDict [("direction", PStr "Up")]) _ eq_refl)
    as (data & E & K & G).
  exists data. injection E as <-. repeat split. exact G.
Defined.

(** ** Keys that are no field *)

Lemma get_set_other {V} (d : list (string * V)) k k' v :
  k' <> k -> Dict.get (Dict.set d k' v) k = Dict.get d k.
Proof.
  intros Hne. induction d as [|[k0 v0] d IH]; cbn [Dict.set Dict.get].
  - apply String.eqb_neq in Hne. now rewrite Hne.
  - destruct (String.eqb_spec k0 k') as [->|_]; cbn [Dict.get].
    + apply String.eqb_neq in Hne. now rewrite Hne.
    + now rewrite IH.
Qed.

Lemma get_not_mem {V} (d : list (string * V)) k :
  Dict.mem k (Dict.keys d) = false -> Dict.get d k = None.
Proof.
  unfold Dict.keys. induction d as [|[k0 v0] d IH]; [reflexivity|].
  cbn [map fst Dict.get]. rewrite mem_cons, String.eqb_sym.
  destruct (String.eqb k0 k); [discriminate | exact IH].
Qed.

Lemma rogue_reported c d k :
  In k (Dict.keys d) ->
  Dict.mem k (Dict.keys (fields_of c)) = false ->
  Dict.get (rogue_errors (raw_entries c d)) k = Some (Messages [MsgRogue]).
Proof.
  unfold Dict.keys at 1, rogue_errors. intros Hin Hk.
  pose proof (get_not_mem _ _ Hk) as Hf.
  induction d as [|[k0 v0] d IH]; [destruct Hin|].
  cbn [map fst raw_entries flat_map snd].
  destruct (String.eqb_spec k0 k) as [->|Hne].
  - rewrite Hf. cbn [app Dict.get]. now rewrite String.eqb_refl.
  - destruct Hin as [Heq | Hin]; [now destruct Hne|].
    destruct (Dict.get (fields_of c) k0); cbn [app Dict.get].
    + now apply IH.
    + apply String.eqb_neq in Hne. rewrite Hne. now apply IH.
Qed.

Lemma import_loop_keeps entries k x : forall fs (a : report * list (string * native)),
  Dict.mem k (Dict.keys fs) = false ->
  Dict.get (fst a) k = Some x ->
  Dict.get
    (fst (fold_left
            (fun a nf =>
               match import_field entries (snd nf) (fst nf) with
               | inr n => (fst a, Dict.set (snd a) (fst nf) n)
               | inl e => (Dict.set (fst a) (fst nf) e, snd a)
               end) fs a)) k = Some x.
Proof.
  induction fs as [|[name f] fs IH]; intros a Hk Ha; [exact Ha|].
  unfold Dict.keys in Hk. cbn [map fst] in Hk. rewrite mem_cons in Hk.
  apply orb_false_elim in Hk as [Hne Hk]. apply String.eqb_neq in Hne.
  cbn [fold_left fst snd]. apply IH; [exact Hk|].
  destruct (import_field entries f name); cbn [fst]; [|exact Ha].
  rewrite get_set_other; [exact Ha | congruence].
Qed.

(** X12: construction is strict.  A mapping with a key that is no field of
    the class cannot be constructed: [cls(dict_)] raises [DataError], whose
    report marks that key as a rogue field, and [errors] returns this
    report. *)
Theorem unknown_key_rejected (c : model_class) (d : list (string * pyval))
        (k : string) :
  In k (Dict.keys d) ->
  Dict.mem k (Dict.keys (fields_of c)) = false ->
  exists r,
    new c (PDict d) = inl (DataError r)
    /\ Dict.get r k = Some (Messages [MsgRogue])
    /\ errors c (PDict d) = inr (OErrors (FieldErrors r)).
Proof.
  intros Hin Hk.
  assert (E : (if truthy (PDict d) then PDict d else PDict []) = PDict d)
    by now destruct d.
  pose proof (import_loop_keeps (raw_entries c d) k _ (fields_of c)
                (rogue_errors (raw_entries c d), []) Hk
                (rogue_reported c d k Hin Hk)) as Hget.
  change (Dict.get (fst (import_loop fields_of c (raw_entries c d))) k
          = Some (Messages [MsgRogue])) in Hget.
  unfold errors, new, construct. rewrite E. cbn [convert].
  fold (raw_entries c d).
  destruct (import_loop fields_of c (raw_entries c d)) as [[|e errs] data].
  - discriminate.
  - exists (e :: errs). split; [reflexivity|]. split; [exact Hget | reflexivity].
Qed.

Lemma unknown_key_rejected_witness :
  exists r,
    new LimitedTaxonomy (PDict [("product_count", PInt 0); ("highlight", PStr "new")])
    = inl (DataError r)
    /\ Dict.get r "highlight" = Some (Messages [MsgRogue])
    /\ errors LimitedTaxonomy
         (PDict [("product_count", PInt 0); ("highlight", PStr "new")])
       = inr (OErrors (FieldErrors r)).
Proof.
  apply (unknown_key_rejected LimitedTaxonomy
           [("product_count", PInt 0); ("highlight", PStr "new")] "highlight").
  - right. left. reflexivity.
  - reflexivity.
Defined.

(** ** What [errors] and [is_valid] return *)

Lemma fold_left_inl {E A B} (step : sum E A -> B -> sum E A) l x :
  (forall y b, step (inl y) b = inl y) -> fold_left step l (inl x) = inl x.
Proof.
  intros H. induction l as [|b l IH]; [reflexivity|].
  cbn [fold_left]. now rewrite H.
Qed.

Lemma collect_validated_raise P l : forall i e,
  Forall (raises_only P) l -> collect_validated i l = inl e -> P e.
Proof.
  induction l as [|r l IH]; intros i e H; cbn [collect_validated]; [discriminate|].
  inversion H as [|? ? Hr Hl]; subst.
  destruct r as [v|er p|e0].
  - destruct (collect_validated (S i) l) as [e'|[errs data]] eqn:E; [|discriminate].
    intros H'. injection H' as <-. exact (IH _ _ Hl E).
  - destruct (collect_validated (S i) l) as [e'|[errs data]] eqn:E; [|discriminate].
    intros H'. injection H' as <-. exact (IH _ _ Hl E).
  - intros H'. injection H' as <-. exact Hr.
Qed.

Lemma list_validated_raise P l :
  Forall (raises_only P) l -> raises_only P (list_validated l).
Proof.
  intros H. unfold list_validated.
  destruct (collect_validated 0 l) as [e|[[|x errs] data]] eqn:E; try exact I.
  exact (collect_validated_raise P l 0 e H E).
Qed.

Lemma validate_fields_raise P c entries e :
  Forall (raises_only_entry P) entries ->
  validate_fields fields_of c entries = inl e -> P e.
Proof.
  intros H. unfold validate_fields.
  generalize (@nil (string * error_tree), @nil (string * native)).
  induction (fields_of c) as [|[name f] fs IH]; intros acc; [discriminate|].
  cbn [fold_left fst snd]. destruct acc as [errs data].
  unfold validate_field.
  destruct (Dict.get entries name) as [[r|]|] eqn:E; try apply IH.
  - destruct (get_In _ _ _ E) as (k & Hin).
    rewrite Forall_forall in H. specialize (H _ Hin).
    unfold raises_only_entry in H. cbn [snd] in H.
    destruct r as [v|er p|e0]; try apply IH.
    intros H'. clear IH. cbn [raises_only] in H.
    rewrite fold_left_inl in H' by reflexivity. now injection H' as <-.
  - destruct (required (field_options f)); apply IH.
Qed.

Lemma validate_model_raise c data e :
  validate_model fields_of validators_of c data = inl e -> escapes e.
Proof.
  unfold validate_model.
  generalize (@nil (string * error_tree), @nil string).
  induction (fields_of c) as [|[name f] fs IH]; intros acc; [discriminate|].
  cbn [fold_left fst]. destruct acc as [errs invalid].
  destruct (Dict.get data name) as [value|]; [|apply IH].
  destruct (Dict.get (validators_of c) name) as [validate_|]; [|apply IH].
  destruct (validate_ data value) as [[k| |a|m|m|r|]|v]; try apply IH;
    rewrite fold_left_inl by reflexivity; intros H; injection H as <-; exact I.
Qed.

Lemma validate_loop_raise c entries :
  Forall (raises_only_entry escapes) entries ->
  match validate_loop fields_of validators_of c entries with
  | Valid _ => True
  | Invalid (FieldErrors errs) _ => errs <> []
  | Invalid _ _ => False
  | Raised e => escapes e
  end.
Proof.
  intros H. unfold validate_loop.
  destruct (validate_fields fields_of c entries) as [e|[ferrs data]] eqn:Ef.
  - exact (validate_fields_raise escapes c entries e H Ef).
  - destruct (validate_model fields_of validators_of c data)
      as [e|[merrs invalid]] eqn:Em.
    + exact (validate_model_raise c data e Em).
    + match goal with
      | |- context [fold_left ?g merrs ferrs] =>
          destruct (fold_left g merrs ferrs); [exact I | discriminate]
      end.
Qed.

Lemma validate_value_raise n : forall f,
  raises_only escapes (validate_value fields_of validators_of f n).
Proof.
  induction n as [| | | |l IH|c' d IH] using native_nested_ind; intros f;
    destruct f as [o|o|o|elem o|c o]; cbn [validate_value];
    try exact I;
    try (match goal with |- raises_only _ (of_messages ?v ?m) =>
           now destruct m end).
  - apply list_validated_raise.
    rewrite Forall_forall in IH |- *. intros r Hr.
    apply in_map_iff in Hr as (item & <- & Hin).
    destruct item; try (now apply IH);
      now destruct (required (field_options elem)).
  - pose proof (validate_loop_raise c) as Hloop.
    match goal with
    | |- raises_only _ (validate_loop _ _ _ ?entries) =>
        specialize (Hloop entries);
        destruct (validate_loop fields_of validators_of c entries)
          as [v|er p|e]; try exact I; apply Hloop
    end.
    rewrite Forall_forall in IH |- *; intros [k r] Hr;
      apply in_map_iff in Hr as ([k' v] & E & Hin);
      cbn [fst snd] in E; injection E as <- <-;
      unfold raises_only_entry; cbn [snd];
      destruct (Dict.get (fields_of c) k') as [f'|] eqn:Ef; [|exact I];
      destruct v; try (apply (IH _ Hin));
      now destruct (required (field_options f')).
Qed.

Lemma validate_cases inst :
  match validate fields_of validators_of inst with
  | inr _ => True
  | inl (DataError errs) => errs <> []
  | inl e => escapes e
  end.
Proof.
  unfold validate. destruct inst as [| | | | |c data]; try exact I.
  pose proof (validate_loop_raise c) as Hloop.
  pose proof (validate_value_raise (NModel c data) (ModelType c no_options)) as Hr.
  cbn [validate_value] in Hr |- *.
  match goal with
  | |- context [validate_loop _ _ _ ?entries] =>
      specialize (Hloop entries);
      destruct (validate_loop fields_of validators_of c entries)
        as [v|[m|errs|ix] p|e]
  end; run; try exact I.
  - apply Hloop.
    rewrite Forall_forall. intros [k r] Hin.
    apply in_map_iff in Hin as ([k' v] & E & Hin).
    cbn [fst snd] in E. injection E as <- <-.
    unfold raises_only_entry. cbn [snd].
    destruct (Dict.get (fields_of c) k') as [f'|]; [|exact I].
    destruct v; try apply validate_value_raise;
      now destruct (required (field_options f')).
  - cbn [raises_only] in Hr. destruct e; try exact I; contradiction.
Qed.

Lemma index_keys_raise n l : forall seen e,
  index_keys n l seen = inl e -> escapes e.
Proof.
  induction l as [|key l IH]; intros seen e; cbn [index_keys]; [discriminate|].
  destruct (as_index key) as [i|]; [|intros H; injection H as <-; exact I].
  destruct (Z.leb (- n) i && Z.ltb i n); [apply IH|].
  intros H. injection H as <-. exact I.
Qed.

Lemma index_keys_nonempty n l : forall seen keys,
  index_keys n l seen = inr keys -> l <> [] \/ seen <> [] -> keys <> [].
Proof.
  induction l as [|key l IH]; intros seen keys; cbn [index_keys].
  - intros H [Hl | Hs]; [now destruct Hl|].
    injection H as <-. now destruct seen.
  - destruct (as_index key) as [i|]; [|discriminate].
    destruct (Z.leb (- n) i && Z.ltb i n); [|discriminate].
    intros H _. apply (IH _ _ H). right.
    destruct (existsb (fun x => Z.eqb (fst x) i) seen) eqn:Ex.
    + now destruct seen.
    + now destruct seen.
Qed.

Lemma new_cases c raw :
  match new c raw with
  | inr _ => True
  | inl (DataError errs) => errs <> []
  | inl e => escapes e
  end.
Proof.
  assert (Hdict : forall d,
    match construct fields_of c (PDict d) with
    | inr _ => True
    | inl (DataError errs) => errs <> []
    | inl e => escapes e
    end).
  { intros d. unfold construct.
    assert (E : (if truthy (PDict d) then PDict d else PDict []) = PDict d)
      by now destruct d.
    rewrite E. cbn [convert].
    match goal with
    | |- context [import_loop ?a ?b ?entries] =>
        destruct (import_loop a b entries) as [[|e errs] data]
    end; run; [exact I | discriminate]. }
  unfold new. destruct raw as [|b|z|s|l|d]; try apply Hdict.
  - apply (Hdict []).
  - destruct b; [exact I | apply (Hdict [])].
  - unfold construct. cbn [truthy]. destruct (Z.eqb z 0); [apply (Hdict [])|exact I].
  - unfold construct. cbn [truthy]. destruct (String.eqb s ""); [apply (Hdict [])|exact I].
  - destruct l as [|x l]; [apply (Hdict [])|].
    unfold construct. cbn [truthy].
    destruct (index_keys (Z.of_nat (length (x :: l))) (x :: l) []) as [e|keys] eqn:E; run.
    + apply index_keys_raise in E. destruct e; try exact I; contradiction.
    + apply index_keys_nonempty in E; [|left; discriminate].
      destruct keys; [now destruct E | discriminate].
Qed.

(** X13: [errors] never returns an empty report: its result is either None
    or a report with at least one entry, and [is_valid] is True in the
    first case and False in the second.  When [errors] raises, the
    exception is none of those it catches, and [is_valid] raises it too. *)
Theorem is_valid_iff_no_errors (cls : model_class) (dict_ : pyval) :
  (errors cls dict_ = inr ONone /\ is_valid cls dict_ = inr true)
  \/ (exists r, r <> []
        /\ errors cls dict_ = inr (OErrors (FieldErrors r))
        /\ is_valid cls dict_ = inr false)
  \/ (exists e, escapes e
        /\ errors cls dict_ = inl e /\ is_valid cls dict_ = inl e).
Proof.
  unfold is_valid, errors.
  pose proof (new_cases cls dict_) as Hn.
  destruct (new cls dict_) as [e|inst]; run.
  - destruct e as [k| |a|m|m|r|]; try (right; right; eexists; repeat split; exact I);
      try contradiction.
    right. left. exists r. destruct r; [now destruct Hn|].
    repeat split. discriminate.
  - pose proof (validate_cases inst) as Hv.
    destruct (validate fields_of validators_of inst) as [e|v]; run.
    + destruct e as [k| |a|m|m|r|];
        try (right; right; eexists; repeat split; exact I); try contradiction.
      right. left. exists r. destruct r; [now destruct Hv|].
      repeat split. discriminate.
    + left. now split.
Qed.

(** ** The part detail requests *)

Lemma raw_field_null c d name f :
  null d name -> raw_field c d name f
  = match Dict.get d name with
    | Some _ => inr NNone
    | None => inr (match default (field_options f) with Some n => n | None => NNone end)
    end.
Proof.
  intros [H | H]; unfold raw_field; rewrite H.
  - now destruct (default (field_options f)).
  - now destruct (Dict.get (fields_of c) name).
Qed.

Lemma new_post d :
  only_keys post_fields d = true ->
  null_or_text d "part" ->
  null_or_bool d "include_all_associated_products" ->
  null_or_bool d "include_all_for_use_with_products" ->
  new PartDetailPostRequest (PDict d)
  = inr (NModel PartDetailPostRequest
           [("part", native_of d "part");
            ("include_all_associated_products",
             match Dict.get d "include_all_associated_products" with
             | Some (PBool b) => NBool b
             | _ => NNone
             end);
            ("include_all_for_use_with_products",
             match Dict.get d "include_all_for_use_with_products" with
             | Some (PBool b) => NBool b
             | _ => NNone
             end)]).
Proof.
  intros Hk Hp Ha Hb. rewrite (new_dict PartDetailPostRequest d Hk).
  unfold import_step, raw_field, native_of. cbn [fields_of fold_left fst snd].
  destruct Hp as [[-> | ->] | (s & ->)];
    destruct Ha as [[-> | ->] | (a & ->)];
    destruct Hb as [[-> | ->] | (b & ->)]; reflexivity.
Qed.

Lemma new_get d :
  only_keys get_fields d = true ->
  null_or_text d "part" -> null_or_text d "includes" ->
  new ProductDetailGetRequest (PDict d)
  = inr (NModel ProductDetailGetRequest
           [("part", native_of d "part"); ("includes", native_of d "includes")]).
Proof.
  intros Hk Hp Hi. rewrite (new_dict ProductDetailGetRequest d Hk).
  unfold import_step, raw_field, native_of. cbn [fields_of fold_left fst snd].
  destruct Hp as [[-> | ->] | (s & ->)];
    destruct Hi as [[-> | ->] | (i & ->)]; reflexivity.
Qed.

(** X14: both part detail requests accept every text as [part], the empty
    text included, with flags that are booleans or null (POST) or an
    [includes] that is a text or null (GET); a null [part] is reported as
    missing on [part]. *)
Theorem part_detail_requests (d : list (string * pyval)) :
  (only_keys post_fields d = true ->
   null_or_bool d "include_all_associated_products" ->
   null_or_bool d "include_all_for_use_with_products" ->
   (forall s, Dict.get d "part" = Some (PStr s) ->
              errors PartDetailPostRequest (PDict d) = inr ONone)
   /\ (null d "part" ->
       errors PartDetailPostRequest (PDict d) = inr (part_report MsgRequired)))
  /\ (only_keys get_fields d = true ->
      null_or_text d "includes" ->
      (forall s, Dict.get d "part" = Some (PStr s) ->
                 errors ProductDetailGetRequest (PDict d) = inr ONone)
      /\ (null d "part" ->
          errors ProductDetailGetRequest (PDict d) = inr (part_report MsgRequired))).
Proof.
  split.
  - intros Hk Ha Hb. split.
    + intros s Hs. unfold errors.
      rewrite (new_post d Hk) by (try assumption; right; eauto).
      unfold native_of. rewrite Hs.
      destruct Ha as [[-> | ->] | (a & ->)];
        destruct Hb as [[-> | ->] | (b & ->)]; reflexivity.
    + intros Hp. unfold errors.
      rewrite (new_post d Hk) by (try assumption; now left).
      unfold native_of.
      destruct Hp as [-> | ->];
        destruct Ha as [[-> | ->] | (a & ->)];
        destruct Hb as [[-> | ->] | (b & ->)]; reflexivity.
  - intros Hk Hi. split.
    + intros s Hs. unfold errors.
      rewrite (new_get d Hk) by (try assumption; right; eauto).
      unfold native_of. rewrite Hs.
      destruct Hi as [[-> | ->] | (i & ->)]; reflexivity.
    + intros Hp. unfold errors.
      rewrite (new_get d Hk) by (try assumption; now left).
      unfold native_of.
      destruct Hp as [-> | ->];
        destruct Hi as [[-> | ->] | (i & ->)]; reflexivity.
Qed.

Lemma part_detail_requests_witness :
  errors PartDetailPostRequest
    (PDict [("include_all_associated_products", PBool true); ("part", PStr "")])
  = inr ONone
  /\ errors PartDetailPostRequest
       (PDict [("include_all_associated_products", PBool true)])
     = inr (part_report MsgRequired)
  /\ errors ProductDetailGetRequest (PDict [("part", PStr "296-6501-1-ND")])
     = inr ONone
  /\ errors ProductDetailGetRequest (PDict [("includes", PStr "DigiKeyPartNumber")])
     = inr (part_report MsgRequired).
Proof.
  split; [|split; [|split]].
  - apply (proj1 (proj1 (part_detail_requests
             [("include_all_associated_products", PBool true); ("part", PStr "")])
             eq_refl (or_intror (ex_intro _ true eq_refl))
             (or_introl (or_introl eq_refl))) "").
    reflexivity.
  - apply (proj2 (proj1 (part_detail_requests
             [("include_all_associated_products", PBool true)])
             eq_refl (or_intror (ex_intro _ true eq_refl))
             (or_introl (or_introl eq_refl)))).
    left. reflexivity.
  - apply (proj1 (proj2 (part_detail_requests [("part", PStr "296-6501-1-ND")])
             eq_refl (or_introl (or_introl eq_refl))) "296-6501-1-ND").
    reflexivity.
  - apply (proj2 (proj2 (part_detail_requests
             [("includes", PStr "DigiKeyPartNumber")])
             eq_refl (or_intror (ex_intro _ "DigiKeyPartNumber" eq_refl)))).
    left. reflexivity.
Defined.

(** ** KeywordSearchRequest: keywords and the other violations *)

Lemma new_request_null d :
  only_keys request_fields d = true ->
  null d "keywords" ->
  (forall n, Dict.get d "record_count" = Some (PInt n) ->
     new KeywordSearchRequest (PDict d)
     = inr (NModel KeywordSearchRequest
              [("keywords", NNone); ("search_options", NNone);
               ("record_count", NInt n); ("record_start_pos", NInt 0);
               ("filters", NNone); ("sort", NNone); ("requested_quantity", NInt 1)]))
  /\ (Dict.get d "record_count" = None ->
      new KeywordSearchRequest (PDict d)
      = inr (NModel KeywordSearchRequest
               [("keywords", NNone); ("search_options", NNone);
                ("record_count", NInt 10); ("record_start_pos", NInt 0);
                ("filters", NNone); ("sort", NNone); ("requested_quantity", NInt 1)])).
Proof.
  intros Hk Hkw.
  rewrite (new_dict KeywordSearchRequest d)
    by (apply (only_keys_mono _ _ _ Hk); reflexivity).
  cbn [fields_of fold_left].
  rewrite (import_step_ok _ _ _ _ "keywords" _ NNone)
    by (rewrite (raw_field_null _ _ _ _ Hkw); now destruct (Dict.get d "keywords")).
  rewrite (import_step_ok _ _ _ _ "search_options" _ _
             (raw_field_absent _ _ _ _ (get_outside _ _ "search_options" Hk eq_refl))).
  split; [intros n Hn | intros Hn].
  - rewrite (import_step_ok _ _ _ _ "record_count" _ (NInt n))
      by (unfold raw_field; now rewrite Hn).
    now rewrite
      (import_step_ok _ _ _ _ "record_start_pos" _ _
         (raw_field_absent _ _ _ _ (get_outside _ _ "record_start_pos" Hk eq_refl))),
      (import_step_ok _ _ _ _ "filters" _ _
         (raw_field_absent _ _ _ _ (get_outside _ _ "filters" Hk eq_refl))),
      (import_step_ok _ _ _ _ "sort" _ _
         (raw_field_absent _ _ _ _ (get_outside _ _ "sort" Hk eq_refl))),
      (import_step_ok _ _ _ _ "requested_quantity" _ _
         (raw_field_absent _ _ _ _ (get_outside _ _ "requested_quantity" Hk eq_refl))).
  - rewrite (import_step_ok _ _ _ _ "record_count" _ _
               (raw_field_absent _ _ _ _ Hn)).
    now rewrite
      (import_step_ok _ _ _ _ "record_start_pos" _ _
         (raw_field_absent _ _ _ _ (get_outside _ _ "record_start_pos" Hk eq_refl))),
      (import_step_ok _ _ _ _ "filters" _ _
         (raw_field_absent _ _ _ _ (get_outside _ _ "filters" Hk eq_refl))),
      (import_step_ok _ _ _ _ "sort" _ _
         (raw_field_absent _ _ _ _ (get_outside _ _ "sort" Hk eq_refl))),
      (import_step_ok _ _ _ _ "requested_quantity" _ _
         (raw_field_absent _ _ _ _ (get_outside _ _ "requested_quantity" Hk eq_refl))).
Qed.

(** X15: a keyword search request without keywords is reported on
    [keywords]; validation does not stop there: a record count outside 1-50
    is reported in the same report. *)
Theorem keywords_required (d : list (string * pyval)) :
  only_keys request_fields d = true ->
  null d "keywords" ->
  (forall n, Dict.get d "record_count" = Some (PInt n) ->
     errors KeywordSearchRequest (PDict d) = inr (keywords_report n))
  /\ (Dict.get d "record_count" = None ->
      errors KeywordSearchRequest (PDict d) = inr (keywords_report 10)).
Proof.
  intros Hk Hkw. destruct (new_request_null d Hk Hkw) as [Hn Hd].
  split; [intros n Hrc | intros Hrc]; unfold errors, keywords_report.
  - rewrite (Hn n Hrc). run. unfold validate. cbn -[Z.ltb].
    destruct (n <? 1)%Z; [reflexivity|].
    destruct (50 <? n)%Z; reflexivity.
  - rewrite (Hd Hrc). reflexivity.
Qed.

Lemma keywords_required_witness :
  errors KeywordSearchRequest (PDict [("record_count", PInt 99)])
  = inr (OErrors (FieldErrors [("keywords", Messages [MsgRequired]);
                               ("record_count", Messages [MsgMaxValue 50])]))
  /\ errors KeywordSearchRequest (PDict [("keywords", PNone)])
     = inr (OErrors (FieldErrors [("keywords", Messages [MsgRequired])])).
Proof.
  split.
  - exact (proj1 (keywords_required [("record_count", PInt 99)] eq_refl
                    (or_introl eq_refl)) 99%Z eq_refl).
  - exact (proj2 (keywords_required [("keywords", PNone)] eq_refl
                    (or_intror eq_refl)) eq_refl).
Defined.

(** ** KeywordSearchRequest: search options *)

Lemma collect_converted_texts (g : pyval -> converted) opts : forall i,
  (forall o, g (PStr o) = inr (NStr o)) ->
  collect_converted i (map g (map PStr opts)) = ([], map NStr opts).
Proof.
  intros i Hg. revert i. induction opts as [|o opts IH]; intros i; [reflexivity|].
  cbn [map collect_converted]. now rewrite IH, Hg.
Qed.

Lemma collect_validated_options (g : native -> validated) opts : forall i,
  (forall o, g (NStr o)
             = if Dict.mem o search_option_values then Valid (NStr o)
               else Invalid (Messages [MsgChoices search_option_values]) None) ->
  collect_validated i (map g (map NStr opts))
  = inr (bad_options i opts, map NStr (filter (fun o => Dict.mem o search_option_values) opts)).
Proof.
  intros i Hg. revert i. induction opts as [|o opts IH]; intros i; [reflexivity|].
  cbn [map collect_validated bad_options filter]. rewrite Hg, IH.
  now destruct (Dict.mem o search_option_values).
Qed.

Lemma validate_option o :
  validate_value fields_of validators_of
    (StringType (kw_choices search_option_values no_options)) (NStr o)
  = if Dict.mem o search_option_values then Valid (NStr o)
    else Invalid (Messages [MsgChoices search_option_values]) None.
Proof.
  cbn [validate_value]. unfold check_choices, check_length.
  cbn [choices max_length min_length kw_choices no_options].
  now destruct (Dict.mem o search_option_values).
Qed.

Lemma new_options d kw opts :
  only_keys options_fields d = true ->
  Dict.get d "keywords" = Some (PStr kw) ->
  Dict.get d "search_options" = Some (PList (map PStr opts)) ->
  new KeywordSearchRequest (PDict d)
  = inr (NModel KeywordSearchRequest
           [("keywords", NStr kw); ("search_options", NList (map NStr opts));
            ("record_count", NInt 10); ("record_start_pos", NInt 0);
            ("filters", NNone); ("sort", NNone); ("requested_quantity", NInt 1)]).
Proof.
  intros Hk Hkw Ho.
  rewrite (new_dict KeywordSearchRequest d)
    by (apply (only_keys_mono _ _ _ Hk); reflexivity).
  cbn [fields_of fold_left].
  rewrite (import_step_ok _ _ _ _ _ _ (NStr kw))
    by (unfold raw_field; now rewrite Hkw).
  rewrite (import_step_ok _ _ _ _ "search_options" _ (NList (map NStr opts))).
  2:{ unfold raw_field. rewrite Ho. cbn [fields_of Dict.get String.eqb Ascii.eqb Bool.eqb convert].
      unfold list_converted.
      now rewrite (collect_converted_texts _ opts 0) by reflexivity. }
  now rewrite
    (import_step_ok _ _ _ _ "record_count" _ _
       (raw_field_absent _ _ _ _ (get_outside _ _ "record_count" Hk eq_refl))),
    (import_step_ok _ _ _ _ "record_start_pos" _ _
       (raw_field_absent _ _ _ _ (get_outside _ _ "record_start_pos" Hk eq_refl))),
    (import_step_ok _ _ _ _ "filters" _ _
       (raw_field_absent _ _ _ _ (get_outside _ _ "filters" Hk eq_refl))),
    (import_step_ok _ _ _ _ "sort" _ _
       (raw_field_absent _ _ _ _ (get_outside _ _ "sort" Hk eq_refl))),
    (import_step_ok _ _ _ _ "requested_quantity" _ _
       (raw_field_absent _ _ _ _ (get_outside _ _ "requested_quantity" Hk eq_refl))).
Qed.

(** X16: a keyword search request whose search options are texts is valid
    exactly when every option is one of the nine SearchOptions values;
    otherwise the report lists, under [search_options], the position of
    every option that is not. *)
Theorem search_options_checked (d : list (string * pyval)) (kw : string)
        (opts : list string) :
  only_keys options_fields d = true ->
  Dict.get d "keywords" = Some (PStr kw) ->
  Dict.get d "search_options" = Some (PList (map PStr opts)) ->
  errors KeywordSearchRequest (PDict d)
  = inr (match bad_options 0 opts with
         | [] => ONone
         | bad => OErrors (FieldErrors [("search_options", IndexErrors bad)])
         end)
  /\ (bad_options 0 opts = []
      <-> forallb (fun o => Dict.mem o search_option_values) opts = true).
Proof.
  intros Hk Hkw Ho. split.
  - unfold errors. rewrite (new_options d kw opts Hk Hkw Ho). run.
    unfold validate.
    cbn [validate_value map fst snd fields_of Dict.get String.eqb Ascii.eqb
         Bool.eqb field_options required kw_required kw_default kw_choices
         kw_min_value kw_max_value no_options].
    unfold list_validated.
    rewrite (collect_validated_options _ opts 0) by exact validate_option.
    destruct (bad_options 0 opts) as [|b bad] eqn:Eb; reflexivity.
  - clear Hk Hkw Ho. generalize 0.
    induction opts as [|o opts IH]; intros i; [now split|].
    cbn [bad_options forallb].
    destruct (Dict.mem o search_option_values); [apply IH|].
    split; discriminate.
Qed.

Lemma search_options_checked_witness :
  errors KeywordSearchRequest
    (PDict [("keywords", PStr "led");
            ("search_options", PList (map PStr ["InStock"; "RoHSCompliant"]))])
  = inr ONone
  /\ errors KeywordSearchRequest
       (PDict [("keywords", PStr "led");
               ("search_options", PList (map PStr ["InStock"; "Cheap"; "LeadFree"; "in_stock"]))])
     = inr (OErrors (FieldErrors
              [("search_options",
                IndexErrors [(1, Messages [MsgChoices search_option_values]);
                             (3, Messages [MsgChoices search_option_values])])])).
Proof.
  split.
  - exact (proj1 (search_options_checked
                    [("keywords", PStr "led");
                     ("search_options", PList (map PStr ["InStock"; "RoHSCompliant"]))]
                    "led" ["InStock"; "RoHSCompliant"]
                    eq_refl eq_refl eq_refl)).
  - exact (proj1 (search_options_checked
                    [("keywords", PStr "led");
                     ("search_options",
                      PList (map PStr ["InStock"; "Cheap"; "LeadFree"; "in_stock"]))]
                    "led" ["InStock"; "Cheap"; "LeadFree"; "in_stock"]
                    eq_refl eq_refl eq_refl)).
Defined.

(** ** KeywordSearchRequest: a nested sort *)

Lemma validate_model_cases c data :
  match validate_value fields_of validators_of (ModelType c no_options) (NModel c data) with
  | Valid _ => True
  | Invalid (FieldErrors errs) _ => errs <> []
  | Invalid _ _ => False
  | Raised e => escapes e
  end.
Proof.
  pose proof (validate_loop_raise c) as Hloop.
  cbn [validate_value].
  match goal with
  | |- context [validate_loop _ _ _ ?entries] => apply (Hloop entries)
  end.
  rewrite Forall_forall. intros [k r] Hin.
  apply in_map_iff in Hin as ([k' v] & E & Hin).
  cbn [fst snd] in E. injection E as <- <-.
  unfold raises_only_entry. cbn [snd].
  destruct (Dict.get (fields_of c) k') as [f'|]; [|exact I].
  destruct v; try apply validate_value_raise;
    now destruct (required (field_options f')).
Qed.

Lemma validate_with_sort kw data :
  validate fields_of validators_of
    (NModel KeywordSearchRequest
       [("keywords", NStr kw); ("search_options", NNone);
        ("record_count", NInt 10); ("record_start_pos", NInt 0);
        ("filters", NNone); ("sort", NModel Sort data);
        ("requested_quantity", NInt 1)])
  = match validate_value fields_of validators_of (ModelType Sort no_options)
            (NModel Sort data) with
    | Valid n =>
        inr (NModel KeywordSearchRequest
               [("keywords", NStr kw); ("search_options", NNone);
                ("record_count", NInt 10); ("record_start_pos", NInt 0);
                ("filters", NNone); ("sort", n);
                ("requested_quantity", NInt 1)])
    | Invalid e _ => inl (DataError [("sort", e)])
    | Raised e => inl e
    end.
Proof.
  pose proof (validate_model_cases Sort data) as Hr. revert Hr.
  unfold validate. cbn -[validate_loop].
  match goal with
  | |- context [validate_loop _ _ Sort ?en] =>
      generalize (validate_loop fields_of validators_of Sort en)
  end.
  intros [n|[m|errs|ix] [p|]|e] Hr; try contradiction; reflexivity.
Qed.

(** X17: a keyword search request with a nested [sort] mapping is judged on
    that mapping as [Sort] itself judges it: no report where Sort gives
    none, the report of Sort under the key [sort] where it gives one, and
    the exception Sort raises where it raises. *)
Theorem nested_sort_reported (d s : list (string * pyval)) (kw : string) :
  only_keys nested_sort_fields d = true ->
  Dict.get d "keywords" = Some (PStr kw) ->
  Dict.get d "sort" = Some (PDict s) ->
  errors KeywordSearchRequest (PDict d)
  = match errors Sort (PDict s) with
    | inr o => inr (under_sort o)
    | inl e => inl e
    end.
Proof.
  intros Hk Hkw Hs.
  assert (Hraw : raw_field KeywordSearchRequest d "sort" (ModelType Sort no_options)
                 = convert fields_of (ModelType Sort no_options) (PDict s))
    by (unfold raw_field; now rewrite Hs).
  assert (Hnew : new Sort (PDict s)
                 = match convert fields_of (ModelType Sort no_options) (PDict s) with
                   | inr inst => inr inst
                   | inl (FieldErrors errs) => inl (DataError errs)
                   | inl _ => inl TypeError
                   end)
    by (unfold new, construct; now destruct s).
  assert (HC : (exists data, convert fields_of (ModelType Sort no_options) (PDict s)
                             = inr (NModel Sort data))
               \/ (exists e errs, convert fields_of (ModelType Sort no_options) (PDict s)
                                  = inl (FieldErrors (e :: errs)))).
  { cbn [convert].
    match goal with
    | |- context [import_loop ?a ?b ?entries] =>
        destruct (import_loop a b entries) as [[|e errs] data]
    end; eauto. }
  unfold errors. rewrite Hnew.
  rewrite (new_dict KeywordSearchRequest d)
    by (apply (only_keys_mono _ _ _ Hk); reflexivity).
  cbn [fields_of fold_left].
  rewrite (import_step_ok _ _ _ _ _ _ (NStr kw))
    by (unfold raw_field; now rewrite Hkw).
  rewrite
    (import_step_ok _ _ _ _ "search_options" _ _
       (raw_field_absent _ _ _ _ (get_outside _ _ "search_options" Hk eq_refl))),
    (import_step_ok _ _ _ _ "record_count" _ _
       (raw_field_absent _ _ _ _ (get_outside _ _ "record_count" Hk eq_refl))),
    (import_step_ok _ _ _ _ "record_start_pos" _ _
       (raw_field_absent _ _ _ _ (get_outside _ _ "record_start_pos" Hk eq_refl))),
    (import_step_ok _ _ _ _ "filters" _ _
       (raw_field_absent _ _ _ _ (get_outside _ _ "filters" Hk eq_refl))).
  destruct HC as [(data & HC) | (e & errs & HC)].
  - rewrite (import_step_ok _ _ _ _ "sort" _ (NModel Sort data))
      by (rewrite Hraw; exact HC).
    rewrite
      (import_step_ok _ _ _ _ "requested_quantity" _ _
         (raw_field_absent _ _ _ _ (get_outside _ _ "requested_quantity" Hk eq_refl))).
    rewrite HC.
    cbn [Dict.set String.eqb Ascii.eqb Bool.eqb default field_options
         kw_default kw_required kw_min_value kw_max_value no_options].
    run. rewrite validate_with_sort.
    pose proof (validate_model_cases Sort data) as Hr. revert Hr.
    unfold validate.
    destruct (validate_value fields_of validators_of (ModelType Sort no_options)
                (NModel Sort data)) as [n|[m|r|ix] p|x]; run;
      intros Hr; try contradiction; try reflexivity.
    destruct x; try contradiction; reflexivity.
  - unfold import_step at 2. cbn [fst snd]. rewrite Hraw, HC.
    rewrite
      (import_step_ok _ _ _ _ "requested_quantity" _ _
         (raw_field_absent _ _ _ _ (get_outside _ _ "requested_quantity" Hk eq_refl))).
    reflexivity.
Qed.

Lemma nested_sort_reported_witness :
  errors KeywordSearchRequest
    (PDict [("keywords", PStr "led"); ("sort", PDict sort_by_parameter_null)])
  = inr (under_sort missing_parameter)
  /\ errors KeywordSearchRequest
       (PDict [("keywords", PStr "led");
               ("sort", PDict [("sort_option", PStr "Bogus");
                               ("direction", PStr "Ascending")])])
     = inl (KeyError "sort_option").
Proof.
  split.
  - exact (nested_sort_reported
             [("keywords", PStr "led"); ("sort", PDict sort_by_parameter_null)]
             sort_by_parameter_null "led" eq_refl eq_refl eq_refl).
  - exact (nested_sort_reported
             [("keywords", PStr "led");
              ("sort", PDict [("sort_option", PStr "Bogus");
                              ("direction", PStr "Ascending")])]
             [("sort_option", PStr "Bogus"); ("direction", PStr "Ascending")]
             "led" eq_refl eq_refl eq_refl).
Defined.

(** ** LimitedTaxonomy: taxonomies of any shape *)

Section TaxonInd.
Variable P : taxon_tree -> Prop.
Hypothesis HTaxon : forall v ch,
  match ch with Some l => Forall P l | None => True end -> P (Taxon v ch).

Fixpoint taxon_nested_ind (t : taxon_tree) : P t :=
  match t with
  | Taxon v ch =>
      HTaxon v ch
        match ch return match ch with Some l => Forall P l | None => True end with
        | Some l =>
            (fix go (l : list taxon_tree) : Forall P l :=
               match l with
               | [] => Forall_nil _
               | x :: l' => Forall_cons x (taxon_nested_ind x) (go l')
               end) l
        | None => I
        end
  end.
End TaxonInd.

Lemma convert_dict c o d :
  only_keys (Dict.keys (fields_of c)) d = true ->
  convert fields_of (ModelType c o) (PDict d) =
  match fold_left (import_step c d) (fields_of c) ([], []) with
  | ([], data) => inr (NModel c data)
  | (errs, _) => inl (FieldErrors errs)
  end.
Proof.
  intros H. cbn [convert]. fold (raw_entries c d).
  unfold import_loop. rewrite (no_rogue c d H).
  rewrite (fold_left_ext _ (import_step c d)).
  2:{ intros acc nf. unfold import_step. now rewrite import_field_raw. }
  reflexivity.
Qed.

Lemma underscore_node v l :
  recursive_underscore (raw_taxon v (Some l))
  = PDict [("product_count", PInt (tv_product_count v));
           ("new_product_count", PInt (tv_new_product_count v));
           ("parameter_id", PInt (tv_parameter_id v));
           ("value_id", PStr (tv_value_id v));
           ("parameter", PStr (tv_parameter v));
           ("value", PStr (tv_value v));
           ("children", PList (map recursive_underscore l))].
Proof. vm_compute. reflexivity. Qed.

Lemma convert_node v l built :
  convert fields_of taxonomy_field (PList (map recursive_underscore l)) = inr built ->
  convert fields_of (ModelType LimitedTaxonomy no_options)
    (recursive_underscore (raw_taxon v (Some l)))
  = inr (taxon v built).
Proof.
  intros H. rewrite underscore_node.
  rewrite convert_dict by reflexivity.
  cbn [fields_of fold_left app].
  rewrite (import_step_ok _ _ _ _ "product_count" _ (NInt (tv_product_count v)))
    by reflexivity.
  rewrite (import_step_ok _ _ _ _ "new_product_count" _ (NInt (tv_new_product_count v)))
    by reflexivity.
  rewrite (import_step_ok _ _ _ _ "parameter_id" _ (NInt (tv_parameter_id v)))
    by reflexivity.
  rewrite (import_step_ok _ _ _ _ "value_id" _ (NStr (tv_value_id v))) by reflexivity.
  rewrite (import_step_ok _ _ _ _ "parameter" _ (NStr (tv_parameter v))) by reflexivity.
  rewrite (import_step_ok _ _ _ _ "value" _ (NStr (tv_value v))) by reflexivity.
  rewrite (import_step_ok _ _ _ _ "children" _ built) by exact H.
  reflexivity.
Qed.

Lemma collect_converted_all (g : pyval -> converted) xs : forall ys i,
  Forall2 (fun x y => g x = inr y) xs ys ->
  collect_converted i (map g xs) = ([], ys).
Proof.
  induction xs as [|x xs IH]; intros ys i H; inversion H as [|? y ? ys' Hx Hxs]; subst;
    [reflexivity|].
  cbn [map collect_converted]. now rewrite (IH _ _ Hxs), Hx.
Qed.

Lemma underscore_taxon_dict t : exists items, recursive_underscore (raw_of t) = PDict items.
Proof. destruct t as [v ch]. eexists. reflexivity. Qed.

Lemma convert_taxon t :
  convert fields_of (ModelType LimitedTaxonomy no_options) (recursive_underscore (raw_of t))
  = inr (built_of t).
Proof.
  induction t as [v [l|] IH] using taxon_nested_ind; [|vm_compute; reflexivity].
  cbn [raw_of built_of]. apply convert_node.
  unfold taxonomy_field. cbn [convert]. unfold list_converted.
  rewrite (collect_converted_all _ _ (map built_of l)); [reflexivity|].
  induction IH as [|c l Hc _ IHl]; [constructor|].
  cbn [map]. constructor; [|exact IHl].
  destruct (underscore_taxon_dict c) as (items & E).
  rewrite E in Hc |- *. exact Hc.
Qed.

Lemma collect_validated_all (g : native -> validated) xs : forall i,
  Forall (fun x => g x = Valid x) xs ->
  collect_validated i (map g xs) = inr ([], xs).
Proof.
  induction xs as [|x xs IH]; intros i H; inversion H as [|? ? Hx Hxs]; subst;
    [reflexivity|].
  cbn [map collect_validated]. now rewrite Hx, (IH _ Hxs).
Qed.

Lemma validate_node v l :
  validate_value fields_of validators_of taxonomy_field (NList l) = Valid (NList l) ->
  validate_value fields_of validators_of (ModelType LimitedTaxonomy no_options)
    (taxon v (NList l))
  = Valid (taxon v (NList l)).
Proof.
  intros H.
  change (validate_value fields_of validators_of (ModelType LimitedTaxonomy no_options)
            (taxon v (NList l)))
    with (validate_loop fields_of validators_of LimitedTaxonomy
            [("product_count", Some (Valid (NInt (tv_product_count v))));
             ("new_product_count", Some (Valid (NInt (tv_new_product_count v))));
             ("parameter_id", Some (Valid (NInt (tv_parameter_id v))));
             ("value_id", Some (Valid (NStr (tv_value_id v))));
             ("parameter", Some (Valid (NStr (tv_parameter v))));
             ("value", Some (Valid (NStr (tv_value v))));
             ("children",
              Some (validate_value fields_of validators_of taxonomy_field (NList l)))]).
  rewrite H. reflexivity.
Qed.

Lemma validate_taxon t :
  validate_value fields_of validators_of (ModelType LimitedTaxonomy no_options) (built_of t)
  = Valid (built_of t).
Proof.
  induction t as [v [l|] IH] using taxon_nested_ind; [|reflexivity].
  cbn [built_of]. apply validate_node.
  unfold taxonomy_field. cbn [validate_value]. unfold list_validated.
  rewrite collect_validated_all; [reflexivity|].
  induction IH as [|c l Hc _ IHl]; [constructor|].
  cbn [map]. constructor; [|exact IHl].
  destruct c as [v' ch']. exact Hc.
Qed.

Lemma depth_taxon v built : depth (taxon v built) = S (depth built).
Proof. cbn. now rewrite Nat.max_0_r. Qed.

Lemma depth_built t : depth (built_of t) = height t.
Proof.
  induction t as [v [l|] IH] using taxon_nested_ind;
    cbn [built_of height]; rewrite depth_taxon; [|reflexivity].
  f_equal. cbn [depth].
  induction IH as [|c l Hc _ IHl]; [reflexivity|].
  cbn [map fold_right]. now rewrite Hc, IHl.
Qed.

